(** * res_kafka: the Kafka resource module of Asterisk, embedded in Rocq

    The module reads cluster, producer, consumer and topic objects from a
    sorcery instance and drives librdkafka from them.  The embedding keeps
    the shape of the C file: every C function is one definition of the same
    name in a state monad over a [world]; the [world] holds the memory the
    module allocates (astobj2 objects, rdkafka configurations, clients and
    topic handles), the static [kafka_sorcery] pointer and the history of
    every call that leaves the module.

    librdkafka, astobj2's allocator and the sorcery are not part of the
    module.  What they answer is a parameter, the record [env]: each answer
    may depend on the whole history of calls so far and on the arguments of
    the call.  A NULL pointer dereference stops the run with [Fault]. *)

From stdpp Require Import gmap strings list fin_maps.
From Stdlib Require Import ZArith.

Local Open Scope string_scope.
Local Open Scope Z_scope.
Local Open Scope list_scope.

(** ** Constants of the C file *)

Definition KAFKA_CONFIG_FILENAME : string := "kafka.conf".
Definition KAFKA_CLUSTER : string := "cluster".
Definition KAFKA_TOPIC : string := "topic".
Definition KAFKA_PRODUCER : string := "producer".
Definition KAFKA_CONSUMER : string := "consumer".
Definition KAFKA_ERRSTR_MAX_SIZE : Z := 80.

(** ** Constants of the headers the file includes

    librdkafka/rdkafka.h and asterisk/module.h are not part of the
    repository; these are the values the identifiers have there. *)

Definition RD_KAFKA_PARTITION_UA : Z := -1.
Definition RD_KAFKA_MSG_F_COPY : Z := 2.
Definition RD_KAFKA_RESP_ERR_NO_ERROR : Z := 0.

Inductive rd_kafka_type_t := RD_KAFKA_PRODUCER | RD_KAFKA_CONSUMER.

Inductive rd_kafka_conf_res_t :=
  | RD_KAFKA_CONF_UNKNOWN
  | RD_KAFKA_CONF_INVALID
  | RD_KAFKA_CONF_OK.

Inductive ast_module_load_result :=
  | AST_MODULE_LOAD_SUCCESS
  | AST_MODULE_LOAD_DECLINE.

Inductive loglevel := LOG_DEBUG3 | LOG_NOTICE | LOG_WARNING | LOG_ERROR.

Inductive opt_type := OPT_NOOP_T | OPT_STRINGFIELD_T | OPT_UINT_T | OPT_BOOL_T.

#[global] Instance rd_kafka_type_t_eq_dec : EqDecision rd_kafka_type_t.
Proof. solve_decision. Defined.
#[global] Instance rd_kafka_conf_res_t_eq_dec : EqDecision rd_kafka_conf_res_t.
Proof. solve_decision. Defined.
#[global] Instance ast_module_load_result_eq_dec : EqDecision ast_module_load_result.
Proof. solve_decision. Defined.
#[global] Instance loglevel_eq_dec : EqDecision loglevel.
Proof. solve_decision. Defined.
#[global] Instance opt_type_eq_dec : EqDecision opt_type.
Proof. solve_decision. Defined.

(** ** Sorcery objects (the four structs of the file)

    [SORCERY_OBJECT(defails)] gives every object its id; the string fields
    follow [AST_DECLARE_STRING_FIELDS]. *)

Record sorcery_kafka_cluster := {
  cluster_id : string;          (* ast_sorcery_object_get_id *)
  brokers : string;
  security_protocol : string;
  sasl_mechanism : string;
  sasl_username : string;
  sasl_password : string;
  client_id : string;
  port : Z;                     (* unsigned int *)
  ssl : Z;                      (* unsigned int *)
  cluster : option nat          (* rd_kafka_t *cluster, never written *)
}.

Record sorcery_kafka_producer := {
  producer_id : string;         (* ast_sorcery_object_get_id *)
  producer_cluster_id : string  (* field cluster_id, option "cluster" *)
}.

Record sorcery_kafka_consumer := {
  consumer_id : string;         (* ast_sorcery_object_get_id *)
  consumer_cluster_id : string  (* field cluster_id, option "cluster" *)
}.

Record sorcery_kafka_topic := {
  topic_id : string;            (* ast_sorcery_object_get_id *)
  topic_name : string;          (* field topic: Kafka topic name, option "topic" *)
  topic_producer_id : string;   (* field producer_id, option "producer" *)
  topic_consumer_id : string    (* field consumer_id, option "consumer" *)
}.

#[global] Instance sorcery_kafka_cluster_eq_dec : EqDecision sorcery_kafka_cluster.
Proof. solve_decision. Defined.
#[global] Instance sorcery_kafka_producer_eq_dec : EqDecision sorcery_kafka_producer.
Proof. solve_decision. Defined.
#[global] Instance sorcery_kafka_consumer_eq_dec : EqDecision sorcery_kafka_consumer.
Proof. solve_decision. Defined.
#[global] Instance sorcery_kafka_topic_eq_dec : EqDecision sorcery_kafka_topic.
Proof. solve_decision. Defined.

(** The objects a sorcery load makes available, per object type. *)
Record kafka_objects := {
  clusters : list sorcery_kafka_cluster;
  producers : list sorcery_kafka_producer;
  consumers : list sorcery_kafka_consumer;
  topics : list sorcery_kafka_topic
}.

Definition no_objects : kafka_objects :=
  {| clusters := []; producers := []; consumers := []; topics := [] |}.

(** One [ast_sorcery_object_field_register] call. *)
Record field_reg := {
  fr_type : string;
  fr_name : string;
  fr_default : string;
  fr_opt : opt_type
}.

(** The sorcery instance behind [kafka_sorcery]. *)
Record ast_sorcery := {
  object_types : list string;    (* registered with ast_sorcery_object_register *)
  object_fields : list field_reg;
  observed_types : list string;  (* types carrying [producer_observers] *)
  loaded : kafka_objects
}.

(** ** Memory

    Everything the module allocates lives in one memory, keyed by address.
    [struct kafka_producer] and [struct kafka_producer_topic] are astobj2
    objects: a reference count and the payload; the payload's constructor
    also tells which destructor [ao2_alloc] was given. *)

Inductive ao2_payload :=
  | kafka_producer (rd_kafka : option nat)
  | kafka_producer_topic (rd_kafka_topic : option nat).

Inductive cell :=
  | Ao2 (refcount : Z) (payload : ao2_payload)
  | RdKafkaConf (settings : list (string * string))
  | RdKafkaTopicConf (opaque : option nat)
  | RdKafka (type : rd_kafka_type_t) (settings : list (string * string))
  | RdKafkaTopic (rk : nat) (name : string) (opaque : option nat).

#[global] Instance ao2_payload_eq_dec : EqDecision ao2_payload.
Proof. solve_decision. Defined.
#[global] Instance cell_eq_dec : EqDecision cell.
Proof. solve_decision. Defined.

(** ** History

    One event per call that leaves the module, with its arguments and,
    where the caller looks at it, its answer. *)

Inductive logarg :=
  | AStr (s : string)
  | APtr (p : option nat)            (* %p of an address of [mem] *)
  | AObj (type id : string).         (* %p of a sorcery object *)

Inductive event :=
  | ast_log_ev (level : loglevel) (fmt : string) (args : list logarg)
  | ao2_alloc_ev (r : option nat)
  | ao2_ref_ev (obj : nat) (delta : Z)
  | ao2_destroy_ev (obj : nat)
  | rd_kafka_conf_new_ev (r : option nat)
  | rd_kafka_conf_set_ev (conf : nat) (name value : string) (r : rd_kafka_conf_res_t)
  | rd_kafka_conf_destroy_ev (conf : nat)
  | rd_kafka_new_ev (type : rd_kafka_type_t) (conf : nat) (r : option nat)
  | rd_kafka_destroy_ev (rk : nat)
  | rd_kafka_topic_conf_new_ev (r : option nat)
  | rd_kafka_topic_conf_set_opaque_ev (conf : nat) (opaque : option nat)
  | rd_kafka_topic_conf_destroy_ev (conf : nat)
  | rd_kafka_topic_new_ev (rk : nat) (name : string) (conf : nat) (r : option nat)
  | rd_kafka_topic_destroy_ev (rkt : nat)
  | rd_kafka_produce_ev (rkt : nat) (partition msgflags : Z) (payload : string) (len : Z) (r : Z)
  | rd_kafka_flush_ev (rk : nat) (timeout_ms : Z) (r : Z)
  | ast_sorcery_open_ev (ok : bool)
  | ast_sorcery_apply_default_ev (type module options : string) (ok : bool)
  | ast_sorcery_object_register_ev (type : string) (ok : bool)
  | ast_sorcery_object_field_register_ev (f : field_reg)
  | ast_sorcery_observer_add_ev (type : string) (ok : bool)
  | ast_sorcery_observer_remove_ev (type : string)
  | ast_sorcery_load_ev
  | ast_sorcery_reload_ev
  | ast_sorcery_unref_ev
  | ast_sorcery_retrieve_by_fields_ev (type : string) (filter : option (string * string)) (ok : bool)
  | ast_sorcery_generic_alloc_ev (ok : bool)
  | ast_string_field_init_ev (ok : bool)
  | ast_string_field_free_memory_ev
  | ast_cli_register_multiple_ev
  | ast_cli_unregister_multiple_ev.

#[global] Instance logarg_eq_dec : EqDecision logarg.
Proof. solve_decision. Defined.
#[global] Instance field_reg_eq_dec : EqDecision field_reg.
Proof. solve_decision. Defined.
#[global] Instance event_eq_dec : EqDecision event.
Proof. solve_decision. Defined.

(** ** The world *)

Record world := {
  mem : gmap nat cell;
  kafka_sorcery : option ast_sorcery;   (* static struct ast_sorcery *kafka_sorcery *)
  history : list event
}.

Definition initial_world : world :=
  {| mem := ∅; kafka_sorcery := None; history := [] |}.

(** ** What the collaborators answer *)

Record env := {
  (* astobj2 *)
  ao2_alloc_ok : list event → bool;
  (* librdkafka *)
  rd_kafka_conf_new_ok : list event → bool;
  rd_kafka_conf_set_res : list event → string → string → rd_kafka_conf_res_t * string;
  rd_kafka_new_res : list event → rd_kafka_type_t → list (string * string) → option string;
  rd_kafka_topic_conf_new_ok : list event → bool;
  rd_kafka_topic_new_ok : list event → string → bool;
  rd_kafka_produce_res : list event → Z;
  rd_kafka_flush_res : list event → Z;
  rd_kafka_err2str : Z → string;
  rd_kafka_last_error : list event → Z;
  (* sorcery *)
  ast_sorcery_open_ok : list event → bool;
  ast_sorcery_apply_default_ok : list event → string → bool;
  ast_sorcery_object_register_ok : list event → string → bool;
  ast_sorcery_observer_add_ok : list event → string → bool;
  ast_sorcery_retrieve_ok : list event → string → bool;
  ast_sorcery_generic_alloc_ok : list event → bool;
  ast_string_field_init_ok : list event → bool;
  kafka_conf : list event → kafka_objects   (* what kafka.conf holds *)
}.

(** ** The monad of the module's functions *)

Inductive outcome (A : Type) :=
  | Done (a : A) (w : world)
  | Fault (w : world).   (* NULL or dangling pointer used: the run ends here *)
Arguments Done {A} a w.
Arguments Fault {A} w.

Definition M (A : Type) : Type := world → outcome A.

Definition ret {A} (a : A) : M A := λ w, Done a w.

Definition bind {A B} (m : M A) (k : A → M B) : M B :=
  λ w, match m w with
       | Done a w' => k a w'
       | Fault w' => Fault w'
       end.

Definition fault {A} : M A := λ w, Fault w.

Notation "'let*' x ':=' c1 'in' c2" := (bind c1 (λ x, c2))
  (at level 10, x pattern, c1 at level 100, c2 at level 200).
Notation "c1 ';;' c2" := (bind c1 (λ _, c2))
  (at level 100, c2 at level 200, right associativity).

Definition world_of {A} (o : outcome A) : world :=
  match o with Done _ w => w | Fault w => w end.

Definition value_of {A} (o : outcome A) : option A :=
  match o with Done a _ => Some a | Fault _ => None end.

Definition emit (e : event) : M unit :=
  λ w, Done tt {| mem := mem w; kafka_sorcery := kafka_sorcery w;
                  history := history w ++ [e] |}.

Definition get_history : M (list event) := λ w, Done (history w) w.
Definition get_mem : M (gmap nat cell) := λ w, Done (mem w) w.
Definition get_sorcery : M (option ast_sorcery) := λ w, Done (kafka_sorcery w) w.

Definition set_mem (m : gmap nat cell) : M unit :=
  λ w, Done tt {| mem := m; kafka_sorcery := kafka_sorcery w; history := history w |}.

Definition set_sorcery (s : option ast_sorcery) : M unit :=
  λ w, Done tt {| mem := mem w; kafka_sorcery := s; history := history w |}.

(** [malloc]: an address that is not in use. *)
Definition alloc (c : cell) : M nat :=
  let* m := get_mem in
  let p := fresh (dom m) in
  set_mem (<[p := c]> m);; ret p.

Definition load (p : nat) : M cell :=
  let* m := get_mem in
  match m !! p with
  | Some c => ret c
  | None => fault
  end.

Definition store (p : nat) (c : cell) : M unit :=
  let* m := get_mem in set_mem (<[p := c]> m).

Definition free (p : nat) : M unit :=
  let* m := get_mem in set_mem (delete p m).

(** [while (NULL != (x = ao2_iterator_next(&i))) { body }] *)
Fixpoint for_each {A} (body : A → M unit) (l : list A) : M unit :=
  match l with
  | [] => ret tt
  | x :: l' => body x;; for_each body l'
  end.

Definition ast_log (level : loglevel) (fmt : string) (args : list logarg) : M unit :=
  emit (ast_log_ev level fmt args).

(** [ast_debug(3, ...)] *)
Definition ast_debug3 (fmt : string) (args : list logarg) : M unit :=
  emit (ast_log_ev LOG_DEBUG3 fmt args).

Section ResKafka.

Context (E : env).

(** ** astobj2 and librdkafka, as far as the module calls them *)

Definition rd_kafka_conf_new : M (option nat) :=
  let* h := get_history in
  if rd_kafka_conf_new_ok E h then
    let* p := alloc (RdKafkaConf []) in
    emit (rd_kafka_conf_new_ev (Some p));; ret (Some p)
  else
    emit (rd_kafka_conf_new_ev None);; ret None.

(** Returns the result code and what the call wrote to [errstr]. *)
Definition rd_kafka_conf_set (conf : nat) (name value : string)
  : M (rd_kafka_conf_res_t * string) :=
  let* c := load conf in
  match c with
  | RdKafkaConf kvs =>
      let* h := get_history in
      let '(r, errstr) := rd_kafka_conf_set_res E h name value in
      (if decide (r = RD_KAFKA_CONF_OK)
       then store conf (RdKafkaConf (kvs ++ [(name, value)]))
       else ret tt);;
      emit (rd_kafka_conf_set_ev conf name value r);;
      ret (r, errstr)
  | _ => fault
  end.

Definition rd_kafka_conf_destroy (conf : nat) : M unit :=
  let* c := load conf in
  match c with
  | RdKafkaConf _ => free conf;; emit (rd_kafka_conf_destroy_ev conf)
  | _ => fault
  end.

(** On success the client owns [conf]; on failure [conf] stays with the
    caller and [errstr] is written. *)
Definition rd_kafka_new (type : rd_kafka_type_t) (conf : nat)
  : M (option nat * string) :=
  let* c := load conf in
  match c with
  | RdKafkaConf kvs =>
      let* h := get_history in
      match rd_kafka_new_res E h type kvs with
      | None =>
          free conf;;
          let* rk := alloc (RdKafka type kvs) in
          emit (rd_kafka_new_ev type conf (Some rk));;
          ret (Some rk, EmptyString)
      | Some errstr =>
          emit (rd_kafka_new_ev type conf None);;
          ret (None, errstr)
      end
  | _ => fault
  end.

Definition rd_kafka_destroy (rk : nat) : M unit :=
  let* c := load rk in
  match c with
  | RdKafka _ _ => free rk;; emit (rd_kafka_destroy_ev rk)
  | _ => fault
  end.

Definition rd_kafka_topic_conf_new : M (option nat) :=
  let* h := get_history in
  if rd_kafka_topic_conf_new_ok E h then
    let* p := alloc (RdKafkaTopicConf None) in
    emit (rd_kafka_topic_conf_new_ev (Some p));; ret (Some p)
  else
    emit (rd_kafka_topic_conf_new_ev None);; ret None.

Definition rd_kafka_topic_conf_set_opaque (conf : nat) (opaque : option nat) : M unit :=
  let* c := load conf in
  match c with
  | RdKafkaTopicConf _ =>
      store conf (RdKafkaTopicConf opaque);;
      emit (rd_kafka_topic_conf_set_opaque_ev conf opaque)
  | _ => fault
  end.

Definition rd_kafka_topic_conf_destroy (conf : nat) : M unit :=
  let* c := load conf in
  match c with
  | RdKafkaTopicConf _ => free conf;; emit (rd_kafka_topic_conf_destroy_ev conf)
  | _ => fault
  end.

Definition rd_kafka_topic_new (rk : option nat) (name : string) (conf : nat)
  : M (option nat) :=
  match rk with
  | None => fault
  | Some rk =>
      let* k := load rk in
      let* c := load conf in
      match k, c with
      | RdKafka _ _, RdKafkaTopicConf opaque =>
          let* h := get_history in
          if rd_kafka_topic_new_ok E h name then
            free conf;;
            let* rkt := alloc (RdKafkaTopic rk name opaque) in
            emit (rd_kafka_topic_new_ev rk name conf (Some rkt));;
            ret (Some rkt)
          else
            emit (rd_kafka_topic_new_ev rk name conf None);;
            ret None
      | _, _ => fault
      end
  end.

Definition rd_kafka_topic_destroy (rkt : nat) : M unit :=
  let* c := load rkt in
  match c with
  | RdKafkaTopic _ _ _ => free rkt;; emit (rd_kafka_topic_destroy_ev rkt)
  | _ => fault
  end.

(** The module always passes key NULL, keylen 0 and msg_opaque NULL. *)
Definition rd_kafka_produce (rkt : option nat) (partition msgflags : Z)
    (payload : string) (len : Z) : M Z :=
  match rkt with
  | None => fault
  | Some rkt =>
      let* c := load rkt in
      match c with
      | RdKafkaTopic _ _ _ =>
          let* h := get_history in
          let r := rd_kafka_produce_res E h in
          emit (rd_kafka_produce_ev rkt partition msgflags payload len r);;
          ret r
      | _ => fault
      end
  end.

Definition rd_kafka_flush (rk : option nat) (timeout_ms : Z) : M Z :=
  match rk with
  | None => fault
  | Some rk =>
      let* c := load rk in
      match c with
      | RdKafka _ _ =>
          let* h := get_history in
          let r := rd_kafka_flush_res E h in
          emit (rd_kafka_flush_ev rk timeout_ms r);;
          ret r
      | _ => fault
      end
  end.

(** [rd_kafka_err2str(rd_kafka_last_error())] *)
Definition last_error_str : M string :=
  let* h := get_history in ret (rd_kafka_err2str E (rd_kafka_last_error E h)).

(** Field reads and writes on the two astobj2 structs. *)
Definition get_rd_kafka (producer : nat) : M (option nat) :=
  let* c := load producer in
  match c with
  | Ao2 _ (kafka_producer rk) => ret rk
  | _ => fault
  end.

Definition set_rd_kafka (producer : nat) (rk : option nat) : M unit :=
  let* c := load producer in
  match c with
  | Ao2 n (kafka_producer _) => store producer (Ao2 n (kafka_producer rk))
  | _ => fault
  end.

Definition get_rd_kafka_topic (topic : nat) : M (option nat) :=
  let* c := load topic in
  match c with
  | Ao2 _ (kafka_producer_topic rkt) => ret rkt
  | _ => fault
  end.

Definition set_rd_kafka_topic (topic : nat) (rkt : option nat) : M unit :=
  let* c := load topic in
  match c with
  | Ao2 n (kafka_producer_topic _) => store topic (Ao2 n (kafka_producer_topic rkt))
  | _ => fault
  end.

(** *** The two destructors (C lines 559-566 and 673-680) *)

Definition kafka_producer_destructor (obj : nat) : M unit :=
  let* rk := get_rd_kafka obj in
  match rk with
  | Some rk =>
      ast_debug3 "Destroy rd_kafka_t object %p on producer %p\n"
        [APtr (Some rk); APtr (Some obj)];;
      rd_kafka_destroy rk
  | None => ret tt
  end.

Definition kafka_producer_topic_destructor (obj : nat) : M unit :=
  let* rkt := get_rd_kafka_topic obj in
  match rkt with
  | Some rkt =>
      ast_debug3 "Destroy rd_kafka_topic_t object %p on producer topic %p\n"
        [APtr (Some rkt); APtr (Some obj)];;
      rd_kafka_topic_destroy rkt
  | None => ret tt
  end.

(** [ao2_alloc] with a destructor: zeroed payload, one reference. *)
Definition ao2_alloc (zeroed : ao2_payload) : M (option nat) :=
  let* h := get_history in
  if ao2_alloc_ok E h then
    let* p := alloc (Ao2 1 zeroed) in
    emit (ao2_alloc_ev (Some p));; ret (Some p)
  else
    emit (ao2_alloc_ev None);; ret None.

(** [ao2_ref(obj, delta)]: when the count reaches zero the destructor given
    to [ao2_alloc] runs and the object is freed. *)
Definition ao2_ref (obj : nat) (delta : Z) : M unit :=
  let* c := load obj in
  match c with
  | Ao2 n payload =>
      emit (ao2_ref_ev obj delta);;
      store obj (Ao2 (n + delta) payload);;
      if decide (n + delta ≤ 0) then
        match payload with
        | kafka_producer _ => kafka_producer_destructor obj
        | kafka_producer_topic _ => kafka_producer_topic_destructor obj
        end;;
        free obj;;
        emit (ao2_destroy_ev obj)
      else ret tt
  | _ => fault
  end.

(** [ao2_cleanup(obj)]: NULL-tolerant [ao2_ref(obj, -1)]. *)
Definition ao2_cleanup (obj : option nat) : M unit :=
  match obj with
  | Some obj => ao2_ref obj (-1)
  | None => ret tt
  end.

(** ** The sorcery, as far as the module calls it *)

Definition with_sorcery {A} (k : ast_sorcery → M A) : M A :=
  let* s := get_sorcery in
  match s with
  | Some s => k s
  | None => fault
  end.

Definition ast_sorcery_open : M (option ast_sorcery) :=
  let* h := get_history in
  let ok := ast_sorcery_open_ok E h in
  emit (ast_sorcery_open_ev ok);;
  ret (if ok
       then Some {| object_types := []; object_fields := [];
                    observed_types := []; loaded := no_objects |}
       else None).

Definition ast_sorcery_unref : M unit :=
  with_sorcery (λ _, emit ast_sorcery_unref_ev).

Definition ast_sorcery_apply_default (type module options : string) : M bool :=
  with_sorcery (λ _,
    let* h := get_history in
    let ok := ast_sorcery_apply_default_ok E h type in
    emit (ast_sorcery_apply_default_ev type module options ok);;
    ret ok).

(** Returns [true] when the registration failed (non-zero in C). *)
Definition ast_sorcery_object_register (type : string) : M bool :=
  with_sorcery (λ s,
    let* h := get_history in
    let ok := ast_sorcery_object_register_ok E h type in
    emit (ast_sorcery_object_register_ev type ok);;
    (if ok
     then set_sorcery (Some {| object_types := object_types s ++ [type];
                               object_fields := object_fields s;
                               observed_types := observed_types s;
                               loaded := loaded s |})
     else ret tt);;
    ret (negb ok)).

Definition ast_sorcery_object_field_register (type name default : string)
    (opt : opt_type) : M unit :=
  with_sorcery (λ s,
    let f := {| fr_type := type; fr_name := name;
                fr_default := default; fr_opt := opt |} in
    emit (ast_sorcery_object_field_register_ev f);;
    set_sorcery (Some {| object_types := object_types s;
                         object_fields := object_fields s ++ [f];
                         observed_types := observed_types s;
                         loaded := loaded s |})).

(** Returns [true] when adding the observer failed (non-zero in C). *)
Definition ast_sorcery_observer_add (type : string) : M bool :=
  with_sorcery (λ s,
    let* h := get_history in
    let ok := ast_sorcery_observer_add_ok E h type in
    emit (ast_sorcery_observer_add_ev type ok);;
    (if ok
     then set_sorcery (Some {| object_types := object_types s;
                               object_fields := object_fields s;
                               observed_types := observed_types s ++ [type];
                               loaded := loaded s |})
     else ret tt);;
    ret (negb ok)).

Definition ast_sorcery_observer_remove (type : string) : M unit :=
  with_sorcery (λ s,
    emit (ast_sorcery_observer_remove_ev type);;
    set_sorcery (Some {| object_types := object_types s;
                         object_fields := object_fields s;
                         observed_types := filter (λ t, t ≠ type) (observed_types s);
                         loaded := loaded s |})).

(** The value an object has for a field, by the option name the field was
    registered under ([STRFLDSET] in [load_module]). *)
Definition cluster_field (name : string) (c : sorcery_kafka_cluster) : option string :=
  if decide (name = "brokers") then Some (brokers c)
  else if decide (name = "security_protocol") then Some (security_protocol c)
  else if decide (name = "sasl_mechanism") then Some (sasl_mechanism c)
  else if decide (name = "sasl_username") then Some (sasl_username c)
  else if decide (name = "sasl_password") then Some (sasl_password c)
  else if decide (name = "client_id") then Some (client_id c)
  else None.

Definition producer_field (name : string) (p : sorcery_kafka_producer) : option string :=
  if decide (name = "cluster") then Some (producer_cluster_id p) else None.

Definition consumer_field (name : string) (c : sorcery_kafka_consumer) : option string :=
  if decide (name = "cluster") then Some (consumer_cluster_id c) else None.

Definition topic_field (name : string) (t : sorcery_kafka_topic) : option string :=
  if decide (name = "topic") then Some (topic_name t)
  else if decide (name = "producer") then Some (topic_producer_id t)
  else if decide (name = "consumer") then Some (topic_consumer_id t)
  else None.

Definition matches {A} (field : string → A → option string)
    (filter : option (string * string)) (x : A) : bool :=
  match filter with
  | None => true
  | Some (name, value) => bool_decide (field name x = Some value)
  end.

(** [ast_sorcery_retrieve_by_fields(kafka_sorcery, type, AST_RETRIEVE_FLAG_MULTIPLE, filter)]:
    NULL, or the container of the objects of [type] that match the filter
    (all of them for a NULL filter). *)
Definition ast_sorcery_retrieve_by_fields {A} (type : string)
    (objects : kafka_objects → list A) (field : string → A → option string)
    (filter : option (string * string)) : M (option (list A)) :=
  with_sorcery (λ s,
    let* h := get_history in
    let ok := ast_sorcery_retrieve_ok E h type in
    emit (ast_sorcery_retrieve_by_fields_ev type filter ok);;
    ret (if ok
         then Some (base.filter (λ x, matches field filter x = true) (objects (loaded s)))
         else None)).

(** ** The module's functions, in the order of the C file *)

(** *** Observer callbacks (C lines 365-385) *)

Definition on_producer_created (producer : sorcery_kafka_producer) : M unit :=
  ast_debug3 "on_producer_created %s (%p)\n"
    [AStr (producer_id producer); AObj KAFKA_PRODUCER (producer_id producer)].

Definition on_producer_updated (producer : sorcery_kafka_producer) : M unit :=
  ast_debug3 "on_producer_updated %s (%p)\n"
    [AStr (producer_id producer); AObj KAFKA_PRODUCER (producer_id producer)].

Definition on_producer_deleted (producer : sorcery_kafka_producer) : M unit :=
  ast_debug3 "on_producer_deleted %s (%p)\n"
    [AStr (producer_id producer); AObj KAFKA_PRODUCER (producer_id producer)].

Definition on_producer_loaded (type : string) : M unit :=
  ast_debug3 "on_producer_loaded %s\n" [AStr type].

(** *** Build common rdkafka cluster configuration (C lines 569-609) *)

Definition build_rdkafka_cluster_config (cluster : sorcery_kafka_cluster)
  : M (option nat) :=
  let* config := rd_kafka_conf_new in
  match config with
  | None =>
      ast_log LOG_ERROR "Kafka cluster %s: unable to create configuration object\n"
        [AStr (cluster_id cluster)];;
      ret None
  | Some config =>
      let* (r, errstr) := rd_kafka_conf_set config "metadata.broker.list" (brokers cluster) in
      if decide (RD_KAFKA_CONF_OK ≠ r) then
        ast_log LOG_ERROR "Kafka cluster %s: unable to set bootstrap brokers because %s\n"
          [AStr (cluster_id cluster); AStr errstr];;
        rd_kafka_conf_destroy config;;
        ret None
      else
      let* (r, errstr) := rd_kafka_conf_set config "security.protocol" (security_protocol cluster) in
      if decide (RD_KAFKA_CONF_OK ≠ r) then
        ast_log LOG_ERROR "Kafka cluster %s: unable to set security protocol because %s\n"
          [AStr (cluster_id cluster); AStr errstr];;
        rd_kafka_conf_destroy config;;
        ret None
      else
      let* (r, errstr) := rd_kafka_conf_set config "sasl.mechanism" (sasl_mechanism cluster) in
      if decide (RD_KAFKA_CONF_OK ≠ r) then
        ast_log LOG_ERROR "Kafka cluster %s: unable to set SASL mechanism because %s\n"
          [AStr (cluster_id cluster); AStr errstr];;
        rd_kafka_conf_destroy config;;
        ret None
      else
      let* (r, errstr) := rd_kafka_conf_set config "sasl.username" (sasl_username cluster) in
      if decide (RD_KAFKA_CONF_OK ≠ r) then
        ast_log LOG_ERROR "Kafka cluster %s: unable to set SASL username because %s\n"
          [AStr (cluster_id cluster); AStr errstr];;
        rd_kafka_conf_destroy config;;
        ret None
      else
      let* (r, errstr) := rd_kafka_conf_set config "sasl.password" (sasl_password cluster) in
      if decide (RD_KAFKA_CONF_OK ≠ r) then
        ast_log LOG_ERROR "Kafka cluster %s: unable to set SASL password because %s\n"
          [AStr (cluster_id cluster); AStr errstr];;
        rd_kafka_conf_destroy config;;
        ret None
      else
      ret (Some config)
  end.

(** *** new_kafka_producer (C lines 532-557) *)

Definition new_kafka_producer (sorcery_cluster : sorcery_kafka_cluster)
    (sorcery_producer : sorcery_kafka_producer) : M (option nat) :=
  let* config := build_rdkafka_cluster_config sorcery_cluster in
  match config with
  | None => ret None
  | Some config =>
      let* producer := ao2_alloc (kafka_producer None) in
      let* created :=
        match producer with
        | None =>
            ast_log LOG_ERROR
              "Kafka cluster '%s': Unable to create producer '%s' because Out of memory\n"
              [AStr (cluster_id sorcery_cluster); AStr (producer_id sorcery_producer)];;
            ret false
        | Some producer =>
            let* (rk, errstr) := rd_kafka_new RD_KAFKA_PRODUCER config in
            set_rd_kafka producer rk;;
            match rk with
            | None =>
                ast_log LOG_ERROR
                  "Kafka cluster '%s': unable to create producer '%s' because %s\n"
                  [AStr (cluster_id sorcery_cluster);
                   AStr (producer_id sorcery_producer); AStr errstr];;
                ret false
            | Some _ => ret true
            end
        end in
      if created then ret producer
      else
        rd_kafka_conf_destroy config;;
        ao2_cleanup producer;;
        ret None
  end.

(** *** new_kafka_producer_topic (C lines 639-671) *)

Definition new_kafka_producer_topic (producer : nat)
    (sorcery_topic : sorcery_kafka_topic) : M (option nat) :=
  let* topic := ao2_alloc (kafka_producer_topic None) in
  match topic with
  | None =>
      ast_log LOG_ERROR "Out of memory while create producer topic '%s'\n"
        [AStr (topic_id sorcery_topic)];;
      ret None
  | Some topic =>
      let* config := rd_kafka_topic_conf_new in
      set_rd_kafka_topic topic None;;
      match config with
      | None =>
          ast_log LOG_ERROR "Unable to create config for producer topic '%s'\n"
            [AStr (topic_id sorcery_topic)];;
          ao2_ref topic (-1);;
          ret None
      | Some config =>
          (* With topic's callbacks we want see the kafka_producer_topic structure reference *)
          rd_kafka_topic_conf_set_opaque config (Some topic);;
          ao2_ref topic 1;;
          let* rk := get_rd_kafka producer in
          let* rkt := rd_kafka_topic_new rk (topic_name sorcery_topic) config in
          set_rd_kafka_topic topic rkt;;
          match rkt with
          | None =>
              let* err := last_error_str in
              ast_log LOG_ERROR "Unable to create producer topic '%s' because %s\n"
                [AStr (topic_id sorcery_topic); AStr err];;
              rd_kafka_topic_conf_destroy config;;
              ao2_ref topic (-1);;
              (* This object not usable *)
              ao2_ref topic (-1);;
              ret None
          | Some _ => ret (Some topic)
          end
      end
  end.

(** *** Process Kafka producer related topic at the cluster (C lines 612-629)

    [topic->rd_kafka_topic] is read without a NULL test on [topic]. *)

Definition process_producer_topic (producer : nat)
    (sorcery_topic : sorcery_kafka_topic) : M unit :=
  ast_debug3 "Process Kafka topic %s for producer %p\n"
    [AStr (topic_id sorcery_topic); APtr (Some producer)];;
  let* topic := new_kafka_producer_topic producer sorcery_topic in
  match topic with
  | None => fault
  | Some topic =>
      let* rkt := get_rd_kafka_topic topic in
      let* r := rd_kafka_produce rkt RD_KAFKA_PARTITION_UA RD_KAFKA_MSG_F_COPY "test" 4 in
      (if decide (r ≠ 0) then
         let* err := last_error_str in
         ast_log LOG_ERROR "Unable to produce message producer topic '%s' because %s\n"
           [AStr (topic_id sorcery_topic); AStr err]
       else ret tt);;
      let* rk := get_rd_kafka producer in
      let* response := rd_kafka_flush rk 10000 in
      (if decide (RD_KAFKA_RESP_ERR_NO_ERROR = response) then
         ast_log LOG_ERROR "Kafka producer topic %s got error: %s\n"
           [AStr (topic_id sorcery_topic); AStr (rd_kafka_err2str E response)]
       else ret tt);;
      ao2_cleanup (Some topic)
  end.

(** *** Process Kafka consumer related topic at the cluster (C lines 632-634) *)

Definition process_consumer_topic (sorcery_cluster : sorcery_kafka_cluster)
    (sorcery_consumer : sorcery_kafka_consumer)
    (sorcery_topic : sorcery_kafka_topic) : M unit :=
  ast_debug3 "Process Kafka topic %s for consumer %s on cluster %s\n"
    [AStr (topic_id sorcery_topic); AStr (consumer_id sorcery_consumer);
     AStr (cluster_id sorcery_cluster)].

(** *** Process Kafka producer at the cluster (C lines 453-486) *)

Definition process_producer (sorcery_cluster : sorcery_kafka_cluster)
    (sorcery_producer : sorcery_kafka_producer) : M Z :=
  ast_debug3 "Process Kafka producer %s on cluster %s\n"
    [AStr (producer_id sorcery_producer); AStr (cluster_id sorcery_cluster)];;
  let* found := ast_sorcery_retrieve_by_fields KAFKA_TOPIC topics topic_field
                  (Some ("producer", producer_id sorcery_producer)) in
  match found with
  | None =>
      ast_log LOG_WARNING "Unable to retrieve topics from producer %s at cluster %s\n"
        [AStr (producer_id sorcery_producer); AStr (cluster_id sorcery_cluster)];;
      ret 0
  | Some found =>
      if decide (length found ≠ 0%nat) then
        (* Producers present *)
        let* producer := new_kafka_producer sorcery_cluster sorcery_producer in
        match producer with
        | None => ret (-1)
        | Some producer =>
            for_each (process_producer_topic producer) found;;
            ao2_ref producer (-1);;
            ret 0
        end
      else ret 0
  end.

(** *** Process Kafka consumer at the cluster (C lines 489-530) *)

Definition process_consumer (cluster : sorcery_kafka_cluster)
    (consumer : sorcery_kafka_consumer) : M Z :=
  let* config := build_rdkafka_cluster_config cluster in
  ast_debug3 "Process Kafka consumer %s on cluster %s\n"
    [AStr (consumer_id consumer); AStr (cluster_id cluster)];;
  match config with
  | None => ret (-1)
  | Some config =>
      rd_kafka_conf_destroy config;;
      let* found := ast_sorcery_retrieve_by_fields KAFKA_TOPIC topics topic_field
                      (Some ("consumer", consumer_id consumer)) in
      match found with
      | None =>
          ast_log LOG_WARNING "Unable to retrieve topics from consumer %s at cluster %s\n"
            [AStr (consumer_id consumer); AStr (cluster_id cluster)];;
          ret 0
      | Some found =>
          if decide (length found ≠ 0%nat) then
            (* Consumers present *)
            let* config := build_rdkafka_cluster_config cluster in
            match config with
            | None => ret (-1)
            | Some config =>
                rd_kafka_conf_destroy config;;
                for_each (process_consumer_topic cluster consumer) found;;
                ret 0
            end
          else ret 0
      end
  end.

(** *** Process Kafka cluster (C lines 411-450)

    The results of [process_producer] and [process_consumer] are dropped. *)

Definition process_cluster (cluster : sorcery_kafka_cluster) : M unit :=
  let filter := Some ("cluster", cluster_id cluster) in
  ast_debug3 "Kafka cluster at %s (%p)\n"
    [AStr (cluster_id cluster); AObj KAFKA_CLUSTER (cluster_id cluster)];;
  let* found := ast_sorcery_retrieve_by_fields KAFKA_PRODUCER producers producer_field filter in
  match found with
  | None =>
      ast_log LOG_WARNING "Unable to retrieve producers from cluster %s\n"
        [AStr (cluster_id cluster)]
  | Some found =>
      for_each (λ producer, process_producer cluster producer;; ret tt) found
  end;;
  let* found := ast_sorcery_retrieve_by_fields KAFKA_CONSUMER consumers consumer_field filter in
  match found with
  | None =>
      ast_log LOG_WARNING "Unable to retrieve consumers from cluster %s\n"
        [AStr (cluster_id cluster)]
  | Some found =>
      for_each (λ consumer, process_consumer cluster consumer;; ret tt) found
  end.

(** *** Process all defined in configuration file clusters (C lines 392-408) *)

Definition process_all_clusters : M unit :=
  let* clusters := ast_sorcery_retrieve_by_fields KAFKA_CLUSTER clusters cluster_field None in
  match clusters with
  | Some clusters => for_each process_cluster clusters
  | None => ret tt
  end.

(** *** Common register sorcery object actions (C lines 687-704)

    Returns [true] for the C result -1. *)

Definition sorcery_object_register (type : string) : M bool :=
  let options := KAFKA_CONFIG_FILENAME +:+ ",criteria=type=" +:+ type in
  let* applied := ast_sorcery_apply_default type "config" options in
  (if applied then ret tt
   else ast_log LOG_NOTICE "Failed to apply defaults for Kafka sorcery %s\n" [AStr type]);;
  let* failed := ast_sorcery_object_register type in
  if failed then
    ast_log LOG_ERROR "Failed to register '%s' with Kafka sorcery.\n" [AStr type];;
    ret true
  else
    ast_sorcery_object_field_register type "type" EmptyString OPT_NOOP_T;;
    ret false.

(** *** Sorcery callbacks of the four object types (C lines 707-857) *)

Definition ast_sorcery_generic_alloc : M bool :=
  let* h := get_history in
  let ok := ast_sorcery_generic_alloc_ok E h in
  emit (ast_sorcery_generic_alloc_ev ok);; ret ok.

(** Returns [true] when the initialisation failed (non-zero in C). *)
Definition ast_string_field_init : M bool :=
  let* h := get_history in
  let ok := ast_string_field_init_ok E h in
  emit (ast_string_field_init_ev ok);; ret (negb ok).

Definition sorcery_kafka_topic_apply_handler (obj : sorcery_kafka_topic) : M Z :=
  ast_debug3 "Apply Kafka topic %s (%p)\n"
    [AStr (topic_id obj); AObj KAFKA_TOPIC (topic_id obj)];;
  ret 0.

Definition sorcery_kafka_topic_destructor (id : string) : M unit :=
  ast_debug3 "Destroyed Kafka topic %s (%p)\n" [AStr id; AObj KAFKA_TOPIC id];;
  emit ast_string_field_free_memory_ev.

(** Returns whether the object was allocated (non-NULL in C).  When the
    string fields cannot be set up the fresh object, which has no id yet,
    is dropped again and its destructor runs. *)
Definition sorcery_kafka_topic_alloc (name : string) : M bool :=
  let* allocated := ast_sorcery_generic_alloc in
  if allocated then
    let* failed := ast_string_field_init in
    if failed then sorcery_kafka_topic_destructor EmptyString;; ret false
    else
      ast_debug3 "Allocated Kafka topic %s (%p)\n" [AStr name; AObj KAFKA_TOPIC name];;
      ret true
  else ret false.

Definition sorcery_kafka_producer_apply_handler (obj : sorcery_kafka_producer) : M Z :=
  ast_debug3 "Apply Kafka producer %s (%p)\n"
    [AStr (producer_id obj); AObj KAFKA_PRODUCER (producer_id obj)];;
  ret 0.

Definition sorcery_kafka_producer_destructor (id : string) : M unit :=
  ast_debug3 "Destroyed Kafka producer %s (%p)\n" [AStr id; AObj KAFKA_PRODUCER id];;
  emit ast_string_field_free_memory_ev.

(** Returns whether the object was allocated (non-NULL in C).  When the
    string fields cannot be set up the fresh object, which has no id yet,
    is dropped again and its destructor runs. *)
Definition sorcery_kafka_producer_alloc (name : string) : M bool :=
  let* allocated := ast_sorcery_generic_alloc in
  if allocated then
    let* failed := ast_string_field_init in
    if failed then sorcery_kafka_producer_destructor EmptyString;; ret false
    else
      ast_debug3 "Allocated Kafka producer %s (%p)\n" [AStr name; AObj KAFKA_PRODUCER name];;
      ret true
  else ret false.

Definition sorcery_kafka_consumer_apply_handler (obj : sorcery_kafka_consumer) : M Z :=
  ast_debug3 "Apply Kafka consumer %s (%p)\n"
    [AStr (consumer_id obj); AObj KAFKA_CONSUMER (consumer_id obj)];;
  ret 0.

Definition sorcery_kafka_consumer_destructor (id : string) : M unit :=
  ast_debug3 "Destroyed Kafka consumer %s (%p)\n" [AStr id; AObj KAFKA_CONSUMER id];;
  emit ast_string_field_free_memory_ev.

(** Returns whether the object was allocated (non-NULL in C).  When the
    string fields cannot be set up the fresh object, which has no id yet,
    is dropped again and its destructor runs. *)
Definition sorcery_kafka_consumer_alloc (name : string) : M bool :=
  let* allocated := ast_sorcery_generic_alloc in
  if allocated then
    let* failed := ast_string_field_init in
    if failed then sorcery_kafka_consumer_destructor EmptyString;; ret false
    else
      ast_debug3 "Allocated Kafka consumer %s (%p)\n" [AStr name; AObj KAFKA_CONSUMER name];;
      ret true
  else ret false.

Definition sorcery_kafka_cluster_apply_handler (obj : sorcery_kafka_cluster) : M Z :=
  ast_debug3 "Apply Kafka cluster %s (%p): brokers=%s client_id=%s\n"
    [AStr (cluster_id obj); AObj KAFKA_CLUSTER (cluster_id obj); AStr (brokers obj); AStr (client_id obj)];;
  ret 0.

Definition sorcery_kafka_cluster_destructor (id : string) : M unit :=
  ast_debug3 "Destroyed Kafka cluster %s (%p)\n" [AStr id; AObj KAFKA_CLUSTER id];;
  emit ast_string_field_free_memory_ev.

(** Returns whether the object was allocated (non-NULL in C).  When the
    string fields cannot be set up the fresh object, which has no id yet,
    is dropped again and its destructor runs. *)
Definition sorcery_kafka_cluster_alloc (name : string) : M bool :=
  let* allocated := ast_sorcery_generic_alloc in
  if allocated then
    let* failed := ast_string_field_init in
    if failed then sorcery_kafka_cluster_destructor EmptyString;; ret false
    else
      ast_debug3 "Allocated Kafka cluster %s (%p)\n" [AStr name; AObj KAFKA_CLUSTER name];;
      ret true
  else ret false.

(** *** ast_sorcery_load and ast_sorcery_reload

    The sorcery reads kafka.conf; for every object of a registered type it
    calls the type's alloc callback and, on the allocated object, its apply
    handler; the objects of the previous load are dropped, which runs their
    destructors; the [loaded] observer of an observed type is told. *)

Fixpoint load_objects {A} (alloc : string → M bool) (apply : A → M Z)
    (id : A → string) (objs : list A) : M (list A) :=
  match objs with
  | [] => ret []
  | o :: objs' =>
      let* allocated := alloc (id o) in
      let* kept := (if allocated then apply o;; ret [o] else ret []) in
      let* rest := load_objects alloc apply id objs' in
      ret (kept ++ rest)%list
  end.

Definition load_type {A} (type : string) (alloc : string → M bool)
    (apply : A → M Z) (destructor : string → M unit) (id : A → string)
    (file old : list A) : M (list A) :=
  with_sorcery (λ s,
    if decide (type ∈ object_types s) then
      let* new := load_objects alloc apply id file in
      for_each (λ o, destructor (id o)) old;;
      (if decide (type ∈ observed_types s) then on_producer_loaded type else ret tt);;
      ret new
    else ret old).

Definition sorcery_load_all : M unit :=
  with_sorcery (λ s,
    let* h := get_history in
    let file := kafka_conf E h in
    let old := loaded s in
    let* cs := load_type KAFKA_CLUSTER sorcery_kafka_cluster_alloc
                 sorcery_kafka_cluster_apply_handler sorcery_kafka_cluster_destructor
                 cluster_id (clusters file) (clusters old) in
    let* ts := load_type KAFKA_TOPIC sorcery_kafka_topic_alloc
                 sorcery_kafka_topic_apply_handler sorcery_kafka_topic_destructor
                 topic_id (topics file) (topics old) in
    let* ps := load_type KAFKA_PRODUCER sorcery_kafka_producer_alloc
                 sorcery_kafka_producer_apply_handler sorcery_kafka_producer_destructor
                 producer_id (producers file) (producers old) in
    let* ks := load_type KAFKA_CONSUMER sorcery_kafka_consumer_alloc
                 sorcery_kafka_consumer_apply_handler sorcery_kafka_consumer_destructor
                 consumer_id (consumers file) (consumers old) in
    set_sorcery (Some {| object_types := object_types s;
                         object_fields := object_fields s;
                         observed_types := observed_types s;
                         loaded := {| clusters := cs; producers := ps;
                                      consumers := ks; topics := ts |} |})).

Definition ast_sorcery_load : M unit :=
  with_sorcery (λ _, emit ast_sorcery_load_ev);; sorcery_load_all.

Definition ast_sorcery_reload : M unit :=
  with_sorcery (λ _, emit ast_sorcery_reload_ev);; sorcery_load_all.

(** *** load_module (C lines 859-931) *)

Definition decline : M ast_module_load_result :=
  ast_sorcery_unref;;
  set_sorcery None;;
  ret AST_MODULE_LOAD_DECLINE.

Definition load_module : M ast_module_load_result :=
  let* opened := ast_sorcery_open in
  set_sorcery opened;;
  match opened with
  | None =>
      ast_log LOG_ERROR "Failed to open Kafka sorcery.\n" [];;
      ret AST_MODULE_LOAD_DECLINE
  | Some _ =>
      let* failed := sorcery_object_register KAFKA_CLUSTER in
      if failed then decline else
      ast_sorcery_object_field_register KAFKA_CLUSTER "brokers" "localhost" OPT_STRINGFIELD_T;;
      ast_sorcery_object_field_register KAFKA_CLUSTER "security_protocol" "plaintext" OPT_STRINGFIELD_T;;
      ast_sorcery_object_field_register KAFKA_CLUSTER "sasl_mechanism" "PLAIN" OPT_STRINGFIELD_T;;
      ast_sorcery_object_field_register KAFKA_CLUSTER "sasl_username" EmptyString OPT_STRINGFIELD_T;;
      ast_sorcery_object_field_register KAFKA_CLUSTER "sasl_password" EmptyString OPT_STRINGFIELD_T;;
      ast_sorcery_object_field_register KAFKA_CLUSTER "client_id" "asterisk" OPT_STRINGFIELD_T;;
      ast_sorcery_object_field_register KAFKA_CLUSTER "port" "1883" OPT_UINT_T;;
      ast_sorcery_object_field_register KAFKA_CLUSTER "ssl" "no" OPT_BOOL_T;;
      let* failed := sorcery_object_register KAFKA_TOPIC in
      if failed then decline else
      ast_sorcery_object_field_register KAFKA_TOPIC "topic" EmptyString OPT_STRINGFIELD_T;;
      ast_sorcery_object_field_register KAFKA_TOPIC "producer" EmptyString OPT_STRINGFIELD_T;;
      ast_sorcery_object_field_register KAFKA_TOPIC "consumer" EmptyString OPT_STRINGFIELD_T;;
      let* failed := sorcery_object_register KAFKA_PRODUCER in
      if failed then decline else
      ast_sorcery_object_field_register KAFKA_PRODUCER "cluster" EmptyString OPT_STRINGFIELD_T;;
      let* failed := ast_sorcery_observer_add KAFKA_PRODUCER in
      if failed then
        ast_log LOG_ERROR "Failed to register observer for '%s' with Kafka sorcery.\n"
          [AStr KAFKA_PRODUCER];;
        decline
      else
      let* failed := sorcery_object_register KAFKA_CONSUMER in
      if failed then decline else
      ast_sorcery_object_field_register KAFKA_CONSUMER "cluster" EmptyString OPT_STRINGFIELD_T;;
      (* Load all registered objects *)
      ast_sorcery_load;;
      (* Process all defined clusters *)
      process_all_clusters;;
      emit ast_cli_register_multiple_ev;;
      ret AST_MODULE_LOAD_SUCCESS
  end.

(** *** unload_module and reload_module (C lines 933-949) *)

Definition unload_module : M Z :=
  ast_sorcery_observer_remove KAFKA_PRODUCER;;
  emit ast_cli_unregister_multiple_ev;;
  ast_sorcery_unref;;
  set_sorcery None;;
  ret 0.

Definition reload_module : M Z :=
  ast_sorcery_reload;;
  ret 0.

End ResKafka.

(** ** What the claims observe *)

(** The five settings [build_rdkafka_cluster_config] hands to
    [rd_kafka_conf_set], in its order, each with the format of the error it
    logs when the library refuses the setting. *)
Definition cluster_settings_table (c : sorcery_kafka_cluster)
  : list (string * string * string) :=
  [ ("metadata.broker.list", brokers c,
     "Kafka cluster %s: unable to set bootstrap brokers because %s\n");
    ("security.protocol", security_protocol c,
     "Kafka cluster %s: unable to set security protocol because %s\n");
    ("sasl.mechanism", sasl_mechanism c,
     "Kafka cluster %s: unable to set SASL mechanism because %s\n");
    ("sasl.username", sasl_username c,
     "Kafka cluster %s: unable to set SASL username because %s\n");
    ("sasl.password", sasl_password c,
     "Kafka cluster %s: unable to set SASL password because %s\n") ].

Definition cluster_settings (c : sorcery_kafka_cluster) : list (string * string) :=
  map fst (cluster_settings_table c).

(** An accepted [rd_kafka_conf_set] on [conf]. *)
Definition accepted (conf : nat) (kv : string * string) : event :=
  rd_kafka_conf_set_ev conf kv.1 kv.2 RD_KAFKA_CONF_OK.

(** The settings a run handed to [rd_kafka_conf_set], accepted or not. *)
Definition settings_passed (evs : list event) : list (string * string) :=
  omap (λ e, match e with
             | rd_kafka_conf_set_ev _ name value _ => Some (name, value)
             | _ => None
             end) evs.

Definition is_attempt (e : event) : bool :=
  match e with rd_kafka_new_ev _ _ _ => true | _ => false end.

Definition is_creation (e : event) : bool :=
  match e with rd_kafka_new_ev _ _ (Some _) => true | _ => false end.

Definition is_destruction (e : event) : bool :=
  match e with rd_kafka_destroy_ev _ => true | _ => false end.

Definition is_topic_creation (e : event) : bool :=
  match e with rd_kafka_topic_new_ev _ _ _ (Some _) => true | _ => false end.

Definition is_topic_destruction (e : event) : bool :=
  match e with rd_kafka_topic_destroy_ev _ => true | _ => false end.

Definition count (f : event → bool) (evs : list event) : nat :=
  length (List.filter f evs).

(** Connections the library was asked for, created and destroyed in a run. *)
Definition attempts : list event → nat := count is_attempt.
Definition creations : list event → nat := count is_creation.
Definition destructions : list event → nat := count is_destruction.
Definition topic_creations : list event → nat := count is_topic_creation.
Definition topic_destructions : list event → nat := count is_topic_destruction.

(** The references taken and dropped on one astobj2 object in a run. *)
Definition retains (obj : nat) : list event → nat :=
  count (λ e, bool_decide (e = ao2_ref_ev obj 1)).
Definition releases (obj : nat) : list event → nat :=
  count (λ e, bool_decide (e = ao2_ref_ev obj (-1))).

(** The events of a run from [w] to [w']. *)
Definition since (w w' : world) : list event :=
  drop (length (history w)) (history w').

Definition is_client (c : cell) : bool :=
  match c with RdKafka _ _ => true | _ => false end.

Definition is_topic_handle (c : cell) : bool :=
  match c with RdKafkaTopic _ _ _ => true | _ => false end.

(** The live [rd_kafka_t] and [rd_kafka_topic_t] handles of a world. *)
Definition clients (m : gmap nat cell) : gset nat :=
  dom (filter (λ kv, is_client kv.2 = true) m).

Definition live_clients (w : world) : gset nat := clients (mem w).

Definition live_topic_handles (w : world) : gset nat :=
  dom (filter (λ kv, is_topic_handle kv.2 = true) (mem w)).

(** The live producer connections built from a cluster's settings, and the
    live topic handles for a Kafka topic name. *)
Definition producer_connections (c : sorcery_kafka_cluster) (w : world) : gset nat :=
  dom (filter (λ kv, kv.2 = RdKafka RD_KAFKA_PRODUCER (cluster_settings c)) (mem w)).



Definition refcount_of (w : world) (obj : nat) : option Z :=
  match mem w !! obj with
  | Some (Ao2 n _) => Some n
  | _ => None
  end.

(** The debug line each of the three processing functions starts with. *)
Definition visit_cluster (c : sorcery_kafka_cluster) : event :=
  ast_log_ev LOG_DEBUG3 "Kafka cluster at %s (%p)\n"
    [AStr (cluster_id c); AObj KAFKA_CLUSTER (cluster_id c)].

Definition visit_producer (c : sorcery_kafka_cluster) (p : sorcery_kafka_producer) : event :=
  ast_log_ev LOG_DEBUG3 "Process Kafka producer %s on cluster %s\n"
    [AStr (producer_id p); AStr (cluster_id c)].

Definition visit_consumer (c : sorcery_kafka_cluster) (k : sorcery_kafka_consumer) : event :=
  ast_log_ev LOG_DEBUG3 "Process Kafka consumer %s on cluster %s\n"
    [AStr (consumer_id k); AStr (cluster_id c)].

(** The warnings [process_cluster] logs when a retrieval gives NULL. *)
Definition no_producers (c : sorcery_kafka_cluster) : event :=
  ast_log_ev LOG_WARNING "Unable to retrieve producers from cluster %s\n"
    [AStr (cluster_id c)].

Definition no_consumers (c : sorcery_kafka_cluster) : event :=
  ast_log_ev LOG_WARNING "Unable to retrieve consumers from cluster %s\n"
    [AStr (cluster_id c)].

Definition is_log (e : event) : bool :=
  match e with ast_log_ev _ _ _ => true | _ => false end.

(** The debug line [process_producer_topic] starts with. *)
Definition visit_topic (producer : nat) (t : sorcery_kafka_topic) : event :=
  ast_log_ev LOG_DEBUG3 "Process Kafka topic %s for producer %p\n"
    [AStr (topic_id t); APtr (Some producer)].

(** The three failures after which [load_module] declines. *)
Definition is_fatal (e : event) : bool :=
  match e with
  | ast_sorcery_open_ev false
  | ast_sorcery_object_register_ev _ false
  | ast_sorcery_observer_add_ev _ false => true
  | _ => false
  end.

Definition fatal_failures : list event → nat := count is_fatal.

(** A cluster was processed in a run: it was visited, and unless the
    retrieval of its producers gave NULL, each of its producers was visited,
    and likewise each of its consumers. *)
Definition cluster_processed (srv : ast_sorcery) (c : sorcery_kafka_cluster)
    (evs : list event) : Prop :=
  visit_cluster c ∈ evs
  ∧ (no_producers c ∈ evs
     ∨ ∀ p, p ∈ producers (loaded srv) → producer_cluster_id p = cluster_id c →
            visit_producer c p ∈ evs)
  ∧ (no_consumers c ∈ evs
     ∨ ∀ k, k ∈ consumers (loaded srv) → consumer_cluster_id k = cluster_id c →
            visit_consumer c k ∈ evs).

(** What a sorcery load or reload may do: log, and call the sorcery's
    allocation helpers. *)
Definition is_reload_event (e : event) : bool :=
  match e with
  | ast_log_ev _ _ _
  | ast_sorcery_load_ev
  | ast_sorcery_reload_ev
  | ast_sorcery_generic_alloc_ev _
  | ast_string_field_init_ev _
  | ast_string_field_free_memory_ev => true
  | _ => false
  end.

(** ** The enumerations of the documentation block (C lines 68-90) *)

Definition security_protocols : list string :=
  ["plaintext"; "ssl"; "sasl_plaintext"; "sasl_ssl"].

Definition sasl_mechanisms : list string :=
  ["PLAIN"; "GSSAPI"; "SCRAM-SHA-256"; "SCRAM-SHA-512"; "OAUTHBEARER"].

(** A cluster record the documentation does not allow. *)
Definition invalid_cluster (c : sorcery_kafka_cluster) : Prop :=
  brokers c = EmptyString
  ∨ security_protocol c ∉ security_protocols
  ∨ sasl_mechanism c ∉ sasl_mechanisms.

(** ** Environments and configurations used as examples *)

(** A cluster with the defaults [load_module] registers. *)
Definition default_cluster (id : string) : sorcery_kafka_cluster :=
  {| cluster_id := id; brokers := "localhost"; security_protocol := "plaintext";
     sasl_mechanism := "PLAIN"; sasl_username := EmptyString; sasl_password := EmptyString;
     client_id := "asterisk"; port := 1883; ssl := 0; cluster := None |}.

Definition with_brokers (b : string) (c : sorcery_kafka_cluster) : sorcery_kafka_cluster :=
  {| cluster_id := cluster_id c; brokers := b;
     security_protocol := security_protocol c; sasl_mechanism := sasl_mechanism c;
     sasl_username := sasl_username c; sasl_password := sasl_password c;
     client_id := client_id c; port := port c; ssl := ssl c; cluster := cluster c |}.

Definition with_security_protocol (sp : string) (c : sorcery_kafka_cluster)
  : sorcery_kafka_cluster :=
  {| cluster_id := cluster_id c; brokers := brokers c;
     security_protocol := sp; sasl_mechanism := sasl_mechanism c;
     sasl_username := sasl_username c; sasl_password := sasl_password c;
     client_id := client_id c; port := port c; ssl := ssl c; cluster := cluster c |}.

(** The end-to-end scenario: cluster C1, producer P1 on C1, topic T1 on P1. *)
Definition cluster_C1 : sorcery_kafka_cluster :=
  with_brokers "broker1:9092" (default_cluster "C1").
Definition producer_P1 : sorcery_kafka_producer :=
  {| producer_id := "P1"; producer_cluster_id := "C1" |}.
Definition topic_T1 : sorcery_kafka_topic :=
  {| topic_id := "T1"; topic_name := "orders";
     topic_producer_id := "P1"; topic_consumer_id := EmptyString |}.
Definition scenario : kafka_objects :=
  {| clusters := [cluster_C1]; producers := [producer_P1];
     consumers := []; topics := [topic_T1] |}.

(** A second configuration: a cluster with a security protocol outside the
    enumeration next to C1, each with a producer and a topic, and a consumer
    on each. *)
Definition cluster_bad : sorcery_kafka_cluster :=
  with_security_protocol "bogus" (default_cluster "bad").
Definition two_clusters : kafka_objects :=
  {| clusters := [cluster_bad; cluster_C1];
     producers := [{| producer_id := "Pbad"; producer_cluster_id := "bad" |}; producer_P1];
     consumers := [{| consumer_id := "Kbad"; consumer_cluster_id := "bad" |};
                   {| consumer_id := "K1"; consumer_cluster_id := "C1" |}];
     topics := [{| topic_id := "Tbad"; topic_name := "lost";
                   topic_producer_id := "Pbad"; topic_consumer_id := "Kbad" |};
                topic_T1] |}.

(** Every collaborator succeeds; kafka.conf holds [file]; the library takes
    every setting. *)
Definition all_succeed (file : kafka_objects) : env :=
  {| ao2_alloc_ok := λ _, true;
     rd_kafka_conf_new_ok := λ _, true;
     rd_kafka_conf_set_res := λ _ _ _, (RD_KAFKA_CONF_OK, EmptyString);
     rd_kafka_new_res := λ _ _ _, None;
     rd_kafka_topic_conf_new_ok := λ _, true;
     rd_kafka_topic_new_ok := λ _ _, true;
     rd_kafka_produce_res := λ _, 0;
     rd_kafka_flush_res := λ _, RD_KAFKA_RESP_ERR_NO_ERROR;
     rd_kafka_err2str := λ _, "Success";
     rd_kafka_last_error := λ _, 0;
     ast_sorcery_open_ok := λ _, true;
     ast_sorcery_apply_default_ok := λ _ _, true;
     ast_sorcery_object_register_ok := λ _ _, true;
     ast_sorcery_observer_add_ok := λ _ _, true;
     ast_sorcery_retrieve_ok := λ _ _, true;
     ast_sorcery_generic_alloc_ok := λ _, true;
     ast_string_field_init_ok := λ _, true;
     kafka_conf := λ _, file |}.

(** As [all_succeed], with a library that refuses an empty broker list and
    tokens outside the two enumerations. *)
Definition strict_conf_set (name value : string) : rd_kafka_conf_res_t * string :=
  if decide (name = "metadata.broker.list" ∧ value = EmptyString) then
    (RD_KAFKA_CONF_INVALID, "Configuration property metadata.broker.list is empty")
  else if decide (name = "security.protocol" ∧ value ∉ security_protocols) then
    (RD_KAFKA_CONF_INVALID, "Invalid value for configuration property security.protocol")
  else if decide (name = "sasl.mechanism" ∧ value ∉ sasl_mechanisms) then
    (RD_KAFKA_CONF_INVALID, "Invalid value for configuration property sasl.mechanism")
  else (RD_KAFKA_CONF_OK, EmptyString).

Definition strict (file : kafka_objects) : env :=
  {| ao2_alloc_ok := λ _, true;
     rd_kafka_conf_new_ok := λ _, true;
     rd_kafka_conf_set_res := λ _, strict_conf_set;
     rd_kafka_new_res := λ _ _ _, None;
     rd_kafka_topic_conf_new_ok := λ _, true;
     rd_kafka_topic_new_ok := λ _ _, true;
     rd_kafka_produce_res := λ _, 0;
     rd_kafka_flush_res := λ _, RD_KAFKA_RESP_ERR_NO_ERROR;
     rd_kafka_err2str := λ _, "Success";
     rd_kafka_last_error := λ _, 0;
     ast_sorcery_open_ok := λ _, true;
     ast_sorcery_apply_default_ok := λ _ _, true;
     ast_sorcery_object_register_ok := λ _ _, true;
     ast_sorcery_observer_add_ok := λ _ _, true;
     ast_sorcery_retrieve_ok := λ _ _, true;
     ast_sorcery_generic_alloc_ok := λ _, true;
     ast_string_field_init_ok := λ _, true;
     kafka_conf := λ _, file |}.

(** As [all_succeed], but [rd_kafka_topic_new] fails. *)
Definition no_topics (file : kafka_objects) : env :=
  {| ao2_alloc_ok := λ _, true;
     rd_kafka_conf_new_ok := λ _, true;
     rd_kafka_conf_set_res := λ _ _ _, (RD_KAFKA_CONF_OK, EmptyString);
     rd_kafka_new_res := λ _ _ _, None;
     rd_kafka_topic_conf_new_ok := λ _, true;
     rd_kafka_topic_new_ok := λ _ _, false;
     rd_kafka_produce_res := λ _, 0;
     rd_kafka_flush_res := λ _, RD_KAFKA_RESP_ERR_NO_ERROR;
     rd_kafka_err2str := λ _, "Local: Invalid argument or configuration";
     rd_kafka_last_error := λ _, -186;
     ast_sorcery_open_ok := λ _, true;
     ast_sorcery_apply_default_ok := λ _ _, true;
     ast_sorcery_object_register_ok := λ _ _, true;
     ast_sorcery_observer_add_ok := λ _ _, true;
     ast_sorcery_retrieve_ok := λ _ _, true;
     ast_sorcery_generic_alloc_ok := λ _, true;
     ast_string_field_init_ok := λ _, true;
     kafka_conf := λ _, file |}.

(** As [all_succeed], but the observer cannot be added. *)
Definition no_observer (file : kafka_objects) : env :=
  {| ao2_alloc_ok := λ _, true;
     rd_kafka_conf_new_ok := λ _, true;
     rd_kafka_conf_set_res := λ _ _ _, (RD_KAFKA_CONF_OK, EmptyString);
     rd_kafka_new_res := λ _ _ _, None;
     rd_kafka_topic_conf_new_ok := λ _, true;
     rd_kafka_topic_new_ok := λ _ _, true;
     rd_kafka_produce_res := λ _, 0;
     rd_kafka_flush_res := λ _, RD_KAFKA_RESP_ERR_NO_ERROR;
     rd_kafka_err2str := λ _, "Success";
     rd_kafka_last_error := λ _, 0;
     ast_sorcery_open_ok := λ _, true;
     ast_sorcery_apply_default_ok := λ _ _, true;
     ast_sorcery_object_register_ok := λ _ _, true;
     ast_sorcery_observer_add_ok := λ _ _, false;
     ast_sorcery_retrieve_ok := λ _ _, true;
     ast_sorcery_generic_alloc_ok := λ _, true;
     ast_string_field_init_ok := λ _, true;
     kafka_conf := λ _, file |}.

(** The world after [load_module] in an environment, from nothing. *)
Definition loaded_world (E : env) : world := world_of (load_module E initial_world).

(** The sorcery of a world, for worlds that have one. *)
Definition sorcery_of (w : world) : ast_sorcery :=
  default {| object_types := []; object_fields := [];
             observed_types := []; loaded := no_objects |} (kafka_sorcery w).

(** ** The claims that fail, as the specification states them *)

(** C4: in the events of a bind, a reference on the connection is taken
    and later dropped again. *)
Definition acquired_then_released (conn : nat) (evs : list event) : Prop :=
  ∃ i j, (i < j)%nat
         ∧ evs !! i = Some (ao2_ref_ev conn 1)
         ∧ evs !! j = Some (ao2_ref_ev conn (-1)).

(** C3, at one cluster record: an invalid record makes the build fail
    before any setting reaches [rd_kafka_conf_set], and no connection is
    asked for. *)
Definition validated_before_use (E : env) (c : sorcery_kafka_cluster)
    (p : sorcery_kafka_producer) (w : world) : Prop :=
  invalid_cluster c →
  value_of (build_rdkafka_cluster_config E c w) = Some None
  ∧ settings_passed (since w (world_of (build_rdkafka_cluster_config E c w))) = []
  ∧ attempts (since w (world_of (new_kafka_producer E c p w))) = 0%nat.

(** ** Vocabulary of the proofs *)

(** Creating the topic handle failed somewhere: one of the three calls that
    can fail in [new_kafka_producer_topic] did. *)
Definition bind_failure (E : env) : Prop :=
  ∃ h, ao2_alloc_ok E h = false
       ∨ rd_kafka_topic_conf_new_ok E h = false
       ∨ ∃ name, rd_kafka_topic_new_ok E h name = false.

(** Connections are created and destroyed in equal numbers, and nothing
    fatal to [load_module] happened. *)
Definition balanced (evs : list event) : Prop :=
  creations evs = destructions evs ∧ fatal_failures evs = 0%nat.

(** A computation that only logs and calls the sorcery's allocation helpers:
    it always returns, and leaves the memory and [kafka_sorcery] alone. *)
Definition reload_only {A} (m : M A) : Prop :=
  ∀ w, match m w with
       | Done _ w' =>
           mem w' = mem w ∧ kafka_sorcery w' = kafka_sorcery w
           ∧ ∃ evs, history w' = history w ++ evs
               ∧ Forall (λ e, is_reload_event e = true) evs
       | Fault _ => False
       end.

(** ** Acquire and release, for the reference counting claim

    The module has no connection pool.  What it has of "acquire" is
    [new_kafka_producer], and of "release" the [ao2_ref(producer, -1)] that
    ends [process_producer]. *)

(** [n] acquires in a row for the same cluster and producer. *)
Fixpoint acquire (E : env) (c : sorcery_kafka_cluster) (p : sorcery_kafka_producer)
    (n : nat) : M (list (option nat)) :=
  match n with
  | O => ret []
  | S n' =>
      let* o := new_kafka_producer E c p in
      let* rest := acquire E c p n' in
      ret (o :: rest)
  end.

(** One release for each of [objs], in order. *)
Definition release (objs : list nat) : M unit :=
  for_each (λ o, ao2_ref o (-1)) objs.

(** The record [o] holds the only reference to a live producer client
    [rk] with the given settings. *)
Definition owns (settings : list (string * string)) (w : world) (o rk : nat) : Prop :=
  mem w !! o = Some (Ao2 1 (kafka_producer (Some rk)))
  ∧ mem w !! rk = Some (RdKafka RD_KAFKA_PRODUCER settings).

(** ** What the further properties observe *)

(** Cluster configurations created and destroyed in a run, and the calls
    in which the library refused one: [rd_kafka_conf_new] giving NULL, or
    [rd_kafka_conf_set] giving anything but RD_KAFKA_CONF_OK. *)
Definition is_conf_creation (e : event) : bool :=
  match e with rd_kafka_conf_new_ev (Some _) => true | _ => false end.

Definition is_conf_destruction (e : event) : bool :=
  match e with rd_kafka_conf_destroy_ev _ => true | _ => false end.

Definition is_refusal (e : event) : bool :=
  match e with
  | rd_kafka_conf_new_ev None => true
  | rd_kafka_conf_set_ev _ _ _ RD_KAFKA_CONF_OK => false
  | rd_kafka_conf_set_ev _ _ _ _ => true
  | _ => false
  end.

Definition is_produce (e : event) : bool :=
  match e with rd_kafka_produce_ev _ _ _ _ _ _ => true | _ => false end.

Definition is_flush (e : event) : bool :=
  match e with rd_kafka_flush_ev _ _ _ => true | _ => false end.

Definition conf_creations : list event → nat := count is_conf_creation.
Definition conf_destructions : list event → nat := count is_conf_destruction.
Definition refusals : list event → nat := count is_refusal.
Definition produces : list event → nat := count is_produce.
Definition flushes : list event → nat := count is_flush.

(** The live topic handles of a memory. *)
Definition handles (m : gmap nat cell) : gset nat :=
  dom (filter (λ kv, is_topic_handle kv.2 = true) m).

(** From [w] to [w'] no topic handle was destroyed, and every topic handle
    that was created is still live; one message was produced and one flush
    made for every topic handle created; and every cluster configuration
    that was created was destroyed again or went into a connection. *)
Definition accumulates (w w' : world) : Prop :=
  ∃ evs, history w' = history w ++ evs
    ∧ topic_destructions evs = 0%nat
    ∧ handles (mem w) ⊆ handles (mem w')
    ∧ size (handles (mem w')) = (size (handles (mem w)) + topic_creations evs)%nat
    ∧ produces evs = topic_creations evs
    ∧ flushes evs = topic_creations evs
    ∧ conf_creations evs = (conf_destructions evs + creations evs)%nat.

(** A run of [m] from a world in [P] either ends in [Q], with [R] between
    the two worlds, or uses a bad pointer, and then [F] holds. *)
Definition triple {A} (F : Prop) (R : world → world → Prop)
    (P : world → Prop) (m : M A) (Q : A → world → Prop) : Prop :=
  ∀ w, P w → match m w with
             | Done a w' => Q a w' ∧ R w w'
             | Fault _ => F
             end.

(** The sorcery is open; a producer record holds the only reference to a
    live client. *)
Definition sorcery_open (srv : ast_sorcery) (w : world) : Prop :=
  kafka_sorcery w = Some srv.

Definition producer_live (obj rk : nat) (w : world) : Prop :=
  ∃ kvs, mem w !! obj = Some (Ao2 1 (kafka_producer (Some rk)))
         ∧ mem w !! rk = Some (RdKafka RD_KAFKA_PRODUCER kvs).

(** The calls of [load_module] before it loads the objects: logging and
    the setting up of the sorcery. *)
Definition is_setup (e : event) : bool :=
  match e with
  | ast_log_ev _ _ _
  | ast_sorcery_open_ev _
  | ast_sorcery_apply_default_ev _ _ _ _
  | ast_sorcery_object_register_ev _ _
  | ast_sorcery_object_field_register_ev _
  | ast_sorcery_observer_add_ev _ _
  | ast_sorcery_unref_ev => true
  | _ => false
  end.

Definition is_open (e : event) : bool :=
  match e with ast_sorcery_open_ev true => true | _ => false end.

Definition is_unref (e : event) : bool :=
  match e with ast_sorcery_unref_ev => true | _ => false end.

(** The object types, fields and observed types the sorcery knows. *)
Definition has_schema (tys : list string) (fs : list field_reg) (obs : list string)
    (w : world) : Prop :=
  ∃ objs, kafka_sorcery w =
            Some {| object_types := tys; object_fields := fs;
                    observed_types := obs; loaded := objs |}.

(** What [load_module] registers when it succeeds (C lines 866-915). *)
Definition kafka_types : list string :=
  [KAFKA_CLUSTER; KAFKA_TOPIC; KAFKA_PRODUCER; KAFKA_CONSUMER].

Definition mk_field (type name default : string) (opt : opt_type) : field_reg :=
  {| fr_type := type; fr_name := name; fr_default := default; fr_opt := opt |}.

Definition kafka_fields : list field_reg :=
  [ mk_field KAFKA_CLUSTER "type" EmptyString OPT_NOOP_T;
    mk_field KAFKA_CLUSTER "brokers" "localhost" OPT_STRINGFIELD_T;
    mk_field KAFKA_CLUSTER "security_protocol" "plaintext" OPT_STRINGFIELD_T;
    mk_field KAFKA_CLUSTER "sasl_mechanism" "PLAIN" OPT_STRINGFIELD_T;
    mk_field KAFKA_CLUSTER "sasl_username" EmptyString OPT_STRINGFIELD_T;
    mk_field KAFKA_CLUSTER "sasl_password" EmptyString OPT_STRINGFIELD_T;
    mk_field KAFKA_CLUSTER "client_id" "asterisk" OPT_STRINGFIELD_T;
    mk_field KAFKA_CLUSTER "port" "1883" OPT_UINT_T;
    mk_field KAFKA_CLUSTER "ssl" "no" OPT_BOOL_T;
    mk_field KAFKA_TOPIC "type" EmptyString OPT_NOOP_T;
    mk_field KAFKA_TOPIC "topic" EmptyString OPT_STRINGFIELD_T;
    mk_field KAFKA_TOPIC "producer" EmptyString OPT_STRINGFIELD_T;
    mk_field KAFKA_TOPIC "consumer" EmptyString OPT_STRINGFIELD_T;
    mk_field KAFKA_PRODUCER "type" EmptyString OPT_NOOP_T;
    mk_field KAFKA_PRODUCER "cluster" EmptyString OPT_STRINGFIELD_T;
    mk_field KAFKA_CONSUMER "type" EmptyString OPT_NOOP_T;
    mk_field KAFKA_CONSUMER "cluster" EmptyString OPT_STRINGFIELD_T ].

(** Since [w0] the sorcery was opened and set up, and nothing else was
    done. *)
Definition setting_up (w0 w : world) : Prop :=
  mem w = mem w0
  ∧ ∃ evs, history w = history w0 ++ evs
      ∧ Forall (λ e, is_setup e = true) evs
      ∧ count is_open evs = 1%nat
      ∧ count is_unref evs = 0%nat.

(** Since [w0] the sorcery was at most opened, set up and released again. *)
Definition declined_cleanly (w0 w : world) : Prop :=
  mem w = mem w0
  ∧ kafka_sorcery w = None
  ∧ Forall (λ e, is_setup e = true) (since w0 w)
  ∧ count is_open (since w0 w) = count is_unref (since w0 w).

(** The stages of [load_module] since [w0]: the sorcery is being set up
    and knows this much; a registration failed, and the load is about to
    decline; and the two ways in which the load ends. *)
Definition registering (w0 : world) (tys : list string) (fs : list field_reg)
    (obs : list string) (w : world) : Prop :=
  has_schema tys fs obs w ∧ setting_up w0 w.

Definition failing_setup (w0 w : world) : Prop :=
  is_Some (kafka_sorcery w) ∧ setting_up w0 w.

Definition load_result (w0 : world) (r : ast_module_load_result) (w : world) : Prop :=
  r = AST_MODULE_LOAD_DECLINE ∧ declined_cleanly w0 w
  ∨ r = AST_MODULE_LOAD_SUCCESS
    ∧ has_schema kafka_types kafka_fields [KAFKA_PRODUCER] w.

(** The four alloc callbacks [load_module] hands to the sorcery, by object
    type. *)
Definition alloc_callbacks (E : env) : list (string * (string → M bool)) :=
  [ (KAFKA_CLUSTER, sorcery_kafka_cluster_alloc E);
    (KAFKA_TOPIC, sorcery_kafka_topic_alloc E);
    (KAFKA_PRODUCER, sorcery_kafka_producer_alloc E);
    (KAFKA_CONSUMER, sorcery_kafka_consumer_alloc E) ].

(** ** The connections of a pass in which nothing fails *)

(** No call to astobj2, librdkafka or the sorcery fails, whenever it is
    made. *)
Definition always_succeeds (E : env) : Prop :=
  (∀ h, ao2_alloc_ok E h = true)
  ∧ (∀ h, rd_kafka_conf_new_ok E h = true)
  ∧ (∀ h name value, (rd_kafka_conf_set_res E h name value).1 = RD_KAFKA_CONF_OK)
  ∧ (∀ h type kvs, rd_kafka_new_res E h type kvs = None)
  ∧ (∀ h, rd_kafka_topic_conf_new_ok E h = true)
  ∧ (∀ h name, rd_kafka_topic_new_ok E h name = true)
  ∧ (∀ h type, ast_sorcery_retrieve_ok E h type = true).

(** A loaded topic names the producer. *)
Definition has_topics (objs : kafka_objects) (p : sorcery_kafka_producer) : bool :=
  bool_decide (Exists (λ t, topic_producer_id t = producer_id p) (topics objs)).

(** The loaded producers of a cluster that have topics, counted; and their
    number over all loaded clusters, each cluster taken as often as it is in
    the list. *)
Definition connections_for (objs : kafka_objects) (c : sorcery_kafka_cluster) : nat :=
  length (filter (λ p, producer_cluster_id p = cluster_id c ∧ has_topics objs p = true)
            (producers objs)).

Definition connections_per_pass (objs : kafka_objects) : nat :=
  sum_list_with (connections_for objs) (clusters objs).

(** From [w] to [w'], [c] connections were created and [d] destroyed. *)
Definition tally (c d : nat) (w w' : world) : Prop :=
  ∃ evs, history w' = history w ++ evs
         ∧ creations evs = c ∧ destructions evs = d.

(** * Proofs *)

Set Warnings "-clear-no-such-hyp".

(** ** Running the monad by hand *)

Lemma fresh_lookup (m : gmap nat cell) : m !! fresh (dom m) = None.
Proof. apply not_elem_of_dom, is_fresh. Qed.

(** What is known about a fresh address, one memory update at a time.  A
    fresh address may be one that was freed before. *)
Ltac fresh_facts :=
  repeat match goal with
  | H : <[_ := _]> _ !! _ = None |- _ =>
      let Hne := fresh "Hne" in
      apply lookup_insert_None in H as [H Hne]
  | H : delete ?i _ !! _ = None |- _ =>
      apply lookup_delete_None in H as [->|H]
  end.

Ltac name_fresh :=
  match goal with
  | |- context [fresh (dom ?m)] =>
      let p := fresh "p" in
      let Hp := fresh "Hp" in
      pose proof (fresh_lookup m) as Hp;
      generalize dependent (fresh (dom m)); intros p Hp;
      fresh_facts
  end.

Ltac addr_ne := first [done | congruence | intros ->; congruence].

Ltac run :=
  cbv beta iota zeta delta
    [bind ret fault emit get_history get_mem get_sorcery set_mem set_sorcery
     alloc load store free ast_log ast_debug3 with_sorcery
     mem history kafka_sorcery world_of value_of
     rd_kafka_conf_new rd_kafka_conf_set rd_kafka_conf_destroy rd_kafka_new
     rd_kafka_destroy rd_kafka_topic_conf_new rd_kafka_topic_conf_set_opaque
     rd_kafka_topic_conf_destroy rd_kafka_topic_new rd_kafka_topic_destroy
     rd_kafka_produce rd_kafka_flush last_error_str
     get_rd_kafka set_rd_kafka get_rd_kafka_topic set_rd_kafka_topic
     kafka_producer_destructor kafka_producer_topic_destructor
     ao2_alloc ao2_ref ao2_cleanup
     ast_sorcery_open ast_sorcery_unref ast_sorcery_apply_default
     ast_sorcery_object_register ast_sorcery_object_field_register
     ast_sorcery_observer_add ast_sorcery_observer_remove decline negb].

Ltac branch :=
  match goal with
  | |- context [if ?b then _ else _] =>
      match type of b with
      | bool => destruct b eqn:?
      | _ => destruct b
      end
  | |- context [match ?x with (_, _) => _ end] => destruct x eqn:?
  | |- context [match ?x with Some _ => _ | None => _ end] =>
      lazymatch x with
      | _ !! _ => fail
      | _ => destruct x eqn:?
      end
  end.

(** String literals are large terms; they are put aside while a function
    body is run and put back before the result is compared. *)
Ltac hide_formats :=
  repeat match goal with
  | |- context [String ?a ?s] =>
      let str := fresh "str" in set (str := String a s)
  end.

Ltac show_formats :=
  repeat match goal with
  | str := String _ _ |- _ => subst str
  end.

(** Two memories are equal when they agree at every address. *)
Ltac mem_eq :=
  match goal with
  | |- @eq (gmap nat cell) _ _ =>
      apply map_eq; intros ?;
      repeat (rewrite lookup_insert || rewrite lookup_delete);
      repeat case_decide; simplify_eq; first [done | congruence]
  end.

Ltac lookup :=
  match goal with
  | |- context [<[?p := ?c]> ?m !! ?p] => rewrite (lookup_insert_eq m p c)
  | |- context [<[?p := ?c]> ?m !! ?q] => rewrite (lookup_insert_ne m p q c) by addr_ne
  | |- context [delete ?p ?m !! ?q] => rewrite (lookup_delete_ne m p q) by addr_ne
  | H : ?m !! ?p = _ |- context [?m !! ?p] => rewrite H
  end.

Ltac step := first [lookup | name_fresh | branch]; run.

(** Histories grow at the end; [since] reads the growth back. *)
Lemma since_app (w w' : world) (evs : list event) :
  history w' = history w ++ evs → since w w' = evs.
Proof. intros H. unfold since. rewrite H. apply drop_app_length. Qed.

Ltac history := rewrite <- ?app_assoc; cbn [app]; try reflexivity.

(** ** build_rdkafka_cluster_config *)

Lemma build_rdkafka_cluster_config_spec E c w :
  match build_rdkafka_cluster_config E c w with
  | Done (Some cfg) w' =>
      mem w !! cfg = None
      ∧ mem w' = <[cfg := RdKafkaConf (cluster_settings c)]> (mem w)
      ∧ kafka_sorcery w' = kafka_sorcery w
      ∧ history w' = history w ++
          rd_kafka_conf_new_ev (Some cfg) :: map (accepted cfg) (cluster_settings c)
  | Done None w' =>
      mem w' = mem w
      ∧ kafka_sorcery w' = kafka_sorcery w
      ∧ (history w' = history w ++
           [rd_kafka_conf_new_ev None;
            ast_log_ev LOG_ERROR
              "Kafka cluster %s: unable to create configuration object\n"
              [AStr (cluster_id c)]]
         ∨ ∃ cfg k name value fmt r errstr,
             cluster_settings_table c !! k = Some (name, value, fmt)
             ∧ r ≠ RD_KAFKA_CONF_OK
             ∧ history w' = history w ++
                 rd_kafka_conf_new_ev (Some cfg)
                 :: map (accepted cfg) (take k (cluster_settings c)) ++
                 [rd_kafka_conf_set_ev cfg name value r;
                  ast_log_ev LOG_ERROR fmt [AStr (cluster_id c); AStr errstr];
                  rd_kafka_conf_destroy_ev cfg])
  | Fault _ => False
  end.
Proof.
  destruct w as [m s h].
  unfold build_rdkafka_cluster_config. hide_formats. run.
  repeat step; show_formats; subst; try congruence.
  all: split_and?; try done; try mem_eq.
  all: try (left; history; fail).
  all: try (history; fail).
  all: right.
  all: first
    [ eexists _, 0%nat, _, _, _, _, _; do 2 (split; [reflexivity || eassumption|]); history; fail
    | eexists _, 1%nat, _, _, _, _, _; do 2 (split; [reflexivity || eassumption|]); history; fail
    | eexists _, 2%nat, _, _, _, _, _; do 2 (split; [reflexivity || eassumption|]); history; fail
    | eexists _, 3%nat, _, _, _, _, _; do 2 (split; [reflexivity || eassumption|]); history; fail
    | eexists _, 4%nat, _, _, _, _, _; do 2 (split; [reflexivity || eassumption|]); history; fail ].
Qed.


(** Calling a function whose specification is known. *)
Ltac head_of t :=
  lazymatch t with
  | ?f _ => head_of f
  | _ => t
  end.

Tactic Notation "call" open_constr(lem) :=
  let H := fresh "Hcall" in
  let m' := fresh "m" in
  let s' := fresh "s" in
  let h' := fresh "h" in
  pose proof lem as H;
  match type of H with
  | match ?t' with Done _ _ => _ | Fault _ => _ end =>
      let f' := head_of t' in
      match goal with
      | |- context [match ?t with Done _ _ => _ | Fault _ => _ end] =>
          let f := head_of t in
          constr_eq f f';
          unify t t'; change t' with t in H;
          destruct t as [? [m' s' h']|[m' s' h']]
      end;
      cbv beta iota delta [mem history kafka_sorcery] in H
  end.

(** ** Counting events *)

Lemma count_app f (a b : list event) : count f (a ++ b) = (count f a + count f b)%nat.
Proof. unfold count. by rewrite List.filter_app, length_app. Qed.

Lemma count_cons f e (l : list event) :
  count f (e :: l) = ((if f e then 1 else 0) + count f l)%nat.
Proof. unfold count. cbn. by destruct (f e). Qed.

Lemma count_nil f : count f [] = 0%nat.
Proof. done. Qed.

Lemma count_accepted f conf l :
  (∀ kv, f (accepted conf kv) = false) → count f (map (accepted conf) l) = 0%nat.
Proof.
  intros Hf. induction l as [|kv l IH]; [done|].
  cbn [map]. by rewrite count_cons, Hf, IH.
Qed.

Lemma count_logs f l :
  (∀ level fmt args, f (ast_log_ev level fmt args) = false) →
  Forall (λ e, is_log e = true) l → count f l = 0%nat.
Proof.
  intros Hf. induction 1 as [|e l He _ IH]; [done|].
  rewrite count_cons, IH. by destruct e; rewrite ?Hf.
Qed.

Ltac counts :=
  unfold attempts, creations, destructions, topic_creations, topic_destructions,
    retains, releases, fatal_failures in *;
  repeat first
    [ rewrite count_app | rewrite count_cons | rewrite count_nil
    | rewrite count_accepted by done
    | rewrite count_logs by done ];
  cbn [is_attempt is_creation is_destruction is_topic_creation is_topic_destruction
       is_fatal].

(** ** new_kafka_producer *)

Lemma new_kafka_producer_spec E c p w :
  match new_kafka_producer E c p w with
  | Done (Some obj) w' =>
      ∃ rk cfg,
        history w' = history w ++
          rd_kafka_conf_new_ev (Some cfg) :: map (accepted cfg) (cluster_settings c) ++
          [ao2_alloc_ev (Some obj); rd_kafka_new_ev RD_KAFKA_PRODUCER cfg (Some rk)]
        ∧ mem w !! obj = None ∧ mem w !! rk = None ∧ obj ≠ rk
        ∧ mem w' = <[obj := Ao2 1 (kafka_producer (Some rk))]>
                     (<[rk := RdKafka RD_KAFKA_PRODUCER (cluster_settings c)]> (mem w))
        ∧ kafka_sorcery w' = kafka_sorcery w
  | Done None w' =>
      mem w' = mem w
      ∧ kafka_sorcery w' = kafka_sorcery w
      ∧ ∃ evs, history w' = history w ++ evs
          ∧ creations evs = 0%nat ∧ destructions evs = 0%nat
          ∧ fatal_failures evs = 0%nat
  | Fault _ => False
  end.
Proof.
  destruct w as [m s h].
  unfold new_kafka_producer. hide_formats. run.
  call (build_rdkafka_cluster_config_spec E c _).
  2: done.
  destruct a as [cfg|]; run.
  - destruct Hcall as (Hcfg & -> & -> & ->).
    repeat step; show_formats; try lia.
    + split_and!; [mem_eq|done|].
      eexists. split; [history|]. counts. done.
    + eexists _, _. split_and!; [history|done|done|addr_ne|mem_eq|done].
    + eexists _, _. split_and!; [history|done|done|addr_ne|mem_eq|done].
    + split_and!; [mem_eq|done|].
      eexists. split; [history|]. counts. done.
  - destruct Hcall as (-> & -> & Hh). split_and!; [done..|].
    destruct Hh as [->|(cfg & k & name & value & f & r & errstr & _ & _ & ->)];
      (eexists; split; [reflexivity|]); counts; done.
Qed.

(** ** Dropping the last reference to a producer *)

Lemma release_producer w obj rk ty kvs :
  mem w !! obj = Some (Ao2 1 (kafka_producer (Some rk))) →
  mem w !! rk = Some (RdKafka ty kvs) →
  ao2_ref obj (-1) w =
    Done tt {| mem := delete obj (delete rk (mem w));
               kafka_sorcery := kafka_sorcery w;
               history := history w ++
                 [ao2_ref_ev obj (-1);
                  ast_log_ev LOG_DEBUG3 "Destroy rd_kafka_t object %p on producer %p\n"
                    [APtr (Some rk); APtr (Some obj)];
                  rd_kafka_destroy_ev rk;
                  ao2_destroy_ev obj] |}.
Proof.
  destruct w as [m s h]. cbn [mem kafka_sorcery history]. intros Hobj Hrk.
  run. repeat step; try lia.
  f_equal. f_equal; [mem_eq|history].
Qed.

(** ** new_kafka_producer_topic *)

Lemma new_kafka_producer_topic_spec E producer st w n rk ty kvs :
  mem w !! producer = Some (Ao2 n (kafka_producer (Some rk))) →
  mem w !! rk = Some (RdKafka ty kvs) →
  match new_kafka_producer_topic E producer st w with
  | Done (Some t) w' =>
      ∃ rkt cfg,
        history w' = history w ++
          [ao2_alloc_ev (Some t);
           rd_kafka_topic_conf_new_ev (Some cfg);
           rd_kafka_topic_conf_set_opaque_ev cfg (Some t);
           ao2_ref_ev t 1;
           rd_kafka_topic_new_ev rk (topic_name st) cfg (Some rkt)]
        ∧ mem w !! t = None ∧ mem w !! rkt = None ∧ t ≠ rkt
        ∧ mem w' = <[t := Ao2 2 (kafka_producer_topic (Some rkt))]>
                     (<[rkt := RdKafkaTopic rk (topic_name st) (Some t)]> (mem w))
        ∧ kafka_sorcery w' = kafka_sorcery w
  | Done None w' =>
      mem w' = mem w
      ∧ kafka_sorcery w' = kafka_sorcery w
      ∧ bind_failure E
      ∧ (history w' = history w ++
           [ao2_alloc_ev None;
            ast_log_ev LOG_ERROR "Out of memory while create producer topic '%s'\n"
              [AStr (topic_id st)]]
         ∨ (∃ t, mem w !! t = None ∧ history w' = history w ++
              [ao2_alloc_ev (Some t);
               rd_kafka_topic_conf_new_ev None;
               ast_log_ev LOG_ERROR "Unable to create config for producer topic '%s'\n"
                 [AStr (topic_id st)];
               ao2_ref_ev t (-1);
               ao2_destroy_ev t])
         ∨ (∃ t cfg err, mem w !! t = None ∧ history w' = history w ++
              [ao2_alloc_ev (Some t);
               rd_kafka_topic_conf_new_ev (Some cfg);
               rd_kafka_topic_conf_set_opaque_ev cfg (Some t);
               ao2_ref_ev t 1;
               rd_kafka_topic_new_ev rk (topic_name st) cfg None;
               ast_log_ev LOG_ERROR "Unable to create producer topic '%s' because %s\n"
                 [AStr (topic_id st); AStr err];
               rd_kafka_topic_conf_destroy_ev cfg;
               ao2_ref_ev t (-1);
               ao2_ref_ev t (-1);
               ao2_destroy_ev t]))
  | Fault _ => False
  end.
Proof.
  destruct w as [m s h]. cbn [mem kafka_sorcery history]. intros Hp Hrk.
  unfold new_kafka_producer_topic. hide_formats. run.
  repeat step; show_formats; try lia.
  - eexists _, _. split_and!; [history|done|done|addr_ne|mem_eq|done].
  - eexists _, _. split_and!; [history|done|done|addr_ne|mem_eq|done].
  - split_and!; [mem_eq|done|unfold bind_failure; eauto 6|].
    right; right. eexists _, _, _. split; [|history]. done.
  - split_and!; [mem_eq|done|unfold bind_failure; eauto 6|].
    right; left. eexists. split; [|history]. done.
  - split_and!; [done|done|unfold bind_failure; eauto 6|].
    left. history.
Qed.

(** ** process_producer_topic *)

Lemma process_producer_topic_spec E producer st w n rk ty kvs :
  mem w !! producer = Some (Ao2 n (kafka_producer (Some rk))) →
  mem w !! rk = Some (RdKafka ty kvs) →
  match process_producer_topic E producer st w with
  | Done _ w' =>
      ∃ t rkt cfg r1 r2 logs1 logs2,
        history w' = history w ++
          [visit_topic producer st;
           ao2_alloc_ev (Some t);
           rd_kafka_topic_conf_new_ev (Some cfg);
           rd_kafka_topic_conf_set_opaque_ev cfg (Some t);
           ao2_ref_ev t 1;
           rd_kafka_topic_new_ev rk (topic_name st) cfg (Some rkt);
           rd_kafka_produce_ev rkt RD_KAFKA_PARTITION_UA RD_KAFKA_MSG_F_COPY "test" 4 r1] ++
          logs1 ++ [rd_kafka_flush_ev rk 10000 r2] ++ logs2 ++ [ao2_ref_ev t (-1)]
        ∧ Forall (λ e, is_log e = true) logs1
        ∧ Forall (λ e, is_log e = true) logs2
        ∧ mem w !! t = None ∧ mem w !! rkt = None ∧ t ≠ rkt
        ∧ mem w' = <[t := Ao2 1 (kafka_producer_topic (Some rkt))]>
                     (<[rkt := RdKafkaTopic rk (topic_name st) (Some t)]> (mem w))
        ∧ kafka_sorcery w' = kafka_sorcery w
  | Fault _ => bind_failure E
  end.
Proof.
  destruct w as [m s h]. cbn [mem kafka_sorcery history]. intros Hp Hrk.
  unfold process_producer_topic. hide_formats. run.
  call (new_kafka_producer_topic_spec E producer st
          {| mem := m; kafka_sorcery := s; history := _ |} n rk ty kvs Hp Hrk).
  2: done.
  destruct a as [t|]; run.
  2: by destruct Hcall as (_ & _ & ? & _).
  destruct Hcall as (rkt & cfg & -> & Ht & Hrkt & Hne & -> & ->).
  assert (producer ≠ t) by addr_ne. assert (producer ≠ rkt) by addr_ne.
  assert (rk ≠ t) by addr_ne. assert (rk ≠ rkt) by addr_ne.
  repeat step; show_formats; try lia.
  all: first
    [ eexists _, _, _, _, _, [], []; split; [history; fail|]
    | eexists _, _, _, _, _, [_], []; split; [history; fail|]
    | eexists _, _, _, _, _, [], [_]; split; [history; fail|]
    | eexists _, _, _, _, _, [_], [_]; split; [history; fail|] ].
  all: split_and!; [by repeat constructor|by repeat constructor|done|done|done|mem_eq|done].
Qed.


(** ** Live handles *)

Lemma elem_of_clients m k :
  k ∈ clients m ↔ ∃ ty kvs, m !! k = Some (RdKafka ty kvs).
Proof.
  unfold clients. rewrite elem_of_dom. unfold is_Some.
  setoid_rewrite map_lookup_filter_Some. cbn. split.
  - intros (c & Hc & Hk). destruct c; try discriminate. eauto.
  - intros (ty & kvs & Hc). eauto.
Qed.

(** A memory update that is not about a client leaves the clients alone. *)
Lemma clients_insert_other m k c :
  is_client c = false → k ∉ clients m → clients (<[k := c]> m) = clients m.
Proof.
  intros Hc Hk. apply set_eq. intros i. rewrite !elem_of_clients.
  destruct (decide (k = i)) as [->|Hne].
  - rewrite lookup_insert_eq. split.
    + intros (ty & kvs & [= ->]). done.
    + intros Hi. by apply elem_of_clients in Hi.
  - by rewrite lookup_insert_ne.
Qed.

Lemma clients_insert_client m k ty kvs :
  clients (<[k := RdKafka ty kvs]> m) = {[k]} ∪ clients m.
Proof.
  apply set_eq. intros i. rewrite elem_of_union, elem_of_singleton, !elem_of_clients.
  destruct (decide (k = i)) as [->|Hne].
  - rewrite lookup_insert_eq. set_solver.
  - rewrite lookup_insert_ne by done. set_solver.
Qed.

Lemma clients_delete m k : clients (delete k m) = clients m ∖ {[k]}.
Proof.
  apply set_eq. intros i. rewrite elem_of_difference, elem_of_singleton, !elem_of_clients.
  destruct (decide (k = i)) as [->|Hne].
  - rewrite lookup_delete_eq. set_solver.
  - rewrite lookup_delete_ne by done. set_solver.
Qed.

Lemma not_client_fresh m k : m !! k = None → k ∉ clients m.
Proof. intros Hk (ty & kvs & Hc)%elem_of_clients. congruence. Qed.

Lemma not_client_other m k c : m !! k = Some c → is_client c = false → k ∉ clients m.
Proof. intros Hk Hc (ty & kvs & Hc')%elem_of_clients. rewrite Hk in Hc'. by simplify_eq. Qed.

(** ** Loops *)

Lemma for_each_inv {A} (body : A → M unit) (Inv : world → Prop)
    (P : list event → Prop) (Q : A → list event → Prop) (F : Prop) (l : list A) :
  P [] →
  (∀ a b, P a → P b → P (a ++ b)) →
  (∀ x a b c, Q x b → Q x (a ++ b ++ c)) →
  (∀ x w, x ∈ l → Inv w →
     match body x w with
     | Done _ w' => Inv w' ∧ ∃ evs, history w' = history w ++ evs ∧ P evs ∧ Q x evs
     | Fault _ => F
     end) →
  ∀ w, Inv w →
    match for_each body l w with
    | Done _ w' =>
        Inv w' ∧ ∃ evs, history w' = history w ++ evs ∧ P evs ∧ ∀ x, x ∈ l → Q x evs
    | Fault _ => F
    end.
Proof.
  intros Hnil Happ Hmono. induction l as [|x l IH]; intros Hbody w Hw.
  - cbn. split; [done|]. exists []. rewrite app_nil_r. split_and!; [done..|].
    intros x Hx. by apply elem_of_nil in Hx.
  - cbn [for_each]. unfold bind at 1.
    specialize (Hbody x w) as Hx. specialize (Hx ltac:(left) Hw).
    destruct (body x w) as [[] w1|w1]; [|done].
    destruct Hx as (Hw1 & evs1 & Hh1 & HP1 & HQ1).
    specialize (IH (λ y w Hy, Hbody y w (list_elem_of_further _ _ _ Hy)) w1 Hw1).
    destruct (for_each body l w1) as [[] w2|w2]; [|done].
    destruct IH as (Hw2 & evs2 & Hh2 & HP2 & HQ2).
    split; [done|]. exists (evs1 ++ evs2).
    split_and!; [by rewrite Hh2, Hh1, app_assoc|by apply Happ|].
    intros y [Hy|Hy]%elem_of_cons.
    + subst y. specialize (Hmono x [] evs1 evs2 HQ1). by rewrite app_nil_l in Hmono.
    + specialize (Hmono y evs1 evs2 [] (HQ2 y Hy)). by rewrite app_nil_r in Hmono.
Qed.

Lemma balanced_nil : balanced [].
Proof. done. Qed.

Lemma balanced_app a b : balanced a → balanced b → balanced (a ++ b).
Proof.
  unfold balanced, creations, destructions, fatal_failures.
  rewrite !count_app. lia.
Qed.

Lemma elem_of_middle {A} (x : A) (a b c : list A) : x ∈ b → x ∈ a ++ b ++ c.
Proof. set_solver. Qed.

(** ** process_producer *)

Lemma process_producer_spec E c p w srv :
  kafka_sorcery w = Some srv →
  match process_producer E c p w with
  | Done _ w' =>
      kafka_sorcery w' = Some srv
      ∧ live_clients w' = live_clients w
      ∧ ∃ evs, history w' = history w ++ evs
          ∧ balanced evs ∧ visit_producer c p ∈ evs
  | Fault _ => bind_failure E
  end.
Proof.
  destruct w as [m s h]. cbn [mem kafka_sorcery history]. intros ->.
  unfold process_producer, ast_sorcery_retrieve_by_fields. hide_formats. run.
  destruct (ast_sorcery_retrieve_ok E _ _) eqn:Hret; run.
  2:{ show_formats. split_and!; [done|done|].
      eexists. split; [history|]. split; [|set_solver].
      unfold balanced. counts. done. }
  match goal with
  | |- context [base.filter ?P ?l] => generalize (base.filter P l)
  end.
  intros found.
  destruct (decide (length found ≠ 0%nat)) as [Hfound|Hfound]; run.
  2:{ show_formats. split_and!; [done|done|].
      eexists. split; [history|]. split; [|set_solver].
      unfold balanced. counts. done. }
  call (new_kafka_producer_spec E c p _).
  2: done.
  destruct a as [obj|]; run.
  2:{ destruct Hcall as (-> & -> & evs & -> & Hc & Hd & Hf).
      show_formats. split_and!; [done|done|].
      eexists. split; [history|]. split; [|set_solver].
      unfold balanced in *. counts. cbn in *. lia. }
  destruct Hcall as (rk & cfg & -> & Hobj & Hrk & Hne & -> & ->).
  match goal with
  | |- context [for_each _ found ?w] => set (w1 := w)
  end.
  pose proof (for_each_inv (process_producer_topic E obj)
    (λ w, mem w !! obj = Some (Ao2 1 (kafka_producer (Some rk)))
          ∧ mem w !! rk = Some (RdKafka RD_KAFKA_PRODUCER (cluster_settings c))
          ∧ kafka_sorcery w = Some srv
          ∧ live_clients w = live_clients w1)
    balanced (λ _ _, True) (bind_failure E) found
    balanced_nil balanced_app (λ _ _ _ _ _, I)) as Hloop.
  cbv beta in Hloop.
  assert (∀ (x : sorcery_kafka_topic) (w : world),
    x ∈ found →
    mem w !! obj = Some (Ao2 1 (kafka_producer (Some rk)))
    ∧ mem w !! rk = Some (RdKafka RD_KAFKA_PRODUCER (cluster_settings c))
    ∧ kafka_sorcery w = Some srv
    ∧ live_clients w = live_clients w1 →
    match process_producer_topic E obj x w with
    | Done _ w' =>
        (mem w' !! obj = Some (Ao2 1 (kafka_producer (Some rk)))
         ∧ mem w' !! rk = Some (RdKafka RD_KAFKA_PRODUCER (cluster_settings c))
         ∧ kafka_sorcery w' = Some srv
         ∧ live_clients w' = live_clients w1)
        ∧ ∃ evs, history w' = history w ++ evs ∧ balanced evs ∧ True
    | Fault _ => bind_failure E
    end) as Hbody.
  { intros x w _ (H1 & H2 & H3 & H4).
    pose proof (process_producer_topic_spec E obj x w _ _ _ _ H1 H2) as Hx.
    destruct (process_producer_topic E obj x w) as [[] w'|]; [|done].
    destruct Hx as (t & rkt & tcfg & r1 & r2 & logs1 & logs2
                    & Hh & Hl1 & Hl2 & Ht & Hrkt & Htne & Hm & Hs).
    split.
    - unfold live_clients in *. rewrite Hm.
      rewrite !lookup_insert_ne by addr_ne.
      rewrite !clients_insert_other; [by rewrite Hs|done|by apply not_client_fresh|done|].
      rewrite clients_insert_other; [by apply not_client_fresh|done|by apply not_client_fresh].
    - eexists. split; [exact Hh|]. split; [|done].
      unfold balanced. counts. done. }
  specialize (Hloop Hbody w1). clear Hbody.
  assert (Hinv : mem w1 !! obj = Some (Ao2 1 (kafka_producer (Some rk)))
    ∧ mem w1 !! rk = Some (RdKafka RD_KAFKA_PRODUCER (cluster_settings c))
    ∧ kafka_sorcery w1 = Some srv
    ∧ live_clients w1 = live_clients w1).
  { subst w1. cbn [mem kafka_sorcery]. rewrite lookup_insert_eq.
    rewrite lookup_insert_ne, lookup_insert_eq by done. done. }
  specialize (Hloop Hinv). clear Hinv.
  destruct (for_each (process_producer_topic E obj) found w1) as [[] [m2 s2 h2]|]; [|done].
  cbn [mem kafka_sorcery history] in Hloop.
  destruct Hloop as ((Hobj2 & Hrk2 & -> & Hlive) & evs & -> & Hbal & _).
  run. repeat step; show_formats; try lia.
  split_and!; [done| |].
  - unfold live_clients in *. subst w1. cbn [mem] in *.
    assert (obj ∉ clients m2) by (by eapply not_client_other).
    assert (obj ∉ clients (<[rk:=RdKafka RD_KAFKA_PRODUCER (cluster_settings c)]> m)).
    { apply not_client_fresh. by rewrite lookup_insert_ne. }
    apply not_client_fresh in Hobj, Hrk.
    rewrite !clients_delete, clients_insert_other, Hlive by done.
    rewrite clients_insert_other, clients_insert_client by done.
    set_solver.
  - subst w1. cbn [history]. eexists. split; [history|]. split; [|set_solver].
    unfold balanced in *. counts. cbn in *. lia.
Qed.

(** ** process_consumer *)

Lemma process_consumer_topics_spec c k found w :
  match for_each (process_consumer_topic c k) found w with
  | Done _ w' =>
      (mem w' = mem w ∧ kafka_sorcery w' = kafka_sorcery w)
      ∧ ∃ evs, history w' = history w ++ evs ∧ balanced evs ∧ ∀ x, x ∈ found → True
  | Fault _ => False
  end.
Proof.
  apply (for_each_inv (process_consumer_topic c k)
    (λ w', mem w' = mem w ∧ kafka_sorcery w' = kafka_sorcery w)
    balanced (λ _ _, True) False found balanced_nil balanced_app (λ _ _ _ _ _, I));
    [|done].
  intros x [m s h] _ [Hm Hs]. unfold process_consumer_topic. run.
  split; [done|]. eexists. split; [reflexivity|]. split; [|done].
  unfold balanced. counts. done.
Qed.

Ltac member := rewrite ?elem_of_cons, ?elem_of_app, ?elem_of_cons; tauto.

Ltac leaf :=
  show_formats; split_and!; [done|mem_eq|];
  eexists; (split; [history|]); (split; [unfold balanced; counts; done|member]).

Lemma process_consumer_spec E c k w srv :
  kafka_sorcery w = Some srv →
  match process_consumer E c k w with
  | Done _ w' =>
      kafka_sorcery w' = Some srv
      ∧ mem w' = mem w
      ∧ ∃ evs, history w' = history w ++ evs
          ∧ balanced evs ∧ visit_consumer c k ∈ evs
  | Fault _ => False
  end.
Proof.
  destruct w as [m s h]. cbn [mem kafka_sorcery history]. intros ->.
  unfold process_consumer, ast_sorcery_retrieve_by_fields. hide_formats. run.
  call (build_rdkafka_cluster_config_spec E c _).
  2: done.
  destruct a as [cfg|]; run.
  2:{ destruct Hcall as (-> & -> & Hh). show_formats. split_and!; [done..|].
      destruct Hh as [->|(cfg & i & name & value & f & r & errstr & _ & _ & ->)];
        (eexists; split; [history|]); (split; [unfold balanced; counts; done|member]). }
  destruct Hcall as (Hcfg & -> & -> & ->).
  step. step.
  2: leaf.
  match goal with
  | |- context [base.filter ?P ?l] => generalize (base.filter P l)
  end.
  intros found.
  destruct (decide (length found ≠ 0%nat)) as [Hfound|Hfound]; run.
  2: leaf.
  call (build_rdkafka_cluster_config_spec E c _).
  2: done.
  destruct a as [cfg2|]; run.
  2:{ destruct Hcall as (-> & -> & Hh). show_formats. split_and!; [done|mem_eq|].
      destruct Hh as [->|(cfg2 & i & name & value & f & r & errstr & _ & _ & ->)];
        (eexists; split; [history|]); (split; [unfold balanced; counts; done|member]). }
  destruct Hcall as (Hcfg2 & -> & -> & ->).
  step.
  call (process_consumer_topics_spec c k found _).
  2: done.
  run. destruct Hcall as ((-> & ->) & evs & -> & Hbal & _).
  show_formats. fresh_facts.
  all: split_and!; [done|mem_eq|].
  all: eexists; (split; [history|]); (split; [|member]).
  all: unfold balanced in *; counts; cbn in *; lia.
Qed.


(** ** process_cluster and process_all_clusters *)

Lemma process_producers_spec E c srv found w :
  kafka_sorcery w = Some srv →
  match for_each (λ producer, process_producer E c producer;; ret tt) found w with
  | Done _ w' =>
      (kafka_sorcery w' = Some srv ∧ live_clients w' = live_clients w)
      ∧ ∃ evs, history w' = history w ++ evs ∧ balanced evs
          ∧ ∀ p, p ∈ found → visit_producer c p ∈ evs
  | Fault _ => bind_failure E
  end.
Proof.
  intros Hs.
  apply (for_each_inv _
    (λ w', kafka_sorcery w' = Some srv ∧ live_clients w' = live_clients w)
    balanced (λ p evs, visit_producer c p ∈ evs) (bind_failure E) found
    balanced_nil balanced_app); [intros; by apply elem_of_middle| |done].
  intros p w1 _ [Hs1 Hl1]. unfold bind, ret.
  pose proof (process_producer_spec E c p w1 srv Hs1) as Hp.
  destruct (process_producer E c p w1) as [r w2|w2]; [|done].
  destruct Hp as (Hs2 & Hl2 & evs & Hh & Hbal & Hv).
  split; [split; [done|congruence]|]. eauto.
Qed.

Lemma process_consumers_spec E c srv found w :
  kafka_sorcery w = Some srv →
  match for_each (λ consumer, process_consumer E c consumer;; ret tt) found w with
  | Done _ w' =>
      (kafka_sorcery w' = Some srv ∧ live_clients w' = live_clients w)
      ∧ ∃ evs, history w' = history w ++ evs ∧ balanced evs
          ∧ ∀ k, k ∈ found → visit_consumer c k ∈ evs
  | Fault _ => bind_failure E
  end.
Proof.
  intros Hs.
  apply (for_each_inv _
    (λ w', kafka_sorcery w' = Some srv ∧ live_clients w' = live_clients w)
    balanced (λ k evs, visit_consumer c k ∈ evs) (bind_failure E) found
    balanced_nil balanced_app); [intros; by apply elem_of_middle| |done].
  intros k w1 _ [Hs1 Hl1]. unfold bind, ret.
  pose proof (process_consumer_spec E c k w1 srv Hs1) as Hk.
  destruct (process_consumer E c k w1) as [r w2|w2]; [|done].
  destruct Hk as (Hs2 & Hm2 & evs & Hh & Hbal & Hv).
  split; [split; [done|]|eauto].
  unfold live_clients. by rewrite Hm2.
Qed.

Lemma producers_of_cluster srv c p :
  p ∈ producers (loaded srv) → producer_cluster_id p = cluster_id c →
  p ∈ base.filter (λ x, matches producer_field (Some ("cluster", cluster_id c)) x = true)
        (producers (loaded srv)).
Proof.
  intros Hp Hc. apply list_elem_of_filter. split; [|done].
  unfold matches, producer_field. rewrite decide_True by done.
  rewrite Hc. by apply bool_decide_eq_true.
Qed.

Lemma consumers_of_cluster srv c k :
  k ∈ consumers (loaded srv) → consumer_cluster_id k = cluster_id c →
  k ∈ base.filter (λ x, matches consumer_field (Some ("cluster", cluster_id c)) x = true)
        (consumers (loaded srv)).
Proof.
  intros Hk Hc. apply list_elem_of_filter. split; [|done].
  unfold matches, consumer_field. rewrite decide_True by done.
  rewrite Hc. by apply bool_decide_eq_true.
Qed.

Lemma cluster_processed_middle srv c a b d :
  cluster_processed srv c b → cluster_processed srv c (a ++ b ++ d).
Proof.
  intros (Hv & Hp & Hk). split_and!.
  - by apply elem_of_middle.
  - destruct Hp as [Hp|Hp]; [left|right]; intros; by apply elem_of_middle; auto.
  - destruct Hk as [Hk|Hk]; [left|right]; intros; by apply elem_of_middle; auto.
Qed.

Lemma process_cluster_spec E c w srv :
  kafka_sorcery w = Some srv →
  match process_cluster E c w with
  | Done _ w' =>
      (kafka_sorcery w' = Some srv ∧ live_clients w' = live_clients w)
      ∧ ∃ evs, history w' = history w ++ evs
          ∧ balanced evs ∧ cluster_processed srv c evs
  | Fault _ => bind_failure E
  end.
Proof.
  destruct w as [m s h]. cbn [mem kafka_sorcery history]. intros ->.
  unfold process_cluster, ast_sorcery_retrieve_by_fields. hide_formats. run.
  destruct (ast_sorcery_retrieve_ok E _ KAFKA_PRODUCER) eqn:Hretp; run.
  - call (process_producers_spec E c srv _
            {| mem := _; kafka_sorcery := Some srv; history := _ |} eq_refl).
    2: done.
    destruct Hcall as ((-> & Hl1) & evs1 & -> & Hbal1 & Hv1). run.
    destruct (ast_sorcery_retrieve_ok E _ KAFKA_CONSUMER) eqn:Hretk; run.
    + call (process_consumers_spec E c srv _
            {| mem := _; kafka_sorcery := Some srv; history := _ |} eq_refl).
      2: done.
      destruct Hcall as ((-> & Hl2) & evs2 & -> & Hbal2 & Hv2).
      show_formats. unfold live_clients in *. cbn [mem] in *.
      split; [split; [done|congruence]|].
      eexists. split; [history|]. split.
      * unfold balanced in *. counts. cbn in *. lia.
      * split_and!; [member|right|right]; intros x Hx Hc.
        -- specialize (Hv1 x (producers_of_cluster srv c x Hx Hc)). set_solver.
        -- specialize (Hv2 x (consumers_of_cluster srv c x Hx Hc)). set_solver.
    + show_formats. unfold live_clients in *. cbn [mem] in *.
      split; [split; [done|congruence]|].
      eexists. split; [history|]. split.
      * unfold balanced in *. counts. cbn in *. lia.
      * split_and!; [member|right|left; unfold no_consumers; member]; intros x Hx Hc.
        specialize (Hv1 x (producers_of_cluster srv c x Hx Hc)). set_solver.
  - destruct (ast_sorcery_retrieve_ok E _ KAFKA_CONSUMER) eqn:Hretk; run.
    + call (process_consumers_spec E c srv _
            {| mem := _; kafka_sorcery := Some srv; history := _ |} eq_refl).
      2: done.
      destruct Hcall as ((-> & Hl2) & evs2 & -> & Hbal2 & Hv2).
      show_formats. unfold live_clients in *. cbn [mem] in *.
      split; [split; [done|congruence]|].
      eexists. split; [history|]. split.
      * unfold balanced in *. counts. cbn in *. lia.
      * split_and!; [member|left; unfold no_producers; member|right]; intros x Hx Hc.
        specialize (Hv2 x (consumers_of_cluster srv c x Hx Hc)). set_solver.
    + show_formats. unfold live_clients in *. cbn [mem] in *.
      split; [split; [done|done]|].
      eexists. split; [history|]. split.
      * unfold balanced in *. counts. cbn in *. lia.
      * split_and!; [member|left; unfold no_producers; member
                    |left; unfold no_consumers; member].
Qed.

Lemma process_clusters_spec E srv found w :
  kafka_sorcery w = Some srv →
  match for_each (process_cluster E) found w with
  | Done _ w' =>
      (kafka_sorcery w' = Some srv ∧ live_clients w' = live_clients w)
      ∧ ∃ evs, history w' = history w ++ evs ∧ balanced evs
          ∧ ∀ c, c ∈ found → cluster_processed srv c evs
  | Fault _ => bind_failure E
  end.
Proof.
  intros Hs.
  apply (for_each_inv _
    (λ w', kafka_sorcery w' = Some srv ∧ live_clients w' = live_clients w)
    balanced (cluster_processed srv) (bind_failure E) found
    balanced_nil balanced_app (cluster_processed_middle srv)); [|done].
  intros c w1 _ [Hs1 Hl1].
  pose proof (process_cluster_spec E c w1 srv Hs1) as Hc.
  destruct (process_cluster E c w1) as [r w2|w2]; [|done].
  destruct Hc as ((Hs2 & Hl2) & evs & Hh & Hbal & Hv).
  split; [split; [done|congruence]|]. eauto.
Qed.

Lemma process_all_clusters_spec E w srv :
  kafka_sorcery w = Some srv →
  match process_all_clusters E w with
  | Done _ w' =>
      (kafka_sorcery w' = Some srv ∧ live_clients w' = live_clients w)
      ∧ ∃ evs, history w' = history w ++ evs
          ∧ balanced evs
          ∧ (ast_sorcery_retrieve_ok E (history w) KAFKA_CLUSTER = true →
             ∀ c, c ∈ clusters (loaded srv) → cluster_processed srv c evs)
  | Fault _ => bind_failure E
  end.
Proof.
  destruct w as [m s h]. cbn [mem kafka_sorcery history]. intros ->.
  unfold process_all_clusters, ast_sorcery_retrieve_by_fields. run.
  destruct (ast_sorcery_retrieve_ok E _ KAFKA_CLUSTER) eqn:Hret; run.
  2:{ split; [done|]. eexists. split; [history|]. split; [|done].
      unfold balanced. counts. done. }
  call (process_clusters_spec E srv _
          {| mem := _; kafka_sorcery := Some srv; history := _ |} eq_refl).
  2: done.
  destruct Hcall as ((-> & Hl) & evs & -> & Hbal & Hv).
  unfold live_clients in *. cbn [mem] in *.
  split; [done|]. eexists. split; [history|]. split.
  - unfold balanced in *. counts. cbn in *. lia.
  - intros _ c Hc.
    pose proof (cluster_processed_middle srv c
      [ast_sorcery_retrieve_by_fields_ev KAFKA_CLUSTER None true] evs []) as Hmid.
    rewrite app_nil_r in Hmid. apply Hmid, Hv, list_elem_of_filter. done.
Qed.


(** ** Sorcery loads *)

Lemma reload_only_ret {A} (a : A) : reload_only (ret a).
Proof. intros w. cbn. split_and!; [done..|]. exists []. by rewrite app_nil_r. Qed.

Lemma reload_only_emit e : is_reload_event e = true → reload_only (emit e).
Proof. intros He w. cbn. split_and!; [done..|]. exists [e]. by repeat constructor. Qed.

Lemma reload_only_get_history : reload_only get_history.
Proof. intros w. cbn. split_and!; [done..|]. exists []. by rewrite app_nil_r. Qed.

Lemma reload_only_bind {A B} (m : M A) (k : A → M B) :
  reload_only m → (∀ a, reload_only (k a)) → reload_only (bind m k).
Proof.
  intros Hm Hk w. unfold bind. specialize (Hm w).
  destruct (m w) as [a w1|w1]; [|done].
  destruct Hm as (Hm1 & Hs1 & evs1 & Hh1 & Hf1).
  specialize (Hk a w1). destruct (k a w1) as [b w2|w2]; [|done].
  destruct Hk as (Hm2 & Hs2 & evs2 & Hh2 & Hf2).
  split_and!; [congruence..|]. exists (evs1 ++ evs2).
  split; [by rewrite Hh2, Hh1, app_assoc|by apply Forall_app].
Qed.

Lemma reload_only_for_each {A} (body : A → M unit) l :
  (∀ x, reload_only (body x)) → reload_only (for_each body l).
Proof.
  intros Hbody. induction l as [|x l IH]; cbn [for_each].
  - apply reload_only_ret.
  - apply reload_only_bind; auto.
Qed.

Ltac reload_only :=
  repeat first
    [ apply reload_only_ret
    | apply reload_only_emit; reflexivity
    | apply reload_only_get_history
    | apply reload_only_bind; [|intros ?]
    | match goal with
      | |- reload_only (if ?b then _ else _) => destruct b
      end
    | progress cbv zeta
    | progress unfold ast_debug3, ast_log ].

Lemma reload_only_generic_alloc E : reload_only (ast_sorcery_generic_alloc E).
Proof. unfold ast_sorcery_generic_alloc. reload_only. Qed.

Lemma reload_only_string_field_init E : reload_only (ast_string_field_init E).
Proof. unfold ast_string_field_init. reload_only. Qed.

Ltac callback f destr :=
  unfold f, destr;
  apply reload_only_bind; [apply reload_only_generic_alloc|intros []; [|reload_only]];
  apply reload_only_bind; [apply reload_only_string_field_init|intros []; reload_only].

Lemma reload_only_cluster_alloc E name : reload_only (sorcery_kafka_cluster_alloc E name).
Proof. callback sorcery_kafka_cluster_alloc sorcery_kafka_cluster_destructor. Qed.
Lemma reload_only_topic_alloc E name : reload_only (sorcery_kafka_topic_alloc E name).
Proof. callback sorcery_kafka_topic_alloc sorcery_kafka_topic_destructor. Qed.
Lemma reload_only_producer_alloc E name : reload_only (sorcery_kafka_producer_alloc E name).
Proof. callback sorcery_kafka_producer_alloc sorcery_kafka_producer_destructor. Qed.
Lemma reload_only_consumer_alloc E name : reload_only (sorcery_kafka_consumer_alloc E name).
Proof. callback sorcery_kafka_consumer_alloc sorcery_kafka_consumer_destructor. Qed.

Lemma reload_only_load_objects {A} (alloc : string → M bool) (apply : A → M Z)
    (id : A → string) (objs : list A) :
  (∀ name, reload_only (alloc name)) → (∀ o, reload_only (apply o)) →
  reload_only (load_objects alloc apply id objs).
Proof.
  intros Halloc Happly. induction objs as [|o objs IH]; cbn [load_objects].
  - apply reload_only_ret.
  - apply reload_only_bind; [done|intros allocated].
    apply reload_only_bind.
    { destruct allocated; [|apply reload_only_ret].
      apply reload_only_bind; [done|intros ?; apply reload_only_ret]. }
    intros kept. apply reload_only_bind; [done|intros ?; apply reload_only_ret].
Qed.

Lemma load_type_spec {A} (type : string) (alloc : string → M bool)
    (apply : A → M Z) (destructor : string → M unit) (id : A → string)
    (file old : list A) w srv :
  (∀ name, reload_only (alloc name)) → (∀ o, reload_only (apply o)) →
  (∀ name, reload_only (destructor name)) →
  kafka_sorcery w = Some srv →
  match load_type type alloc apply destructor id file old w with
  | Done _ w' =>
      mem w' = mem w ∧ kafka_sorcery w' = kafka_sorcery w
      ∧ ∃ evs, history w' = history w ++ evs
          ∧ Forall (λ e, is_reload_event e = true) evs
  | Fault _ => False
  end.
Proof.
  intros Halloc Happly Hdestr Hs.
  assert (reload_only (
    if decide (type ∈ object_types srv) then
      let* new := load_objects alloc apply id file in
      for_each (λ o, destructor (id o)) old;;
      (if decide (type ∈ observed_types srv) then on_producer_loaded type else ret tt);;
      ret new
    else ret old)) as Hro.
  { destruct (decide _); [|apply reload_only_ret].
    apply reload_only_bind; [by apply reload_only_load_objects|intros new].
    apply reload_only_bind; [by apply reload_only_for_each|intros _].
    apply reload_only_bind; [|intros _; apply reload_only_ret].
    destruct (decide _); [|apply reload_only_ret].
    unfold on_producer_loaded. reload_only. }
  specialize (Hro w). destruct w as [m s h]. cbn [kafka_sorcery] in Hs. subst s.
  unfold load_type, with_sorcery, bind at 1, get_sorcery. exact Hro.
Qed.

Lemma reload_only_cluster_apply o : reload_only (sorcery_kafka_cluster_apply_handler o).
Proof. unfold sorcery_kafka_cluster_apply_handler. reload_only. Qed.
Lemma reload_only_topic_apply o : reload_only (sorcery_kafka_topic_apply_handler o).
Proof. unfold sorcery_kafka_topic_apply_handler. reload_only. Qed.
Lemma reload_only_producer_apply o : reload_only (sorcery_kafka_producer_apply_handler o).
Proof. unfold sorcery_kafka_producer_apply_handler. reload_only. Qed.
Lemma reload_only_consumer_apply o : reload_only (sorcery_kafka_consumer_apply_handler o).
Proof. unfold sorcery_kafka_consumer_apply_handler. reload_only. Qed.

Lemma reload_only_cluster_destructor id : reload_only (sorcery_kafka_cluster_destructor id).
Proof. unfold sorcery_kafka_cluster_destructor. reload_only. Qed.
Lemma reload_only_topic_destructor id : reload_only (sorcery_kafka_topic_destructor id).
Proof. unfold sorcery_kafka_topic_destructor. reload_only. Qed.
Lemma reload_only_producer_destructor id : reload_only (sorcery_kafka_producer_destructor id).
Proof. unfold sorcery_kafka_producer_destructor. reload_only. Qed.
Lemma reload_only_consumer_destructor id : reload_only (sorcery_kafka_consumer_destructor id).
Proof. unfold sorcery_kafka_consumer_destructor. reload_only. Qed.

Lemma sorcery_load_all_spec E w srv :
  kafka_sorcery w = Some srv →
  match sorcery_load_all E w with
  | Done _ w' =>
      mem w' = mem w
      ∧ (∃ objs, kafka_sorcery w' =
           Some {| object_types := object_types srv;
                   object_fields := object_fields srv;
                   observed_types := observed_types srv;
                   loaded := objs |})
      ∧ ∃ evs, history w' = history w ++ evs
          ∧ Forall (λ e, is_reload_event e = true) evs
  | Fault _ => False
  end.
Proof.
  destruct w as [m s h]. cbn [mem kafka_sorcery history]. intros ->.
  unfold sorcery_load_all. run.
  call (load_type_spec KAFKA_CLUSTER (sorcery_kafka_cluster_alloc E)
          sorcery_kafka_cluster_apply_handler sorcery_kafka_cluster_destructor
          cluster_id _ _ {| mem := _; kafka_sorcery := Some srv; history := _ |} srv
          (reload_only_cluster_alloc E) reload_only_cluster_apply
          reload_only_cluster_destructor eq_refl).
  2: done.
  destruct Hcall as (-> & -> & evs1 & -> & Hf1).
  call (load_type_spec KAFKA_TOPIC (sorcery_kafka_topic_alloc E)
          sorcery_kafka_topic_apply_handler sorcery_kafka_topic_destructor
          topic_id _ _ {| mem := _; kafka_sorcery := Some srv; history := _ |} srv
          (reload_only_topic_alloc E) reload_only_topic_apply
          reload_only_topic_destructor eq_refl).
  2: done.
  destruct Hcall as (-> & -> & evs2 & -> & Hf2).
  call (load_type_spec KAFKA_PRODUCER (sorcery_kafka_producer_alloc E)
          sorcery_kafka_producer_apply_handler sorcery_kafka_producer_destructor
          producer_id _ _ {| mem := _; kafka_sorcery := Some srv; history := _ |} srv
          (reload_only_producer_alloc E) reload_only_producer_apply
          reload_only_producer_destructor eq_refl).
  2: done.
  destruct Hcall as (-> & -> & evs3 & -> & Hf3).
  call (load_type_spec KAFKA_CONSUMER (sorcery_kafka_consumer_alloc E)
          sorcery_kafka_consumer_apply_handler sorcery_kafka_consumer_destructor
          consumer_id _ _ {| mem := _; kafka_sorcery := Some srv; history := _ |} srv
          (reload_only_consumer_alloc E) reload_only_consumer_apply
          reload_only_consumer_destructor eq_refl).
  2: done.
  destruct Hcall as (-> & -> & evs4 & -> & Hf4).
  run. split_and!; [done|eauto|].
  eexists. split; [history|]. by repeat apply Forall_app_2.
Qed.

(** A load or reload creates and destroys nothing. *)
Lemma count_reload_events f l :
  (∀ e, is_reload_event e = true → f e = false) →
  Forall (λ e, is_reload_event e = true) l → count f l = 0%nat.
Proof.
  intros Hf. induction 1 as [|e l He _ IH]; [done|].
  by rewrite count_cons, IH, Hf.
Qed.

Lemma ast_sorcery_load_spec E w srv :
  kafka_sorcery w = Some srv →
  match ast_sorcery_load E w with
  | Done _ w' =>
      mem w' = mem w
      ∧ (∃ objs, kafka_sorcery w' =
           Some {| object_types := object_types srv;
                   object_fields := object_fields srv;
                   observed_types := observed_types srv;
                   loaded := objs |})
      ∧ ∃ evs, history w' = history w ++ evs
          ∧ Forall (λ e, is_reload_event e = true) evs
  | Fault _ => False
  end.
Proof.
  destruct w as [m s h]. cbn [mem kafka_sorcery history]. intros ->.
  unfold ast_sorcery_load. run.
  call (sorcery_load_all_spec E
          {| mem := _; kafka_sorcery := Some srv; history := _ |} srv eq_refl).
  2: done.
  destruct Hcall as (-> & Hs & evs & -> & Hf).
  split_and!; [done..|]. eexists. split; [history|]. by constructor.
Qed.

Lemma ast_sorcery_reload_spec E w srv :
  kafka_sorcery w = Some srv →
  match ast_sorcery_reload E w with
  | Done _ w' =>
      mem w' = mem w
      ∧ (∃ objs, kafka_sorcery w' =
           Some {| object_types := object_types srv;
                   object_fields := object_fields srv;
                   observed_types := observed_types srv;
                   loaded := objs |})
      ∧ ∃ evs, history w' = history w ++ evs
          ∧ Forall (λ e, is_reload_event e = true) evs
  | Fault _ => False
  end.
Proof.
  destruct w as [m s h]. cbn [mem kafka_sorcery history]. intros ->.
  unfold ast_sorcery_reload. run.
  call (sorcery_load_all_spec E
          {| mem := _; kafka_sorcery := Some srv; history := _ |} srv eq_refl).
  2: done.
  destruct Hcall as (-> & Hs & evs & -> & Hf).
  split_and!; [done..|]. eexists. split; [history|]. by constructor.
Qed.

(** ** load_module *)

Lemma sorcery_object_register_spec E type w srv :
  kafka_sorcery w = Some srv →
  match sorcery_object_register E type w with
  | Done failed w' =>
      mem w' = mem w
      ∧ (∃ srv', kafka_sorcery w' = Some srv')
      ∧ ∃ evs, history w' = history w ++ evs
          ∧ creations evs = 0%nat ∧ destructions evs = 0%nat
          ∧ fatal_failures evs = (if failed then 1 else 0)%nat
  | Fault _ => False
  end.
Proof.
  destruct w as [m s h]. cbn [mem kafka_sorcery history]. intros ->.
  unfold sorcery_object_register. hide_formats. run.
  repeat step; show_formats.
  all: split_and!; [done|eauto|].
  all: eexists; (split; [history|]); counts; done.
Qed.

Ltac register E :=
  call (sorcery_object_register_spec E _
          {| mem := _; kafka_sorcery := Some _; history := _ |} _ eq_refl);
  [|done];
  let evs := fresh "evs" in
  let Hc := fresh "Hc" in
  let Hd := fresh "Hd" in
  let Hf := fresh "Hf" in
  let srv := fresh "srv" in
  match goal with
  | H : _ ∧ _ |- _ => destruct H as (-> & [srv ->] & evs & -> & Hc & Hd & Hf)
  end;
  match goal with
  | |- context [if ?b then _ else _] => destruct b
  end; run.
Ltac declined :=
  show_formats; (split; [done|]); eexists; (split; [history|]); counts;
  (split; [cbn in *; lia|]); left; split_and!; [done|done|cbn in *; lia].

Lemma load_module_spec E w :
  match load_module E w with
  | Done r w' =>
      live_clients w' = live_clients w
      ∧ ∃ evs, history w' = history w ++ evs
          ∧ creations evs = destructions evs
          ∧ (r = AST_MODULE_LOAD_DECLINE ∧ kafka_sorcery w' = None
             ∧ fatal_failures evs = 1%nat
             ∨ r = AST_MODULE_LOAD_SUCCESS ∧ is_Some (kafka_sorcery w')
               ∧ fatal_failures evs = 0%nat)
  | Fault _ => bind_failure E
  end.
Proof.
  destruct w as [m s h].
  unfold load_module. hide_formats. run.
  destruct (ast_sorcery_open_ok E h) eqn:Hopen; run.
  2:{ show_formats. split; [done|]. eexists. split; [history|]. counts.
      split; [done|]. left. done. }
  register E. 1: declined.
  register E. 1: declined.
  register E. 1: declined.
  destruct (ast_sorcery_observer_add_ok E _ _) eqn:Hobs; run.
  2: declined.
  register E. 1: declined.
  call (ast_sorcery_load_spec E
          {| mem := _; kafka_sorcery := Some _; history := _ |} _ eq_refl).
  2: done.
  destruct Hcall as (-> & [objs ->] & evsl & -> & Hfl).
  run.
  call (process_all_clusters_spec E
          {| mem := _; kafka_sorcery := Some _; history := _ |} _ eq_refl).
  2: done.
  destruct Hcall as ((-> & Hl) & evsp & -> & [Hbal Hfat] & _).
  run. show_formats. split; [done|]. eexists. split; [history|].
  pose proof (count_reload_events is_creation evsl) as H1.
  pose proof (count_reload_events is_destruction evsl) as H2.
  pose proof (count_reload_events is_fatal evsl) as H3.
  counts. 
  rewrite H1, H2, H3 by (done || by intros []).
  split; [cbn in *; lia|]. right. split_and!; [done|eauto|cbn in *; lia].
Qed.


(** * The claims *)

(** ** C10: what the built configuration depends on *)

(** C10. The connection configuration built from a cluster record depends
    only on brokers, security_protocol, sasl_mechanism, sasl_username and
    sasl_password: two records of the same cluster that agree on these five
    fields, whatever their port, ssl, client_id (and unused rd_kafka_t
    pointer), give the same outcome of [build_rdkafka_cluster_config] in the
    same world: the same result, the same memory, the same history. *)
Theorem config_depends_on_five_fields E c1 c2 w :
  cluster_id c1 = cluster_id c2 →
  brokers c1 = brokers c2 →
  security_protocol c1 = security_protocol c2 →
  sasl_mechanism c1 = sasl_mechanism c2 →
  sasl_username c1 = sasl_username c2 →
  sasl_password c1 = sasl_password c2 →
  build_rdkafka_cluster_config E c1 w = build_rdkafka_cluster_config E c2 w.
Proof.
  destruct c1, c2. cbn. intros -> -> -> -> -> ->. reflexivity.
Qed.

Lemma config_depends_on_five_fields_witness :
  let c1 := cluster_C1 in
  let c2 := {| cluster_id := "C1"; brokers := "broker1:9092";
               security_protocol := "plaintext"; sasl_mechanism := "PLAIN";
               sasl_username := EmptyString; sasl_password := EmptyString;
               client_id := "other"; port := 9092; ssl := 1; cluster := Some 7%nat |} in
  c1 ≠ c2
  ∧ build_rdkafka_cluster_config (all_succeed scenario) c1 initial_world
    = build_rdkafka_cluster_config (all_succeed scenario) c2 initial_world.
Proof.
  split; [discriminate|].
  apply (config_depends_on_five_fields (all_succeed scenario)); reflexivity.
Defined.

(** ** C3: no validation before the library is called *)

Ltac not_listed :=
  let Hin := fresh "Hin" in
  intros Hin; cbn in Hin;
  repeat (apply elem_of_cons in Hin as [Hin|Hin]; [discriminate|]);
  by apply elem_of_nil in Hin.

(** C3 fails.  With a library that refuses tokens outside the enumerations,
    the token "bogus" is handed to [rd_kafka_conf_set] all the same; with a
    library that takes every setting, a cluster with no brokers is built
    and its connection created. *)
Lemma validated_before_use_fails :
  ¬ validated_before_use (strict scenario) cluster_bad producer_P1 initial_world
  ∧ ¬ validated_before_use (all_succeed scenario)
        (with_brokers EmptyString cluster_C1) producer_P1 initial_world.
Proof.
  split; intros H.
  - destruct H as (_ & H & _); [right; left; not_listed|]. vm_compute in H. done.
  - destruct H as (H & _); [by left|]. vm_compute in H. done.
Qed.

Lemma settings_passed_accepted conf l : settings_passed (map (accepted conf) l) = l.
Proof.
  induction l as [|[name value] l IH]; [done|].
  cbn. unfold settings_passed in IH. by rewrite IH.
Qed.

Lemma settings_passed_app a b :
  settings_passed (a ++ b) = settings_passed a ++ settings_passed b.
Proof. apply omap_app. Qed.

Lemma attempts_accepted conf l : attempts (map (accepted conf) l) = 0%nat.
Proof. unfold attempts. by apply count_accepted. Qed.

(** C3, amended.  [build_rdkafka_cluster_config] validates nothing itself.
    It hands the five settings to [rd_kafka_conf_set] in the order brokers,
    security protocol, SASL mechanism, SASL username, SASL password, whatever
    their values.  It returns a configuration when the library accepted all
    five.  It returns NULL when [rd_kafka_conf_new] failed or the library
    refused a setting: the settings before the refused one were accepted,
    none after it is passed, an error naming the refused setting is logged,
    the configuration is destroyed, the memory is as before, and
    [new_kafka_producer] returns NULL without calling [rd_kafka_new]. *)
Theorem cluster_config_checked_by_library E c p w :
  match build_rdkafka_cluster_config E c w with
  | Done (Some cfg) w' =>
      since w w' = rd_kafka_conf_new_ev (Some cfg) :: map (accepted cfg) (cluster_settings c)
      ∧ settings_passed (since w w') = cluster_settings c
      ∧ mem w' !! cfg = Some (RdKafkaConf (cluster_settings c))
  | Done None w' =>
      mem w' = mem w
      ∧ new_kafka_producer E c p w = Done None w'
      ∧ attempts (since w w') = 0%nat
      ∧ (since w w' =
           [rd_kafka_conf_new_ev None;
            ast_log_ev LOG_ERROR
              "Kafka cluster %s: unable to create configuration object\n"
              [AStr (cluster_id c)]]
         ∨ ∃ cfg k name value fmt r errstr,
             cluster_settings_table c !! k = Some (name, value, fmt)
             ∧ r ≠ RD_KAFKA_CONF_OK
             ∧ settings_passed (since w w') = take (S k) (cluster_settings c)
             ∧ since w w' =
                 rd_kafka_conf_new_ev (Some cfg)
                 :: map (accepted cfg) (take k (cluster_settings c)) ++
                 [rd_kafka_conf_set_ev cfg name value r;
                  ast_log_ev LOG_ERROR fmt [AStr (cluster_id c); AStr errstr];
                  rd_kafka_conf_destroy_ev cfg])
  | Fault _ => False
  end.
Proof.
  pose proof (build_rdkafka_cluster_config_spec E c w) as Hb.
  destruct (build_rdkafka_cluster_config E c w) as [[cfg|] w'|w'] eqn:Hbuild; [| |done].
  - destruct Hb as (Hcfg & Hm & Hs & Hh). apply since_app in Hh. split_and!.
    + done.
    + rewrite Hh. cbn [settings_passed omap]. apply settings_passed_accepted.
    + rewrite Hm. apply lookup_insert_eq.
  - destruct Hb as (Hm & Hs & Hh). split_and!.
    + done.
    + unfold new_kafka_producer, bind. by rewrite Hbuild.
    + destruct Hh as [Hh|(cfg & k & name & value & fmt & r & errstr & _ & _ & Hh)];
        apply since_app in Hh; rewrite Hh; [done|].
      unfold attempts. counts. done.
    + destruct Hh as [Hh|(cfg & k & name & value & fmt & r & errstr & Hk & Hr & Hh)];
        apply since_app in Hh; [by left|right].
      exists cfg, k, name, value, fmt, r, errstr. split_and!; [done..| |done].
      rewrite Hh.
      change (settings_passed (map (accepted cfg) (take k (cluster_settings c)) ++
                [rd_kafka_conf_set_ev cfg name value r;
                 ast_log_ev LOG_ERROR fmt [AStr (cluster_id c); AStr errstr];
                 rd_kafka_conf_destroy_ev cfg])
              = take (S k) (cluster_settings c)).
      rewrite settings_passed_app, settings_passed_accepted.
      do 5 (destruct k as [|k]; [by simplify_eq/=|]). done.
Qed.

(** ** C9: the bind produces a message and flushes *)

Tactic Notation "close_bind" open_constr(logs1) open_constr(logs2) :=
  eexists _, _, _, logs1, logs2, _;
  split_and!;
  [ reflexivity
  | cbn [mem]; by simplify_map_eq
  | cbn [mem]; by simplify_map_eq
  | solve [history]
  | by repeat constructor
  | by repeat constructor ].

(** C9.  A producer-side topic bind that yields a topic handle goes on, in
    [process_producer_topic] itself, to produce the 4-byte message "test" to
    that handle with partition RD_KAFKA_PARTITION_UA (and flag
    RD_KAFKA_MSG_F_COPY), then to flush the producer's client with a
    timeout of 10000 ms; only log lines come between and after, and the
    function ends by dropping one reference to the handle record. *)
Theorem bind_produces_test_message E producer st w n rk ty kvs t w1 :
  mem w !! producer = Some (Ao2 n (kafka_producer (Some rk))) →
  mem w !! rk = Some (RdKafka ty kvs) →
  new_kafka_producer_topic E producer st
    (world_of (emit (visit_topic producer st) w)) = Done (Some t) w1 →
  ∃ rkt r1 r2 logs1 logs2 w2,
    process_producer_topic E producer st w = Done tt w2
    ∧ mem w1 !! t = Some (Ao2 2 (kafka_producer_topic (Some rkt)))
    ∧ mem w1 !! rkt = Some (RdKafkaTopic rk (topic_name st) (Some t))
    ∧ history w2 = history w1 ++
        [rd_kafka_produce_ev rkt RD_KAFKA_PARTITION_UA RD_KAFKA_MSG_F_COPY "test" 4 r1] ++
        logs1 ++ [rd_kafka_flush_ev rk 10000 r2] ++ logs2 ++ [ao2_ref_ev t (-1)]
    ∧ Forall (λ e, is_log e = true) logs1
    ∧ Forall (λ e, is_log e = true) logs2.
Proof.
  destruct w as [m s h]. cbn [mem]. intros Hp Hrk Hnew.
  cbv beta iota delta [world_of emit visit_topic mem kafka_sorcery history] in Hnew.
  epose proof (new_kafka_producer_topic_spec E producer st
    {| mem := m; kafka_sorcery := s; history := _ |} n rk ty kvs Hp Hrk) as Hn.
  rewrite Hnew in Hn. cbn [mem kafka_sorcery history] in Hn.
  destruct Hn as (rkt & cfg & Hh1 & Ht & Hrkt & Hne & Hm1 & Hs1).
  unfold process_producer_topic. run. rewrite Hnew.
  destruct w1 as [m1 s1 h1]. cbn [mem kafka_sorcery history] in *. subst m1 s1.
  assert (producer ≠ t) by addr_ne. assert (producer ≠ rkt) by addr_ne.
  assert (rk ≠ t) by addr_ne. assert (rk ≠ rkt) by addr_ne.
  hide_formats. run. repeat step; show_formats; try lia.
  all: first [close_bind (@nil event) (@nil event) | close_bind [_] (@nil event)
             | close_bind (@nil event) [_] | close_bind [_] [_]].
Qed.

Lemma bind_produces_test_message_witness :
  let E := all_succeed scenario in
  let w := world_of (new_kafka_producer E cluster_C1 producer_P1 initial_world) in
  let w1 := world_of (new_kafka_producer_topic E 1%nat topic_T1
                        (world_of (emit (visit_topic 1%nat topic_T1) w))) in
  mem w !! 1%nat = Some (Ao2 1 (kafka_producer (Some 2%nat)))
  ∧ mem w !! 2%nat = Some (RdKafka RD_KAFKA_PRODUCER (cluster_settings cluster_C1))
  ∧ ∃ rkt r1 r2 logs1 logs2 w2,
      process_producer_topic E 1%nat topic_T1 w = Done tt w2
      ∧ mem w1 !! 3%nat = Some (Ao2 2 (kafka_producer_topic (Some rkt)))
      ∧ mem w1 !! rkt = Some (RdKafkaTopic 2%nat (topic_name topic_T1) (Some 3%nat))
      ∧ history w2 = history w1 ++
          [rd_kafka_produce_ev rkt RD_KAFKA_PARTITION_UA RD_KAFKA_MSG_F_COPY "test" 4 r1] ++
          logs1 ++ [rd_kafka_flush_ev 2%nat 10000 r2] ++ logs2 ++ [ao2_ref_ev 3%nat (-1)]
      ∧ Forall (λ e, is_log e = true) logs1
      ∧ Forall (λ e, is_log e = true) logs2.
Proof.
  intros E w w1. split_and!; [by vm_compute..|].
  apply (bind_produces_test_message E 1%nat topic_T1 w 1 2%nat RD_KAFKA_PRODUCER
           (cluster_settings cluster_C1) 3%nat w1); by vm_compute.
Defined.

(** ** C5: the extra reference on the handle record *)

(** C5 at the success path.  When the topic handle is created, the handle
    record is retained once (the extra reference) and released once, by
    [process_producer_topic]'s final [ao2_cleanup]: of the two references
    (the allocation's and the extra one) one is never dropped.  The record
    stays allocated with reference count 1, its destructor never runs, and
    the topic handle it holds is never destroyed. *)
Theorem extra_retain_not_released E producer st w n rk ty kvs w' :
  mem w !! producer = Some (Ao2 n (kafka_producer (Some rk))) →
  mem w !! rk = Some (RdKafka ty kvs) →
  process_producer_topic E producer st w = Done tt w' →
  ∃ t rkt,
    ao2_alloc_ev (Some t) ∈ since w w'
    ∧ retains t (since w w') = 1%nat
    ∧ releases t (since w w') = 1%nat
    ∧ (ao2_destroy_ev t ∉ since w w')
    ∧ topic_destructions (since w w') = 0%nat
    ∧ refcount_of w' t = Some 1
    ∧ mem w' !! t = Some (Ao2 1 (kafka_producer_topic (Some rkt)))
    ∧ rkt ∈ live_topic_handles w'.
Proof.
  intros Hp Hrk Hrun.
  pose proof (process_producer_topic_spec E producer st w n rk ty kvs Hp Hrk) as Hspec.
  rewrite Hrun in Hspec.
  destruct Hspec as (t & rkt & cfg & r1 & r2 & logs1 & logs2
                     & Hh & Hl1 & Hl2 & Ht & Hrkt & Hne & Hm & Hs).
  apply since_app in Hh. rewrite Hh.
  assert (Hmt : mem w' !! t = Some (Ao2 1 (kafka_producer_topic (Some rkt))))
    by (rewrite Hm; apply lookup_insert_eq).
  exists t, rkt. split_and!.
  - set_solver.
  - counts. unfold visit_topic. by repeat case_bool_decide; simplify_eq.
  - counts. unfold visit_topic. by repeat case_bool_decide; simplify_eq.
  - intros Hin. unfold visit_topic in Hin.
    repeat first
      [ apply elem_of_app in Hin as [Hin|Hin]
      | apply elem_of_cons in Hin as [Hin|Hin]; [discriminate|]
      | by apply elem_of_nil in Hin ].
    + eapply Forall_forall in Hl1; [|exact Hin]. done.
    + eapply Forall_forall in Hl2; [|exact Hin]. done.
  - counts. done.
  - unfold refcount_of. by rewrite Hmt.
  - done.
  - unfold live_topic_handles. apply elem_of_dom.
    exists (RdKafkaTopic rk (topic_name st) (Some t)).
    apply map_lookup_filter_Some. split; [|done].
    rewrite Hm. rewrite lookup_insert_ne by done. apply lookup_insert_eq.
Qed.

Lemma extra_retain_not_released_witness :
  let E := all_succeed scenario in
  let w := world_of (new_kafka_producer E cluster_C1 producer_P1 initial_world) in
  let w' := world_of (process_producer_topic E 1%nat topic_T1 w) in
  process_producer_topic E 1%nat topic_T1 w = Done tt w'
  ∧ ∃ t rkt,
      ao2_alloc_ev (Some t) ∈ since w w'
      ∧ retains t (since w w') = 1%nat
      ∧ releases t (since w w') = 1%nat
      ∧ (ao2_destroy_ev t ∉ since w w')
      ∧ topic_destructions (since w w') = 0%nat
      ∧ refcount_of w' t = Some 1
      ∧ mem w' !! t = Some (Ao2 1 (kafka_producer_topic (Some rkt)))
      ∧ rkt ∈ live_topic_handles w'.
Proof.
  intros E w w'. split; [by vm_compute|].
  apply (extra_retain_not_released E 1%nat topic_T1 w 1 2%nat RD_KAFKA_PRODUCER
           (cluster_settings cluster_C1) w'); by vm_compute.
Defined.

(** ** C4: a failed bind and the connection's reference count *)

(** C4 fails.  A bind whose topic handle cannot be created takes no
    reference on the connection and drops none; and the failure does not
    propagate: [process_producer_topic] dereferences the NULL it got. *)
Lemma failed_bind_releases_nothing :
  let E := no_topics scenario in
  let w := world_of (new_kafka_producer E cluster_C1 producer_P1 initial_world) in
  let w' := world_of (new_kafka_producer_topic E 1%nat topic_T1 w) in
  refcount_of w 1%nat = Some 1
  ∧ value_of (new_kafka_producer_topic E 1%nat topic_T1 w) = Some None
  ∧ ¬ acquired_then_released 1%nat (since w w')
  ∧ value_of (process_producer_topic E 1%nat topic_T1 w) = None.
Proof.
  intros E w w'. split_and!; [by vm_compute|by vm_compute| |by vm_compute].
  intros (i & j & _ & Hi & _).
  apply list_elem_of_lookup_2 in Hi. revert Hi. vm_compute.
  intros Hin.
  repeat (apply elem_of_cons in Hin as [Hin|Hin]; [discriminate|]).
  by apply elem_of_nil in Hin.
Qed.

(** C4, amended.  [new_kafka_producer_topic] takes no reference on the
    producer and drops none, so the producer's reference count is the same
    before and after it, whether the topic handle is created or not; when the
    handle is not created it returns NULL with the memory exactly as it
    found it (the handle record and the topic configuration are gone). *)
Theorem bind_leaves_connection_refcount E producer st w n rk ty kvs :
  mem w !! producer = Some (Ao2 n (kafka_producer (Some rk))) →
  mem w !! rk = Some (RdKafka ty kvs) →
  match new_kafka_producer_topic E producer st w with
  | Done r w' =>
      refcount_of w' producer = Some n
      ∧ retains producer (since w w') = 0%nat
      ∧ releases producer (since w w') = 0%nat
      ∧ (r = None → mem w' = mem w)
  | Fault _ => False
  end.
Proof.
  intros Hp Hrk.
  pose proof (new_kafka_producer_topic_spec E producer st w n rk ty kvs Hp Hrk) as Hspec.
  destruct (new_kafka_producer_topic E producer st w) as [[t|] w'|w']; [| |done].
  - destruct Hspec as (rkt & cfg & Hh & Ht & Hrkt & Hne & Hm & Hs).
    apply since_app in Hh. rewrite Hh.
    assert (producer ≠ t) by addr_ne. assert (producer ≠ rkt) by addr_ne.
    split_and!; [| | |done].
    + unfold refcount_of. rewrite Hm, !lookup_insert_ne, Hp by done. done.
    + counts. by repeat case_bool_decide; simplify_eq.
    + counts. by repeat case_bool_decide; simplify_eq.
  - destruct Hspec as (Hm & Hs & _ & Hh).
    split_and!; [unfold refcount_of; by rewrite Hm, Hp| | |done].
    + destruct Hh as [Hh|[(t & Ht & Hh)|(t & cfg & err & Ht & Hh)]];
        apply since_app in Hh; rewrite Hh; counts;
        try (assert (producer ≠ t) by addr_ne);
        by repeat case_bool_decide; simplify_eq.
    + destruct Hh as [Hh|[(t & Ht & Hh)|(t & cfg & err & Ht & Hh)]];
        apply since_app in Hh; rewrite Hh; counts;
        try (assert (producer ≠ t) by addr_ne);
        by repeat case_bool_decide; simplify_eq.
Qed.

Lemma bind_leaves_connection_refcount_witness :
  let E := no_topics scenario in
  let w := world_of (new_kafka_producer E cluster_C1 producer_P1 initial_world) in
  mem w !! 1%nat = Some (Ao2 1 (kafka_producer (Some 2%nat)))
  ∧ mem w !! 2%nat = Some (RdKafka RD_KAFKA_PRODUCER (cluster_settings cluster_C1))
  ∧ match new_kafka_producer_topic E 1%nat topic_T1 w with
    | Done r w' =>
        refcount_of w' 1%nat = Some 1
        ∧ retains 1%nat (since w w') = 0%nat
        ∧ releases 1%nat (since w w') = 0%nat
        ∧ (r = None → mem w' = mem w)
    | Fault _ => False
    end.
Proof.
  intros E w. split; [by vm_compute|]. split; [by vm_compute|].
  apply (bind_leaves_connection_refcount E 1%nat topic_T1 w 1 2%nat
           RD_KAFKA_PRODUCER (cluster_settings cluster_C1)); by vm_compute.
Defined.


(** ** C1: no connection is shared *)

Lemma acquire_owned E c p n :
  ∀ w objs w1,
    acquire E c p n w = Done (Some <$> objs) w1 →
    ∃ rks,
      length objs = n
      ∧ NoDup (objs ++ rks)
      ∧ (∀ a, a ∈ objs ++ rks → mem w !! a = None)
      ∧ (∀ a, a ∉ objs ++ rks → mem w1 !! a = mem w !! a)
      ∧ Forall2 (owns (cluster_settings c) w1) objs rks.
Proof.
  induction n as [|n IH]; intros w objs w1 Hrun.
  - cbn in Hrun. injection Hrun as Hobjs <-.
    destruct objs; [|done]. exists []. split_and!; try done.
    + constructor.
    + intros a Ha. by apply elem_of_nil in Ha.
  - cbn [acquire] in Hrun. unfold bind at 1 in Hrun.
    pose proof (new_kafka_producer_spec E c p w) as Hnew.
    destruct (new_kafka_producer E c p w) as [o w'|w']; [|done].
    unfold bind at 1 in Hrun.
    destruct (acquire E c p n w') as [rest w2|w2] eqn:Hrest; [|done].
    cbn in Hrun. injection Hrun as Hobjs <-.
    destruct objs as [|o1 objs]; [done|]. cbn in Hobjs.
    injection Hobjs as -> ->.
    destruct Hnew as (rk & cfg & _ & Ho & Hrk & Hne & Hm & _).
    destruct (IH w' objs w2 Hrest) as (rks & Hlen & Hnd & Hfresh & Hframe & Hown).
    assert (Ho' : mem w' !! o1 = Some (Ao2 1 (kafka_producer (Some rk))))
      by (rewrite Hm; apply lookup_insert_eq).
    assert (Hrk' : mem w' !! rk = Some (RdKafka RD_KAFKA_PRODUCER (cluster_settings c)))
      by (rewrite Hm, lookup_insert_ne by done; apply lookup_insert_eq).
    assert (Ho1 : o1 ∉ objs ++ rks) by (intros Hin%Hfresh; congruence).
    assert (Hrk1 : rk ∉ objs ++ rks) by (intros Hin%Hfresh; congruence).
    exists (rk :: rks). split_and!.
    + cbn. by rewrite Hlen.
    + apply (NoDup_app (o1 :: objs) (rk :: rks)).
      apply NoDup_app in Hnd as (Hnd1 & Hnd2 & Hnd3). split_and!.
      * constructor; [set_solver|done].
      * intros a Ha Ha'.
        apply elem_of_cons in Ha as [Ha|Ha]; apply elem_of_cons in Ha' as [Ha'|Ha'].
        -- congruence.
        -- subst a. apply Ho1. set_solver.
        -- subst a. apply Hrk1. set_solver.
        -- by apply (Hnd2 a).
      * constructor; [set_solver|done].
    + intros a Ha. assert (a = o1 ∨ a = rk ∨ a ∈ objs ++ rks) as Hcases.
      { rewrite elem_of_app, !elem_of_cons in Ha. rewrite elem_of_app. tauto. }
      destruct Hcases as [->|[->|Hin]]; [done|done|].
      specialize (Hfresh a Hin). rewrite Hm in Hfresh.
      apply lookup_insert_None in Hfresh as [Hfresh _].
      by apply lookup_insert_None in Hfresh as [Hfresh _].
    + intros a Ha. assert (a ≠ o1 ∧ a ≠ rk ∧ a ∉ objs ++ rks) as (? & ? & Hnin).
      { rewrite elem_of_app, !elem_of_cons in Ha. rewrite elem_of_app. split_and!; tauto. }
      rewrite (Hframe a Hnin), Hm. by rewrite !lookup_insert_ne.
    + constructor; [split; by rewrite Hframe|done].
Qed.

Lemma owns_frame settings w w' objs rks :
  Forall2 (owns settings w) objs rks →
  (∀ a, a ∈ objs ++ rks → mem w' !! a = mem w !! a) →
  Forall2 (owns settings w') objs rks.
Proof.
  induction 1 as [|o rk objs rks [Ho Hrk] _ IH]; intros Hsame; constructor.
  - split; rewrite Hsame; [done| |done|]; rewrite elem_of_app, !elem_of_cons; tauto.
  - apply IH. intros a Ha. apply Hsame.
    rewrite elem_of_app, !elem_of_cons. rewrite elem_of_app in Ha. tauto.
Qed.

Lemma release_owned settings objs :
  ∀ rks w,
    Forall2 (owns settings w) objs rks → NoDup (objs ++ rks) →
    ∃ w2, release objs w = Done tt w2
          ∧ (∀ a, a ∉ objs ++ rks → mem w2 !! a = mem w !! a)
          ∧ (∀ a, a ∈ objs ++ rks → mem w2 !! a = None).
Proof.
  induction objs as [|o objs IH]; intros rks w Hown Hnd.
  - apply Forall2_nil_inv_l in Hown as ->. exists w. split_and!; [done..|].
    intros a Ha. by apply elem_of_nil in Ha.
  - apply Forall2_cons_inv_l in Hown as (rk & rks' & [Ho Hrk] & Hown & ->).
    unfold release. cbn [for_each]. unfold bind at 1.
    rewrite (release_producer w o rk _ _ Ho Hrk).
    set (w' := {| mem := delete o (delete rk (mem w)) |}).
    assert (Hnd' : NoDup (objs ++ rks')).
    { apply NoDup_app in Hnd as (Hnd1 & Hnd2 & Hnd3).
      apply NoDup_cons in Hnd1 as [_ Hnd1]. apply NoDup_cons in Hnd3 as [_ Hnd3].
      apply NoDup_app. split_and!; [done| |done]. intros a Ha Ha'.
      apply (Hnd2 a); set_solver. }
    assert (Hother : ∀ a, a ∈ objs ++ rks' → a ≠ o ∧ a ≠ rk).
    { intros a Ha. apply NoDup_app in Hnd as (Hnd1 & Hnd2 & Hnd3).
      apply NoDup_cons in Hnd1 as [Hnd1 _]. apply NoDup_cons in Hnd3 as [Hnd3 _].
      apply elem_of_app in Ha as [Ha|Ha]; split; intros ->.
      - done.
      - apply (Hnd2 rk); set_solver.
      - apply (Hnd2 o); set_solver.
      - done. }
    assert (Hown' : Forall2 (owns settings w') objs rks').
    { eapply owns_frame; [exact Hown|]. intros a Ha.
      destruct (Hother a Ha) as [? ?]. subst w'. cbn [mem]. by rewrite !lookup_delete_ne. }
    destruct (IH rks' w' Hown' Hnd') as (w2 & Hrel & Hframe & Hgone).
    exists w2. split_and!.
    + exact Hrel.
    + intros a Ha. assert (a ≠ o ∧ a ≠ rk ∧ a ∉ objs ++ rks') as (? & ? & Hnin).
      { rewrite elem_of_app, !elem_of_cons in Ha. rewrite elem_of_app. split_and!; tauto. }
      rewrite (Hframe a Hnin). subst w'. cbn [mem]. by rewrite !lookup_delete_ne.
    + intros a Ha.
      destruct (decide (a ∈ objs ++ rks')) as [Hin|Hnin]; [by apply Hgone|].
      rewrite (Hframe a Hnin). subst w'. cbn [mem].
      assert (a = o ∨ a = rk) as Hcases.
      { rewrite elem_of_app, !elem_of_cons in Ha. rewrite elem_of_app in Hnin. tauto. }
      destruct Hcases as [-> | ->].
      * apply lookup_delete_eq.
      * destruct (decide (o = rk)) as [->|?]; [apply lookup_delete_eq|].
        rewrite lookup_delete_ne by done. apply lookup_delete_eq.
Qed.

Lemma owns_left settings w objs rks o :
  Forall2 (owns settings w) objs rks → o ∈ objs →
  ∃ rk, rk ∈ rks ∧ owns settings w o rk.
Proof.
  induction 1 as [|o' rk objs rks Hown _ IH]; intros Ho.
  - by apply elem_of_nil in Ho.
  - apply elem_of_cons in Ho as [->|Ho].
    + exists rk. split; [by left|done].
    + destruct (IH Ho) as (rk' & ? & ?). exists rk'. split; [by right|done].
Qed.

Lemma owns_right settings w objs rks rk :
  Forall2 (owns settings w) objs rks → rk ∈ rks →
  ∃ o, o ∈ objs ∧ owns settings w o rk.
Proof.
  induction 1 as [|o rk' objs rks Hown _ IH]; intros Hrk.
  - by apply elem_of_nil in Hrk.
  - apply elem_of_cons in Hrk as [->|Hrk].
    + exists o. split; [by left|done].
    + destruct (IH Hrk) as (o' & ? & ?). exists o'. split; [by right|done].
Qed.

Lemma elem_of_take_weaken {A} (x : A) k l : x ∈ take k l → x ∈ l.
Proof. intros Hx. rewrite <- (take_drop k l). apply elem_of_app. by left. Qed.

(** The clients that are live after some acquires and releases and were not
    live before: those of the records not yet released. *)
Lemma new_clients settings w w1 w2 objs rks k :
  NoDup (objs ++ rks) →
  (∀ a, a ∈ objs ++ rks → mem w !! a = None) →
  (∀ a, a ∉ objs ++ rks → mem w1 !! a = mem w !! a) →
  Forall2 (owns settings w1) objs rks →
  (∀ a, a ∉ take k objs ++ take k rks → mem w2 !! a = mem w1 !! a) →
  (∀ a, a ∈ take k objs ++ take k rks → mem w2 !! a = None) →
  live_clients w2 ∖ live_clients w = list_to_set (drop k rks).
Proof.
  intros Hnd Hfresh Hframe Hown Hkeep Hgone.
  pose proof (Forall2_length _ _ _ Hown) as Hlen.
  apply NoDup_app in Hnd as (Hnd1 & Hnd2 & Hnd3).
  apply set_eq. intros x.
  rewrite elem_of_difference, elem_of_list_to_set. unfold live_clients.
  rewrite !elem_of_clients. split.
  - intros [(ty & kvs & Hx2) Hx0].
    assert (Hnt : x ∉ take k objs ++ take k rks) by (intros Hin%Hgone; congruence).
    rewrite (Hkeep x Hnt) in Hx2.
    destruct (decide (x ∈ objs ++ rks)) as [Hin|Hnin].
    2:{ rewrite (Hframe x Hnin) in Hx2. destruct Hx0. eauto. }
    apply elem_of_app in Hin as [Hin|Hin].
    { destruct (owns_left _ _ _ _ _ Hown Hin) as (rk & _ & [Ho _]). congruence. }
    rewrite <- (take_drop k rks) in Hin. apply elem_of_app in Hin as [Hin|Hin]; [|done].
    destruct Hnt. apply elem_of_app. by right.
  - intros Hx. assert (Hxr : x ∈ rks).
    { rewrite <- (take_drop k rks). apply elem_of_app. by right. }
    destruct (owns_right _ _ _ _ _ Hown Hxr) as (o & Ho & [_ Hx1]).
    assert (Hnt : x ∉ take k objs ++ take k rks).
    { intros [Hin|Hin]%elem_of_app.
      - apply (Hnd2 x); [|done]. by eapply elem_of_take_weaken.
      - rewrite <- (take_drop k rks) in Hnd3. apply NoDup_app in Hnd3 as (_ & Hd & _).
        by apply (Hd x). }
    split.
    + rewrite (Hkeep x Hnt). eauto.
    + intros (ty & kvs & Hx0). rewrite Hfresh in Hx0; [done|]. apply elem_of_app. by right.
Qed.

(** C1, amended.  There is no pool and no shared handle: every acquire
    ([new_kafka_producer]) for the same cluster and producer creates a
    connection of its own, held by a record of its own with reference count
    1; every release destroys the connection of the record it releases.  So
    N acquires give N pairwise distinct records and N live connections that
    were not there before, N acquires followed by k releases leave N - k of
    them (one after N - 1 releases, none after the Nth). *)
Theorem each_acquire_creates_a_connection E c p n w objs w1 :
  acquire E c p n w = Done (Some <$> objs) w1 →
  length objs = n
  ∧ NoDup objs
  ∧ (∀ o, o ∈ objs → refcount_of w1 o = Some 1)
  ∧ size (live_clients w1 ∖ live_clients w) = n
  ∧ ∀ k, (k ≤ n)%nat →
      ∃ w2, release (take k objs) w1 = Done tt w2
            ∧ size (live_clients w2 ∖ live_clients w) = (n - k)%nat.
Proof.
  intros Hrun.
  destruct (acquire_owned E c p n w objs w1 Hrun)
    as (rks & Hlen & Hnd & Hfresh & Hframe & Hown).
  pose proof (Forall2_length _ _ _ Hown) as Hlen'.
  pose proof Hnd as (Hnd1 & Hnd2 & Hnd3)%NoDup_app.
  split_and!; [done|done| | |].
  - intros o Ho. destruct (owns_left _ _ _ _ _ Hown Ho) as (rk & _ & [Ho1 _]).
    unfold refcount_of. by rewrite Ho1.
  - rewrite (new_clients (cluster_settings c) w w1 w1 objs rks 0); try done.
    + rewrite drop_0, size_list_to_set by done. lia.
    + intros a Ha. by apply elem_of_nil in Ha.
  - intros k Hk.
    destruct (release_owned (cluster_settings c) (take k objs) (take k rks) w1)
      as (w2 & Hrel & Hkeep & Hgone).
    + by apply Forall2_take.
    + apply NoDup_app. split_and!.
      * eapply sublist_NoDup; [|apply sublist_take]; done.
      * intros a Ha Ha'. apply (Hnd2 a); by eapply elem_of_take_weaken.
      * eapply sublist_NoDup; [|apply sublist_take]; done.
    + exists w2. split; [done|].
      rewrite (new_clients (cluster_settings c) w w1 w2 objs rks k); try done.
      rewrite size_list_to_set by (eapply sublist_NoDup; [|apply sublist_drop]; done).
      rewrite length_drop. lia.
Qed.

Lemma each_acquire_creates_a_connection_witness :
  let E := all_succeed scenario in
  let w1 := world_of (acquire E cluster_C1 producer_P1 2 initial_world) in
  let objs := [1%nat; 4%nat] in
  acquire E cluster_C1 producer_P1 2 initial_world = Done (Some <$> objs) w1
  ∧ length objs = 2%nat
  ∧ NoDup objs
  ∧ (∀ o, o ∈ objs → refcount_of w1 o = Some 1)
  ∧ size (live_clients w1 ∖ live_clients initial_world) = 2%nat
  ∧ ∀ k, (k ≤ 2)%nat →
      ∃ w2, release (take k objs) w1 = Done tt w2
            ∧ size (live_clients w2 ∖ live_clients initial_world) = (2 - k)%nat.
Proof.
  intros E w1 objs. split; [by vm_compute|].
  apply (each_acquire_creates_a_connection E cluster_C1 producer_P1 2 initial_world objs w1).
  by vm_compute.
Defined.

(** C1 fails.  A second acquire for the same cluster and role returns a
    second record, with a second client; both records have reference count
    1, and two producer connections for the cluster are live at once. *)
Lemma second_acquire_makes_second_connection :
  let E := all_succeed scenario in
  let w := world_of (acquire E cluster_C1 producer_P1 2 initial_world) in
  value_of (acquire E cluster_C1 producer_P1 2 initial_world)
    = Some [Some 1%nat; Some 4%nat]
  ∧ mem w !! 1%nat = Some (Ao2 1 (kafka_producer (Some 2%nat)))
  ∧ mem w !! 4%nat = Some (Ao2 1 (kafka_producer (Some 5%nat)))
  ∧ refcount_of w 1%nat = Some 1
  ∧ producer_connections cluster_C1 w = {[2%nat; 5%nat]}
  ∧ size (producer_connections cluster_C1 w) = 2%nat.
Proof. intros E w. split_and!; by vm_compute. Qed.

(** ** C2: the end-to-end scenario *)




(** ** reload_module *)

Lemma reload_module_spec E w srv :
  kafka_sorcery w = Some srv →
  ∃ w', reload_module E w = Done 0 w'
        ∧ mem w' = mem w
        ∧ (∃ objs, kafka_sorcery w' =
             Some {| object_types := object_types srv;
                     object_fields := object_fields srv;
                     observed_types := observed_types srv;
                     loaded := objs |})
        ∧ Forall (λ e, is_reload_event e = true) (since w w').
Proof.
  intros Hs. pose proof (ast_sorcery_reload_spec E w srv Hs) as Hspec.
  unfold reload_module, bind, ret.
  destruct (ast_sorcery_reload E w) as [[] w'|w']; [|done].
  destruct Hspec as (Hm & Hs' & evs & Hh & Hf).
  exists w'. split_and!; [done..|]. by rewrite (since_app _ _ _ Hh).
Qed.

Lemma reload_events_create_nothing evs :
  Forall (λ e, is_reload_event e = true) evs →
  creations evs = 0%nat ∧ destructions evs = 0%nat
  ∧ topic_creations evs = 0%nat ∧ topic_destructions evs = 0%nat.
Proof.
  intros Hf. unfold creations, destructions, topic_creations, topic_destructions.
  split_and!; apply count_reload_events; try done; by intros [].
Qed.

(** ** C7: reload *)

(** C7 fails.  In the scenario the cluster C1 and its producer P1 persist
    unchanged across a reload, and there is no connection for them, neither
    after the load nor after the reload. *)
Lemma persisting_entity_without_connection :
  let E := all_succeed scenario in
  let w1 := loaded_world E in
  let w2 := world_of (reload_module E w1) in
  value_of (reload_module E w1) = Some 0
  ∧ loaded (sorcery_of w2) = loaded (sorcery_of w1)
  ∧ clusters (loaded (sorcery_of w1)) = [cluster_C1]
  ∧ producers (loaded (sorcery_of w1)) = [producer_P1]
  ∧ live_clients w1 = ∅
  ∧ live_clients w2 = ∅
  ∧ size (producer_connections cluster_C1 w2) = 0%nat.
Proof. intros E w1 w2. split_and!; by vm_compute. Qed.

(** C7, amended.  With the sorcery open, [reload_module] returns 0 and
    builds and tears down nothing: the live connections and the live topic
    handles are those from before, and all it does is reload the sorcery
    (logging and allocation of the sorcery objects).  And a load that
    completes leaves no connection behind that was not there before it. *)
Theorem reload_builds_and_tears_down_nothing E w srv w0 :
  kafka_sorcery w = Some srv →
  (∃ w', reload_module E w = Done 0 w'
         ∧ live_clients w' = live_clients w
         ∧ live_topic_handles w' = live_topic_handles w
         ∧ Forall (λ e, is_reload_event e = true) (since w w')
         ∧ creations (since w w') = 0%nat
         ∧ destructions (since w w') = 0%nat
         ∧ topic_creations (since w w') = 0%nat
         ∧ topic_destructions (since w w') = 0%nat)
  ∧ match load_module E w0 with
    | Done _ w1 => live_clients w1 = live_clients w0
    | Fault _ => bind_failure E
    end.
Proof.
  intros Hs. split.
  - destruct (reload_module_spec E w srv Hs) as (w' & Hr & Hm & _ & Hf).
    exists w'. pose proof (reload_events_create_nothing _ Hf).
    unfold live_clients, live_topic_handles. rewrite Hm. naive_solver.
  - pose proof (load_module_spec E w0) as Hspec.
    destruct (load_module E w0) as [r w1|w1]; [|done]. by destruct Hspec.
Qed.

Lemma reload_builds_and_tears_down_nothing_witness :
  let E := all_succeed scenario in
  let w := loaded_world E in
  kafka_sorcery w = Some (sorcery_of w)
  ∧ (∃ w', reload_module E w = Done 0 w'
           ∧ live_clients w' = live_clients w
           ∧ live_topic_handles w' = live_topic_handles w
           ∧ Forall (λ e, is_reload_event e = true) (since w w')
           ∧ creations (since w w') = 0%nat
           ∧ destructions (since w w') = 0%nat
           ∧ topic_creations (since w w') = 0%nat
           ∧ topic_destructions (since w w') = 0%nat)
  ∧ match load_module E initial_world with
    | Done _ w1 => live_clients w1 = live_clients initial_world
    | Fault _ => bind_failure E
    end.
Proof.
  intros E w. split; [by vm_compute|].
  apply (reload_builds_and_tears_down_nothing E w (sorcery_of w) initial_world).
  by vm_compute.
Defined.

(** ** C8: which failures stop what *)

(** C8 fails.  The sorcery opens and no registration of an object type
    fails, and the load still declines: adding the producer observer
    failed. *)
Lemma observer_failure_declines :
  let E := no_observer scenario in
  let w := loaded_world E in
  value_of (load_module E initial_world) = Some AST_MODULE_LOAD_DECLINE
  ∧ ast_sorcery_open_ev true ∈ history w
  ∧ Forall (λ e, match e with
                 | ast_sorcery_open_ev false
                 | ast_sorcery_object_register_ev _ false => False
                 | _ => True
                 end) (history w)
  ∧ ast_sorcery_observer_add_ev KAFKA_PRODUCER false ∈ history w
  ∧ fatal_failures (history w) = 1%nat.
Proof.
  intros E w. split_and!; try by vm_compute.
  - apply list_elem_of_In. vm_compute. tauto.
  - vm_compute. repeat constructor.
  - apply list_elem_of_In. vm_compute. tauto.
Qed.

(** The failing cluster of [two_clusters] is refused by the library, and the
    cluster after it gets its connection all the same. *)
Lemma refused_cluster_does_not_stop_the_next :
  let E := strict two_clusters in
  let w := loaded_world E in
  value_of (load_module E initial_world) = Some AST_MODULE_LOAD_SUCCESS
  ∧ visit_cluster cluster_bad ∈ history w
  ∧ visit_cluster cluster_C1 ∈ history w
  ∧ creations (history w) = 1%nat
  ∧ topic_creations (history w) = 1%nat.
Proof.
  intros E w. split_and!; try by vm_compute.
  - apply list_elem_of_In. vm_compute. tauto.
  - apply list_elem_of_In. vm_compute. tauto.
Qed.

(** C8, amended.  With the sorcery open, a pass that completes has
    processed every cluster the sorcery gave it -- visited it and each of
    its producers and consumers -- whatever failed on the way.  A load that
    completes declines exactly when the sorcery did not open, an object
    type did not register, or the observer could not be added; it then
    leaves [kafka_sorcery] NULL. *)
Theorem failures_that_stop_the_load E w srv w0 :
  kafka_sorcery w = Some srv →
  match process_all_clusters E w with
  | Done _ w' =>
      ast_sorcery_retrieve_ok E (history w) KAFKA_CLUSTER = true →
      ∀ c, c ∈ clusters (loaded srv) → cluster_processed srv c (since w w')
  | Fault _ => bind_failure E
  end
  ∧ match load_module E w0 with
    | Done r w' =>
        (r = AST_MODULE_LOAD_DECLINE ↔ fatal_failures (since w0 w') ≠ 0%nat)
        ∧ (r = AST_MODULE_LOAD_DECLINE → kafka_sorcery w' = None)
        ∧ (r = AST_MODULE_LOAD_DECLINE ∨ r = AST_MODULE_LOAD_SUCCESS)
    | Fault _ => bind_failure E
    end.
Proof.
  intros Hs. split.
  - pose proof (process_all_clusters_spec E w srv Hs) as Hspec.
    destruct (process_all_clusters E w) as [[] w'|w']; [|done].
    destruct Hspec as (_ & evs & Hh & _ & Hv).
    by rewrite (since_app _ _ _ Hh).
  - pose proof (load_module_spec E w0) as Hspec.
    destruct (load_module E w0) as [r w1|w1]; [|done].
    destruct Hspec as (_ & evs & Hh & _ & Hr).
    rewrite (since_app _ _ _ Hh).
    destruct Hr as [(-> & Hn & ->)|(-> & _ & ->)]; split_and!; naive_solver.
Qed.

Lemma failures_that_stop_the_load_witness :
  let E := strict two_clusters in
  let w := loaded_world E in
  kafka_sorcery w = Some (sorcery_of w)
  ∧ match process_all_clusters E w with
    | Done _ w' =>
        ast_sorcery_retrieve_ok E (history w) KAFKA_CLUSTER = true →
        ∀ c, c ∈ clusters (loaded (sorcery_of w)) →
             cluster_processed (sorcery_of w) c (since w w')
    | Fault _ => bind_failure E
    end
  ∧ match load_module E initial_world with
    | Done r w' =>
        (r = AST_MODULE_LOAD_DECLINE ↔ fatal_failures (since initial_world w') ≠ 0%nat)
        ∧ (r = AST_MODULE_LOAD_DECLINE → kafka_sorcery w' = None)
        ∧ (r = AST_MODULE_LOAD_DECLINE ∨ r = AST_MODULE_LOAD_SUCCESS)
    | Fault _ => bind_failure E
    end.
Proof.
  intros E w. split; [by vm_compute|].
  apply (failures_that_stop_the_load E w (sorcery_of w) initial_world).
  by vm_compute.
Defined.

(** * Further properties of the module's functions *)

(** ** new_kafka_producer and kafka_producer_destructor *)

(** X1.  [new_kafka_producer] never uses a bad pointer.  When it returns NULL
    the memory is exactly as it found it (the configuration and the record
    are gone again) and no client was created.  When it returns a record,
    the only change to the memory is that record, with one reference, and
    its new client, which carries the cluster's five settings; all five
    were passed to the library, and one client was created. *)
Theorem new_kafka_producer_all_or_nothing E c p w :
  match new_kafka_producer E c p w with
  | Done (Some obj) w' =>
      ∃ rk, mem w !! obj = None ∧ mem w !! rk = None ∧ obj ≠ rk
        ∧ mem w' = <[obj := Ao2 1 (kafka_producer (Some rk))]>
                     (<[rk := RdKafka RD_KAFKA_PRODUCER (cluster_settings c)]> (mem w))
        ∧ settings_passed (since w w') = cluster_settings c
        ∧ creations (since w w') = 1%nat
  | Done None w' =>
      mem w' = mem w ∧ creations (since w w') = 0%nat
  | Fault _ => False
  end.
Proof.
  pose proof (new_kafka_producer_spec E c p w) as Hspec.
  destruct (new_kafka_producer E c p w) as [[obj|] w'|w']; [| |done].
  - destruct Hspec as (rk & cfg & Hh & Hobj & Hrk & Hne & Hm & _).
    apply since_app in Hh. rewrite Hh.
    exists rk. split_and!; [done..| |].
    + change (settings_passed
                ([rd_kafka_conf_new_ev (Some cfg)] ++
                 map (accepted cfg) (cluster_settings c) ++
                 [ao2_alloc_ev (Some obj);
                  rd_kafka_new_ev RD_KAFKA_PRODUCER cfg (Some rk)])
              = cluster_settings c).
      rewrite !settings_passed_app, settings_passed_accepted.
      apply app_nil_r.
    + counts. done.
  - destruct Hspec as (Hm & _ & evs & Hh & Hc & _).
    apply since_app in Hh. by rewrite Hh.
Qed.

(** X2.  Creating a producer and dropping its one reference is a round trip on
    the memory: the destructor destroys the client, the record is freed,
    and nothing of the two is left. *)
Theorem producer_create_release_round_trip E c p w obj w1 :
  new_kafka_producer E c p w = Done (Some obj) w1 →
  ∃ w2 rk,
    ao2_ref obj (-1) w1 = Done tt w2
    ∧ mem w2 = mem w
    ∧ since w1 w2 =
        [ao2_ref_ev obj (-1);
         ast_log_ev LOG_DEBUG3 "Destroy rd_kafka_t object %p on producer %p\n"
           [APtr (Some rk); APtr (Some obj)];
         rd_kafka_destroy_ev rk;
         ao2_destroy_ev obj].
Proof.
  intros Hnew. pose proof (new_kafka_producer_spec E c p w) as Hspec.
  rewrite Hnew in Hspec.
  destruct Hspec as (rk & cfg & Hh & Hobj & Hrk & Hne & Hm & _).
  assert (Ho : mem w1 !! obj = Some (Ao2 1 (kafka_producer (Some rk))))
    by (rewrite Hm; apply lookup_insert_eq).
  assert (Hr : mem w1 !! rk = Some (RdKafka RD_KAFKA_PRODUCER (cluster_settings c)))
    by (rewrite Hm, lookup_insert_ne by done; apply lookup_insert_eq).
  eexists _, rk. split; [exact (release_producer w1 obj rk _ _ Ho Hr)|].
  cbn [mem history]. split.
  - rewrite Hm. apply map_eq. intros i.
    destruct (decide (i = obj)) as [->|]; [by rewrite lookup_delete_eq|].
    rewrite lookup_delete_ne by done.
    destruct (decide (i = rk)) as [->|]; [by rewrite lookup_delete_eq|].
    by rewrite lookup_delete_ne, !lookup_insert_ne by done.
  - unfold since. cbn [history]. by rewrite drop_app_length.
Qed.

Lemma producer_create_release_round_trip_witness :
  let E := all_succeed scenario in
  let w1 := world_of (new_kafka_producer E cluster_C1 producer_P1 initial_world) in
  new_kafka_producer E cluster_C1 producer_P1 initial_world = Done (Some 1%nat) w1
  ∧ ∃ w2 rk,
      ao2_ref 1%nat (-1) w1 = Done tt w2
      ∧ mem w2 = mem initial_world
      ∧ since w1 w2 =
          [ao2_ref_ev 1%nat (-1);
           ast_log_ev LOG_DEBUG3 "Destroy rd_kafka_t object %p on producer %p\n"
             [APtr (Some rk); APtr (Some 1%nat)];
           rd_kafka_destroy_ev rk;
           ao2_destroy_ev 1%nat].
Proof.
  intros E w1. split; [by vm_compute|].
  apply (producer_create_release_round_trip E cluster_C1 producer_P1 initial_world).
  by vm_compute.
Defined.

(** ** new_kafka_producer_topic: the failure paths *)

Ltac decide_events :=
  repeat match goal with
  | |- context [bool_decide (?a = ?b)] =>
      first [ rewrite (bool_decide_eq_true_2 (a = b)) by reflexivity
            | rewrite (bool_decide_eq_false_2 (a = b)) by discriminate
            | rewrite (bool_decide_eq_false_2 (a = b)) by (intros [=]; congruence) ]
  end.

Ltac not_in_trace Hin :=
  repeat (apply elem_of_cons in Hin as [Hin|Hin]; [discriminate|]);
  by apply elem_of_nil in Hin.

(** X3.  When [new_kafka_producer_topic] returns NULL, whatever it allocated is
    gone again: the memory is as before; a handle record that was
    allocated was released once more often than it was retained, and was
    destroyed; a topic configuration that was created was destroyed; and
    no topic handle was created. *)
Theorem failed_topic_bind_cleans_up E producer st w n rk ty kvs w' :
  mem w !! producer = Some (Ao2 n (kafka_producer (Some rk))) →
  mem w !! rk = Some (RdKafka ty kvs) →
  new_kafka_producer_topic E producer st w = Done None w' →
  mem w' = mem w
  ∧ topic_creations (since w w') = 0%nat
  ∧ (∀ t, ao2_alloc_ev (Some t) ∈ since w w' →
       releases t (since w w') = S (retains t (since w w'))
       ∧ count (λ e, bool_decide (e = ao2_destroy_ev t)) (since w w') = 1%nat)
  ∧ (∀ cfg, rd_kafka_topic_conf_new_ev (Some cfg) ∈ since w w' →
       rd_kafka_topic_conf_destroy_ev cfg ∈ since w w').
Proof.
  intros Hp Hrk Hnew.
  pose proof (new_kafka_producer_topic_spec E producer st w n rk ty kvs Hp Hrk) as Hspec.
  rewrite Hnew in Hspec. clear Hnew. destruct Hspec as (Hm & _ & _ & Hh).
  split; [done|].
  destruct Hh as [Hh|[(t & Ht & Hh)|(t & cfg & err & Ht & Hh)]];
    apply since_app in Hh; rewrite Hh; split_and!.
  - done.
  - intros t Hin.
    not_in_trace Hin.
  - intros cfg Hin.
    not_in_trace Hin.
  - done.
  - intros t' Hin.
    apply elem_of_cons in Hin as [Hin|Hin]; [simplify_eq|].
    + split; counts; by decide_events.
    + not_in_trace Hin.
  - intros cfg Hin.
    not_in_trace Hin.
  - done.
  - intros t' Hin.
    apply elem_of_cons in Hin as [Hin|Hin]; [simplify_eq|].
    + split; counts; by decide_events.
    + not_in_trace Hin.
  - intros cfg' Hin.
    apply elem_of_cons in Hin as [Hin|Hin]; [discriminate|].
    apply elem_of_cons in Hin as [Hin|Hin]; [simplify_eq|].
    + rewrite !elem_of_cons. tauto.
    + not_in_trace Hin.
Qed.

Lemma failed_topic_bind_cleans_up_witness :
  let E := no_topics scenario in
  let w := world_of (new_kafka_producer E cluster_C1 producer_P1 initial_world) in
  let w' := world_of (new_kafka_producer_topic E 1%nat topic_T1 w) in
  ao2_alloc_ev (Some 3%nat) ∈ since w w'
  ∧ mem w' = mem w
  ∧ topic_creations (since w w') = 0%nat
  ∧ (∀ t, ao2_alloc_ev (Some t) ∈ since w w' →
       releases t (since w w') = S (retains t (since w w'))
       ∧ count (λ e, bool_decide (e = ao2_destroy_ev t)) (since w w') = 1%nat)
  ∧ (∀ cfg, rd_kafka_topic_conf_new_ev (Some cfg) ∈ since w w' →
       rd_kafka_topic_conf_destroy_ev cfg ∈ since w w').
Proof.
  intros E w w'. split; [apply list_elem_of_In; vm_compute; tauto|].
  apply (failed_topic_bind_cleans_up E 1%nat topic_T1 w 1 2%nat RD_KAFKA_PRODUCER
           (cluster_settings cluster_C1) w'); by vm_compute.
Defined.

(** ** process_producer_topic: after the bind *)

Ltac close_trace :=
  cbv zeta; eexists _, _;
  split; [reflexivity|];
  split; [first [reflexivity | cbn [mem]; by simplify_map_eq]|];
  split; [|mem_eq];
  cbn [history]; rewrite <- ?app_assoc in *; cbn [app] in *;
  repeat case_decide; try done; by rewrite <- ?app_assoc.

(** The run of [process_producer_topic], by what [new_kafka_producer_topic]
    gave it. *)
Lemma process_producer_topic_cases E producer st w n rk ty kvs :
  mem w !! producer = Some (Ao2 n (kafka_producer (Some rk))) →
  mem w !! rk = Some (RdKafka ty kvs) →
  match new_kafka_producer_topic E producer st
          (world_of (emit (visit_topic producer st) w)) with
  | Done (Some t) w1 =>
      ∃ rkt w2,
        let h1 := history w1 in
        let r1 := rd_kafka_produce_res E h1 in
        let produced :=
          rd_kafka_produce_ev rkt RD_KAFKA_PARTITION_UA RD_KAFKA_MSG_F_COPY "test" 4 r1 in
        let log1 :=
          if decide (r1 ≠ 0)
          then [ast_log_ev LOG_ERROR
                  "Unable to produce message producer topic '%s' because %s\n"
                  [AStr (topic_id st);
                   AStr (rd_kafka_err2str E (rd_kafka_last_error E (h1 ++ [produced])))]]
          else [] in
        let r2 := rd_kafka_flush_res E (h1 ++ [produced] ++ log1) in
        let log2 :=
          if decide (RD_KAFKA_RESP_ERR_NO_ERROR = r2)
          then [ast_log_ev LOG_ERROR "Kafka producer topic %s got error: %s\n"
                  [AStr (topic_id st); AStr (rd_kafka_err2str E r2)]]
          else [] in
        process_producer_topic E producer st w = Done tt w2
        ∧ mem w1 !! t = Some (Ao2 2 (kafka_producer_topic (Some rkt)))
        ∧ history w2 = h1 ++ [produced] ++ log1 ++
                       [rd_kafka_flush_ev rk 10000 r2] ++ log2 ++ [ao2_ref_ev t (-1)]
        ∧ mem w2 = <[t := Ao2 1 (kafka_producer_topic (Some rkt))]> (mem w1)
  | Done None w1 => process_producer_topic E producer st w = Fault w1
  | Fault _ => False
  end.
Proof.
  destruct w as [m s h]. cbn [mem]. intros Hp Hrk.
  cbv beta iota delta [world_of emit visit_topic mem kafka_sorcery history].
  match goal with
  | |- match new_kafka_producer_topic E producer st ?w0 with _ => _ end =>
      pose proof (new_kafka_producer_topic_spec E producer st w0 n rk ty kvs Hp Hrk) as Hn;
      destruct (new_kafka_producer_topic E producer st w0) as [[t|] w1|w1] eqn:Hnew
  end; [| |done].
  2:{ unfold process_producer_topic. run. by rewrite Hnew. }
  cbn [mem kafka_sorcery history] in Hn.
  destruct Hn as (rkt & cfg & Hh1 & Ht & Hrkt & Hne & Hm1 & Hs1).
  unfold process_producer_topic. run. rewrite Hnew. clear Hnew.
  destruct w1 as [m1 s1 h1]. cbn [mem kafka_sorcery history] in *. subst m1 s1.
  clear Hh1.
  assert (producer ≠ t) by addr_ne. assert (producer ≠ rkt) by addr_ne.
  assert (rk ≠ t) by addr_ne. assert (rk ≠ rkt) by addr_ne.
  hide_formats. run. repeat step; show_formats; try lia.
  all: close_trace.
Qed.

(** X5.  Given a live producer, [process_producer_topic] ends in the use of a
    NULL pointer exactly when [new_kafka_producer_topic] returns NULL (the
    record, the topic configuration or the topic handle could not be
    created); in every other case it runs to its end. *)
Theorem topic_bind_failure_crashes E producer st w n rk ty kvs :
  mem w !! producer = Some (Ao2 n (kafka_producer (Some rk))) →
  mem w !! rk = Some (RdKafka ty kvs) →
  let bound := new_kafka_producer_topic E producer st
                 (world_of (emit (visit_topic producer st) w)) in
  ((∃ w', process_producer_topic E producer st w = Fault w')
   ↔ value_of bound = Some None)
  ∧ ((∃ w', process_producer_topic E producer st w = Done tt w')
     ↔ ∃ t, value_of bound = Some (Some t)).
Proof.
  intros Hp Hrk bound.
  pose proof (process_producer_topic_cases E producer st w n rk ty kvs Hp Hrk) as Hc.
  fold bound in Hc.
  destruct bound as [[t|] w1|w1]; [| |done]; cbn [value_of].
  - destruct Hc as (rkt & w2 & Hc). cbv zeta in Hc. destruct Hc as (Hrun & _).
    rewrite Hrun. split; split.
    + by intros [w' ?].
    + done.
    + eauto.
    + eauto.
  - rewrite Hc. split; split.
    + done.
    + eauto.
    + by intros [w' ?].
    + by intros [t ?].
Qed.

Lemma topic_bind_failure_crashes_witness :
  let E := no_topics scenario in
  let w := world_of (new_kafka_producer E cluster_C1 producer_P1 initial_world) in
  let bound := new_kafka_producer_topic E 1%nat topic_T1
                 (world_of (emit (visit_topic 1%nat topic_T1) w)) in
  value_of bound = Some None
  ∧ ((∃ w', process_producer_topic E 1%nat topic_T1 w = Fault w')
     ↔ value_of bound = Some None)
  ∧ ((∃ w', process_producer_topic E 1%nat topic_T1 w = Done tt w')
     ↔ ∃ t, value_of bound = Some (Some t)).
Proof.
  intros E w bound. split; [by vm_compute|].
  apply (topic_bind_failure_crashes E 1%nat topic_T1 w 1 2%nat RD_KAFKA_PRODUCER
           (cluster_settings cluster_C1)); by vm_compute.
Defined.

(** X6.  The whole trace of a [process_producer_topic] that runs to its end:
    the bind, the message "test", the flush, and the release of one
    reference.  The produce error is logged exactly when
    [rd_kafka_produce] returned non-zero.  The flush "error" is logged
    exactly when [rd_kafka_flush] returned RD_KAFKA_RESP_ERR_NO_ERROR: a
    flush that succeeded is reported as an error, one that failed is
    not reported. *)
Theorem flush_success_is_logged_as_error E producer st w n rk ty kvs w' :
  mem w !! producer = Some (Ao2 n (kafka_producer (Some rk))) →
  mem w !! rk = Some (RdKafka ty kvs) →
  process_producer_topic E producer st w = Done tt w' →
  ∃ t cfg rkt r1 r2 err,
    since w w' =
      [visit_topic producer st;
       ao2_alloc_ev (Some t);
       rd_kafka_topic_conf_new_ev (Some cfg);
       rd_kafka_topic_conf_set_opaque_ev cfg (Some t);
       ao2_ref_ev t 1;
       rd_kafka_topic_new_ev rk (topic_name st) cfg (Some rkt);
       rd_kafka_produce_ev rkt RD_KAFKA_PARTITION_UA RD_KAFKA_MSG_F_COPY "test" 4 r1] ++
      (if decide (r1 ≠ 0)
       then [ast_log_ev LOG_ERROR
               "Unable to produce message producer topic '%s' because %s\n"
               [AStr (topic_id st); AStr err]]
       else []) ++
      [rd_kafka_flush_ev rk 10000 r2] ++
      (if decide (r2 = RD_KAFKA_RESP_ERR_NO_ERROR)
       then [ast_log_ev LOG_ERROR "Kafka producer topic %s got error: %s\n"
               [AStr (topic_id st); AStr (rd_kafka_err2str E r2)]]
       else []) ++
      [ao2_ref_ev t (-1)].
Proof.
  intros Hp Hrk Hrun.
  pose proof (process_producer_topic_cases E producer st w n rk ty kvs Hp Hrk) as Hc.
  assert (Hp' : mem (world_of (emit (visit_topic producer st) w)) !! producer
                = Some (Ao2 n (kafka_producer (Some rk)))) by done.
  assert (Hrk' : mem (world_of (emit (visit_topic producer st) w)) !! rk
                 = Some (RdKafka ty kvs)) by done.
  pose proof (new_kafka_producer_topic_spec E producer st _ n rk ty kvs Hp' Hrk') as Hn.
  destruct (new_kafka_producer_topic E producer st _) as [[t|] w1|w1]; [| |done].
  2: by rewrite Hc in Hrun.
  destruct Hc as (rkt & w2 & Hc). cbv zeta in Hc.
  destruct Hc as (Hrun' & Ht & Hh2 & _).
  rewrite Hrun' in Hrun. injection Hrun as ->.
  destruct Hn as (rkt' & cfg & Hh1 & _ & _ & _ & Hm1 & _).
  rewrite Hm1, lookup_insert_eq in Ht. injection Ht as ->.
  set (r2 := rd_kafka_flush_res E _) in Hh2. clearbody r2.
  set (err := rd_kafka_err2str E (rd_kafka_last_error E _)) in Hh2. clearbody err.
  set (r1 := rd_kafka_produce_res E _) in Hh2. clearbody r1.
  exists t, cfg, rkt, r1, r2, err.
  apply since_app. rewrite Hh2, Hh1. cbn [world_of emit history].
  rewrite <- !app_assoc. cbn [app]. do 8 f_equal.
  unfold RD_KAFKA_RESP_ERR_NO_ERROR. repeat case_decide; done.
Qed.

Lemma flush_success_is_logged_as_error_witness :
  let E := all_succeed scenario in
  let w := world_of (new_kafka_producer E cluster_C1 producer_P1 initial_world) in
  let w' := world_of (process_producer_topic E 1%nat topic_T1 w) in
  ast_log_ev LOG_ERROR "Kafka producer topic %s got error: %s\n"
    [AStr "T1"; AStr "Success"] ∈ since w w'
  ∧ ∃ t cfg rkt r1 r2 err,
      since w w' =
        [visit_topic 1%nat topic_T1;
         ao2_alloc_ev (Some t);
         rd_kafka_topic_conf_new_ev (Some cfg);
         rd_kafka_topic_conf_set_opaque_ev cfg (Some t);
         ao2_ref_ev t 1;
         rd_kafka_topic_new_ev 2%nat (topic_name topic_T1) cfg (Some rkt);
         rd_kafka_produce_ev rkt RD_KAFKA_PARTITION_UA RD_KAFKA_MSG_F_COPY "test" 4 r1] ++
        (if decide (r1 ≠ 0)
         then [ast_log_ev LOG_ERROR
                 "Unable to produce message producer topic '%s' because %s\n"
                 [AStr (topic_id topic_T1); AStr err]]
         else []) ++
        [rd_kafka_flush_ev 2%nat 10000 r2] ++
        (if decide (r2 = RD_KAFKA_RESP_ERR_NO_ERROR)
         then [ast_log_ev LOG_ERROR "Kafka producer topic %s got error: %s\n"
                 [AStr (topic_id topic_T1); AStr (rd_kafka_err2str E r2)]]
         else []) ++
        [ao2_ref_ev t (-1)].
Proof.
  intros E w w'. split; [apply list_elem_of_In; vm_compute; tauto|].
  apply (flush_success_is_logged_as_error E 1%nat topic_T1 w 1 2%nat RD_KAFKA_PRODUCER
           (cluster_settings cluster_C1) w'); by vm_compute.
Defined.

(** ** process_producer without topics *)

Lemma no_topic_of_producer (id : string) (l : list sorcery_kafka_topic) :
  (∀ t, t ∈ l → topic_producer_id t ≠ id) →
  base.filter (λ x, matches topic_field (Some ("producer", id)) x = true) l = [].
Proof.
  intros Hl. induction l as [|t l IH]; [done|].
  rewrite filter_cons_False.
  - apply IH. intros t' Ht'. apply Hl. by right.
  - unfold matches, topic_field. rewrite decide_False by done.
    rewrite decide_True by done. rewrite bool_decide_eq_true.
    intros [= Heq]. by apply (Hl t); [left|].
Qed.

(** X7.  A producer to which no topic refers, or whose topics the sorcery
    cannot retrieve, gets no connection: [process_producer] returns 0
    after the one retrieval; it builds no configuration, asks the
    library for nothing and leaves the memory as it is. *)
Theorem producer_without_topics_gets_no_connection E c p w srv :
  kafka_sorcery w = Some srv →
  let ok := ast_sorcery_retrieve_ok E (history w ++ [visit_producer c p]) KAFKA_TOPIC in
  ok = false ∨ (∀ t, t ∈ topics (loaded srv) → topic_producer_id t ≠ producer_id p) →
  ∃ w', process_producer E c p w = Done 0 w'
        ∧ mem w' = mem w
        ∧ kafka_sorcery w' = Some srv
        ∧ since w w' =
            [visit_producer c p;
             ast_sorcery_retrieve_by_fields_ev KAFKA_TOPIC
               (Some ("producer", producer_id p)) ok] ++
            (if ok then []
             else [ast_log_ev LOG_WARNING
                     "Unable to retrieve topics from producer %s at cluster %s\n"
                     [AStr (producer_id p); AStr (cluster_id c)]]).
Proof.
  intros Hs ok Hno. destruct w as [m s h].
  cbn [mem kafka_sorcery history] in *. subst s.
  unfold process_producer, ast_sorcery_retrieve_by_fields. run.
  unfold visit_producer in ok. fold ok.
  destruct ok eqn:Hok; run.
  - destruct Hno as [|Hno]; [done|].
    rewrite (no_topic_of_producer _ _ Hno). cbn [length]. run.
    rewrite decide_False by (intros ?; done).
    eexists. split; [reflexivity|]. split_and!; [done..|].
    unfold since. cbn [history]. rewrite <- app_assoc. apply drop_app_length.
  - eexists. split; [reflexivity|]. split_and!; [done..|].
    unfold since. cbn [history]. rewrite <- !app_assoc. apply drop_app_length.
Qed.

Lemma producer_without_topics_gets_no_connection_witness :
  let E := all_succeed scenario in
  let w := loaded_world E in
  let p := {| producer_id := "P2"; producer_cluster_id := "C1" |} in
  let ok := ast_sorcery_retrieve_ok E (history w ++ [visit_producer cluster_C1 p])
              KAFKA_TOPIC in
  kafka_sorcery w = Some (sorcery_of w)
  ∧ ∃ w', process_producer E cluster_C1 p w = Done 0 w'
          ∧ mem w' = mem w
          ∧ kafka_sorcery w' = Some (sorcery_of w)
          ∧ since w w' =
              [visit_producer cluster_C1 p;
               ast_sorcery_retrieve_by_fields_ev KAFKA_TOPIC
                 (Some ("producer", producer_id p)) ok] ++
              (if ok then []
               else [ast_log_ev LOG_WARNING
                       "Unable to retrieve topics from producer %s at cluster %s\n"
                       [AStr (producer_id p); AStr (cluster_id cluster_C1)]]).
Proof.
  intros E w p ok. split; [by vm_compute|].
  apply (producer_without_topics_gets_no_connection E cluster_C1 p w (sorcery_of w));
    [by vm_compute|].
  right. intros t Ht. vm_compute in Ht.
  apply elem_of_cons in Ht as [->|Ht]; [discriminate|by apply elem_of_nil in Ht].
Defined.

(** ** process_consumer and process_consumer_topic *)

Ltac conf_counts :=
  unfold conf_creations, conf_destructions, refusals, produces, flushes in *;
  counts;
  cbn [is_conf_creation is_conf_destruction is_refusal is_produce is_flush].

Lemma process_consumer_topics_log c k found w :
  ∃ evs, for_each (process_consumer_topic c k) found w =
           Done tt {| mem := mem w; kafka_sorcery := kafka_sorcery w;
                      history := history w ++ evs |}
         ∧ Forall (λ e, is_log e = true) evs.
Proof.
  revert w. induction found as [|t found IH]; intros [m s h]; cbn [for_each].
  - exists []. by rewrite app_nil_r.
  - unfold process_consumer_topic at 1. run.
    destruct (IH {| mem := m; kafka_sorcery := s; history := h ++ [ast_log_ev LOG_DEBUG3
       "Process Kafka topic %s for consumer %s on cluster %s\n"
       [AStr (topic_id t); AStr (consumer_id k); AStr (cluster_id c)]] |})
      as (evs & -> & Hlog).
    eexists (_ :: evs). cbn [mem kafka_sorcery history].
    split; [by rewrite <- app_assoc|]. by constructor.
Qed.

Ltac consumer_leaf :=
  show_formats; split_and!; [mem_eq|done|];
  eexists; (split; [history|]); conf_counts;
  split_and!; first [done | lia | (left; split; [done|]; cbn; lia)
                    | (right; split; [done|]; cbn; lia) | idtac].

Lemma process_consumer_counts E c k w srv :
  kafka_sorcery w = Some srv →
  match process_consumer E c k w with
  | Done r w' =>
      mem w' = mem w
      ∧ kafka_sorcery w' = Some srv
      ∧ ∃ evs, history w' = history w ++ evs
          ∧ attempts evs = 0%nat
          ∧ creations evs = 0%nat
          ∧ produces evs = 0%nat
          ∧ flushes evs = 0%nat
          ∧ topic_creations evs = 0%nat
          ∧ topic_destructions evs = 0%nat
          ∧ conf_creations evs = conf_destructions evs
          ∧ (conf_creations evs ≤ 2)%nat
          ∧ (r = -1 ∧ refusals evs = 1%nat ∨ r = 0 ∧ refusals evs = 0%nat)
  | Fault _ => False
  end.
Proof.
  destruct w as [m s h]. cbn [mem kafka_sorcery history]. intros ->.
  unfold process_consumer, ast_sorcery_retrieve_by_fields. hide_formats. run.
  call (build_rdkafka_cluster_config_spec E c _).
  2: done.
  destruct a as [cfg|]; run.
  2:{ destruct Hcall as (-> & -> & Hh). show_formats. split_and!; [done..|].
      destruct Hh as [->|(cfg & i & name & value & f & r & errstr & _ & Hr & ->)];
        (eexists; split; [history|]); conf_counts; [|destruct r; [| |done]];
        (split_and!; [done|done|done|done|done|done|done|lia|left; by split]). }
  destruct Hcall as (Hcfg & -> & -> & ->).
  step. step.
  2: consumer_leaf.
  match goal with
  | |- context [base.filter ?P ?l] => generalize (base.filter P l)
  end.
  intros found.
  destruct (decide (length found ≠ 0%nat)) as [Hfound|Hfound]; run.
  2: consumer_leaf.
  call (build_rdkafka_cluster_config_spec E c _).
  2: done.
  destruct a as [cfg2|]; run.
  2:{ destruct Hcall as (-> & -> & Hh). show_formats. split_and!; [mem_eq|done|].
      destruct Hh as [->|(cfg2 & i & name & value & f & r & errstr & _ & Hr & ->)];
        (eexists; split; [history|]); conf_counts; [|destruct r; [| |done]];
        (split_and!; [done|done|done|done|done|done|done|lia|left; by split]). }
  destruct Hcall as (Hcfg2 & -> & -> & ->).
  step.
  match goal with
  | |- context [for_each (process_consumer_topic c k) found ?w0] =>
      destruct (process_consumer_topics_log c k found w0) as (evs & -> & Hlog)
  end.
  run. show_formats. fresh_facts.
  all: split_and!; [mem_eq|done|].
  all: eexists; (split; [history|]); conf_counts.
  all: split_and!; [done|done|done|done|done|done|done|lia|right; by split].
Qed.

(** X8.  [process_consumer] opens no connection and creates no topic handle,
    and never uses a bad pointer.  It builds the cluster configuration
    (twice when the consumer has topics) only to destroy it again: as many
    configurations are destroyed as were created, at most two, and the
    memory is left as it was.  It returns -1 exactly when the library
    refused a configuration, and 0 otherwise. *)
Theorem consumer_never_connects E c k w srv :
  kafka_sorcery w = Some srv →
  match process_consumer E c k w with
  | Done r w' =>
      mem w' = mem w
      ∧ kafka_sorcery w' = Some srv
      ∧ attempts (since w w') = 0%nat
      ∧ topic_creations (since w w') = 0%nat
      ∧ conf_creations (since w w') = conf_destructions (since w w')
      ∧ (conf_creations (since w w') ≤ 2)%nat
      ∧ (r = -1 ∧ refusals (since w w') = 1%nat
         ∨ r = 0 ∧ refusals (since w w') = 0%nat)
  | Fault _ => False
  end.
Proof.
  intros Hs. pose proof (process_consumer_counts E c k w srv Hs) as Hspec.
  destruct (process_consumer E c k w) as [r w'|w']; [|done].
  destruct Hspec as (Hm & Hs' & evs & Hh & Ha & _ & _ & _ & Ht & _ & H).
  apply since_app in Hh. by rewrite Hh.
Qed.

Lemma consumer_never_connects_witness :
  let E := strict two_clusters in
  let w := loaded_world E in
  let k := {| consumer_id := "Kbad"; consumer_cluster_id := "bad" |} in
  kafka_sorcery w = Some (sorcery_of w)
  ∧ value_of (process_consumer E cluster_bad k w) = Some (-1)
  ∧ match process_consumer E cluster_bad k w with
    | Done r w' =>
        mem w' = mem w
        ∧ kafka_sorcery w' = Some (sorcery_of w)
        ∧ attempts (since w w') = 0%nat
        ∧ topic_creations (since w w') = 0%nat
        ∧ conf_creations (since w w') = conf_destructions (since w w')
        ∧ (conf_creations (since w w') ≤ 2)%nat
        ∧ (r = -1 ∧ refusals (since w w') = 1%nat
           ∨ r = 0 ∧ refusals (since w w') = 0%nat)
    | Fault _ => False
    end.
Proof.
  intros E w k. split; [by vm_compute|]. split; [by vm_compute|].
  apply (consumer_never_connects E cluster_bad k w (sorcery_of w)). by vm_compute.
Defined.

(** ** unload_module *)

(** X15.  Unloading after a successful load returns 0: the producer observer is
    removed, the CLI command is unregistered, the sorcery is released and
    [kafka_sorcery] is NULL again.  Nothing else is undone: the memory is
    left as the load left it, so a topic handle and a handle record that
    the load left behind stay allocated. *)
Theorem unload_after_load E w0 w :
  load_module E w0 = Done AST_MODULE_LOAD_SUCCESS w →
  ∃ w', unload_module w = Done 0 w'
        ∧ kafka_sorcery w' = None
        ∧ mem w' = mem w
        ∧ live_topic_handles w' = live_topic_handles w
        ∧ since w w' =
            [ast_sorcery_observer_remove_ev KAFKA_PRODUCER;
             ast_cli_unregister_multiple_ev;
             ast_sorcery_unref_ev].
Proof.
  intros Hload. pose proof (load_module_spec E w0) as Hspec.
  rewrite Hload in Hspec. clear Hload.
  destruct Hspec as (_ & evs & _ & _ & [(? & _)|(_ & [srv Hs] & _)]); [done|].
  destruct w as [m s h]. cbn [mem kafka_sorcery history] in *. subst s.
  unfold unload_module. run.
  eexists. split; [reflexivity|]. split_and!; [done..|].
  unfold since. cbn [history]. rewrite <- !app_assoc. apply drop_app_length.
Qed.

Lemma unload_after_load_witness :
  let E := all_succeed scenario in
  let w := loaded_world E in
  load_module E initial_world = Done AST_MODULE_LOAD_SUCCESS w
  ∧ size (live_topic_handles w) = 1%nat
  ∧ ∃ w', unload_module w = Done 0 w'
          ∧ kafka_sorcery w' = None
          ∧ mem w' = mem w
          ∧ live_topic_handles w' = live_topic_handles w
          ∧ since w w' =
              [ast_sorcery_observer_remove_ev KAFKA_PRODUCER;
               ast_cli_unregister_multiple_ev;
               ast_sorcery_unref_ev].
Proof.
  intros E w. split; [by vm_compute|]. split; [by vm_compute|].
  apply (unload_after_load E initial_world w). by vm_compute.
Defined.

(** ** When the load runs to its end *)

(** X12.  If records, topic configurations and topic handles can always be
    created, [load_module] never uses a bad pointer: it returns, whatever
    else fails (the sorcery, a cluster configuration, a connection, a
    produce, a flush); and so does a pass over the clusters when the
    sorcery is open. *)
Theorem load_completes_when_topics_bind E w w1 srv :
  (∀ h, ao2_alloc_ok E h = true) →
  (∀ h, rd_kafka_topic_conf_new_ok E h = true) →
  (∀ h name, rd_kafka_topic_new_ok E h name = true) →
  kafka_sorcery w1 = Some srv →
  (∃ r w', load_module E w = Done r w')
  ∧ (∃ w', process_all_clusters E w1 = Done tt w').
Proof.
  intros Ha Hc Ht Hs.
  assert (Hnf : ¬ bind_failure E).
  { intros (h & [Hf|[Hf|(name & Hf)]]); congruence. }
  split.
  - pose proof (load_module_spec E w) as Hspec.
    destruct (load_module E w) as [r w'|w']; [eauto|done].
  - pose proof (process_all_clusters_spec E w1 srv Hs) as Hspec.
    destruct (process_all_clusters E w1) as [[] w'|w']; [eauto|done].
Qed.

Lemma load_completes_when_topics_bind_witness :
  let E := strict two_clusters in
  let w1 := loaded_world E in
  (∀ h, ao2_alloc_ok E h = true)
  ∧ (∀ h, rd_kafka_topic_conf_new_ok E h = true)
  ∧ (∀ h name, rd_kafka_topic_new_ok E h name = true)
  ∧ kafka_sorcery w1 = Some (sorcery_of w1)
  ∧ (∃ r w', load_module E initial_world = Done r w')
  ∧ (∃ w', process_all_clusters E w1 = Done tt w').
Proof.
  intros E w1. split_and!; [done|done|done|by vm_compute|..];
    apply (load_completes_when_topics_bind E initial_world w1 (sorcery_of w1));
    first [done | by vm_compute].
Defined.

(** ** Topic handles are never destroyed *)

Lemma elem_of_handles m k :
  k ∈ handles m ↔ ∃ rk name opaque, m !! k = Some (RdKafkaTopic rk name opaque).
Proof.
  unfold handles. rewrite elem_of_dom. unfold is_Some.
  setoid_rewrite map_lookup_filter_Some. cbn. split.
  - intros (c & Hc & Hk). destruct c; try discriminate. eauto.
  - intros (rk & name & opaque & Hc). eauto.
Qed.

Lemma handles_insert_other m k c :
  is_topic_handle c = false → k ∉ handles m → handles (<[k := c]> m) = handles m.
Proof.
  intros Hc Hk. apply set_eq. intros i. rewrite !elem_of_handles.
  destruct (decide (k = i)) as [->|Hne].
  - rewrite lookup_insert_eq. split.
    + intros (rk & name & opaque & [= ->]). done.
    + intros Hi. by apply elem_of_handles in Hi.
  - by rewrite lookup_insert_ne.
Qed.

Lemma handles_insert_handle m k rk name opaque :
  handles (<[k := RdKafkaTopic rk name opaque]> m) = {[k]} ∪ handles m.
Proof.
  apply set_eq. intros i. rewrite elem_of_union, elem_of_singleton, !elem_of_handles.
  destruct (decide (k = i)) as [->|Hne].
  - rewrite lookup_insert_eq. naive_solver.
  - rewrite lookup_insert_ne by done. naive_solver.
Qed.

Lemma handles_delete_other m k : k ∉ handles m → handles (delete k m) = handles m.
Proof.
  intros Hk. apply set_eq. intros i. rewrite !elem_of_handles.
  destruct (decide (k = i)) as [->|Hne].
  - rewrite lookup_delete_eq. split; [naive_solver|].
    intros Hi. by apply elem_of_handles in Hi.
  - by rewrite lookup_delete_ne.
Qed.

Lemma not_handle_fresh m k : m !! k = None → k ∉ handles m.
Proof. intros Hk (rk & name & opaque & Hc)%elem_of_handles. congruence. Qed.

Lemma not_handle_other m k c :
  m !! k = Some c → is_topic_handle c = false → k ∉ handles m.
Proof.
  intros Hk Hc (rk & name & opaque & Hc')%elem_of_handles.
  rewrite Hk in Hc'. by simplify_eq.
Qed.

Lemma accumulates_refl w : accumulates w w.
Proof. exists []. rewrite app_nil_r. split_and!; first [done | cbn; lia]. Qed.

Lemma accumulates_trans w1 w2 w3 :
  accumulates w1 w2 → accumulates w2 w3 → accumulates w1 w3.
Proof.
  intros (evs1 & Hh1 & Hd1 & Hs1 & Hn1 & Hp1 & Hf1 & Hc1)
         (evs2 & Hh2 & Hd2 & Hs2 & Hn2 & Hp2 & Hf2 & Hc2).
  exists (evs1 ++ evs2).
  unfold topic_destructions, topic_creations, produces, flushes, conf_creations,
    conf_destructions, creations in *.
  rewrite !count_app. split_and!; [by rewrite Hh2, Hh1, app_assoc|lia|set_solver|lia..].
Qed.

(** Steps that create and destroy no topic handle. *)
Lemma accumulates_frame w w' evs :
  history w' = history w ++ evs →
  handles (mem w') = handles (mem w) →
  topic_creations evs = 0%nat → topic_destructions evs = 0%nat →
  produces evs = 0%nat → flushes evs = 0%nat →
  conf_creations evs = (conf_destructions evs + creations evs)%nat →
  accumulates w w'.
Proof.
  intros Hh Hm Hc Hd Hp Hf Hconf. exists evs. rewrite Hm, Hc.
  split_and!; [done|done|done|lia|done..].
Qed.

Section Triples.

Context (F : Prop) (R : world → world → Prop).
Context (R_refl : ∀ w, R w w) (R_trans : ∀ w1 w2 w3, R w1 w2 → R w2 w3 → R w1 w3).

Lemma triple_ret {A} (P : world → Prop) (a : A) (Q : A → world → Prop) :
  (∀ w, P w → Q a w) → triple F R P (ret a) Q.
Proof. intros HQ w Hw. cbn. auto. Qed.

Lemma triple_bind {A B} (P : world → Prop) (m : M A) (Q : A → world → Prop)
    (k : A → M B) (Q' : B → world → Prop) :
  triple F R P m Q → (∀ a, triple F R (Q a) (k a) Q') → triple F R P (bind m k) Q'.
Proof.
  intros Hm Hk w Hw. unfold bind. specialize (Hm w Hw).
  destruct (m w) as [a w1|w1]; [|done]. destruct Hm as [Ha HR1].
  specialize (Hk a w1 Ha). destruct (k a w1) as [b w2|w2]; [|done].
  destruct Hk as [Hb HR2]. eauto.
Qed.

Lemma triple_conseq {A} (P P' : world → Prop) (m : M A) (Q Q' : A → world → Prop) :
  (∀ w, P' w → P w) → (∀ a w, Q a w → Q' a w) →
  triple F R P m Q → triple F R P' m Q'.
Proof.
  intros HP HQ Hm w Hw. specialize (Hm w (HP w Hw)).
  destruct (m w) as [a w1|w1]; [|done]. destruct Hm. auto.
Qed.

Lemma triple_for_each {A} (Inv : world → Prop) (body : A → M unit) (l : list A) :
  (∀ x, x ∈ l → triple F R Inv (body x) (λ _, Inv)) →
  triple F R Inv (for_each body l) (λ _, Inv).
Proof.
  induction l as [|x l IH]; intros Hbody; cbn [for_each].
  - by apply triple_ret.
  - eapply triple_bind; [apply Hbody; by left|].
    intros ?. apply IH. intros y Hy. apply Hbody. by right.
Qed.

End Triples.

(** The leaves: logging, retrieval, and the functions whose runs are known. *)

Lemma triple_log F (P : world → Prop) level fmt args :
  (∀ m s h e, P {| mem := m; kafka_sorcery := s; history := h |} →
              P {| mem := m; kafka_sorcery := s; history := h ++ [e] |}) →
  triple F accumulates P (ast_log level fmt args) (λ _, P).
Proof.
  intros HP [m s h] Hw. cbn. split; [by apply HP|].
  eapply accumulates_frame; [reflexivity|done..].
Qed.

Lemma triple_exists {A X} F R (P : X → world → Prop) (m : M A) Q :
  (∀ x, triple F R (P x) m Q) → triple F R (λ w, ∃ x, P x w) m Q.
Proof. intros H w [x Hx]. by apply (H x). Qed.

Tactic Notation "seq" :=
  eapply (triple_bind _ _ accumulates_trans); [|intros ?].
Tactic Notation "seq" ident(x) :=
  eapply (triple_bind _ _ accumulates_trans); [|intros x].
Ltac finish := apply (triple_ret _ _ accumulates_refl).

Lemma triple_retrieve {A} E F srv type (objects : kafka_objects → list A) field filter :
  triple F accumulates (sorcery_open srv)
    (ast_sorcery_retrieve_by_fields E type objects field filter)
    (λ _, sorcery_open srv).
Proof.
  intros [m s h] Hw. unfold sorcery_open in *. cbn [kafka_sorcery] in Hw. subst s.
  unfold ast_sorcery_retrieve_by_fields. run. split; [done|].
  eapply accumulates_frame; [reflexivity|done..].
Qed.

(** [new_kafka_producer] creates and destroys no topic handle, produces
    and flushes nothing, and leaves no configuration behind. *)
Lemma new_kafka_producer_topics E c p w :
  match new_kafka_producer E c p w with
  | Done _ w' =>
      ∃ evs, history w' = history w ++ evs
        ∧ topic_creations evs = 0%nat ∧ topic_destructions evs = 0%nat
        ∧ produces evs = 0%nat ∧ flushes evs = 0%nat
        ∧ conf_creations evs = (conf_destructions evs + creations evs)%nat
  | Fault _ => False
  end.
Proof.
  destruct w as [m s h].
  unfold new_kafka_producer. hide_formats. run.
  call (build_rdkafka_cluster_config_spec E c _).
  2: done.
  destruct a as [cfg|]; run.
  - destruct Hcall as (Hcfg & -> & -> & ->).
    repeat step; show_formats; try lia.
    all: eexists; (split; [history|]); conf_counts; done.
  - destruct Hcall as (-> & -> & Hh).
    destruct Hh as [->|(cfg & k & name & value & f & r & errstr & _ & _ & ->)];
      (eexists; split; [reflexivity|]); conf_counts; done.
Qed.

Lemma triple_new_kafka_producer E F srv c p :
  triple F accumulates (sorcery_open srv) (new_kafka_producer E c p)
    (λ r w, sorcery_open srv w
            ∧ match r with
              | Some obj => ∃ rk, producer_live obj rk w
              | None => True
              end).
Proof.
  intros w Hw. unfold sorcery_open in *.
  pose proof (new_kafka_producer_spec E c p w) as Hspec.
  pose proof (new_kafka_producer_topics E c p w) as Htop.
  destruct (new_kafka_producer E c p w) as [[obj|] w'|w']; [| |done].
  - destruct Hspec as (rk & cfg & _ & Hobj & Hrk & Hne & Hm & Hs).
    destruct Htop as (evs & Hh & Hc & Hd & Hp & Hf & Hconf).
    split; [split; [congruence|]|].
    + exists rk, (cluster_settings c). rewrite Hm. split.
      * apply lookup_insert_eq.
      * rewrite lookup_insert_ne by done. apply lookup_insert_eq.
    + eapply accumulates_frame; [exact Hh| |done..].
      rewrite Hm. rewrite handles_insert_other; [|done|].
      * apply handles_insert_other; [done|by apply not_handle_fresh].
      * apply not_handle_fresh. by rewrite lookup_insert_ne.
  - destruct Hspec as (Hm & Hs & _).
    destruct Htop as (evs & Hh & Hc & Hd & Hp & Hf & Hconf).
    split; [split; [congruence|done]|].
    eapply accumulates_frame; [exact Hh|by rewrite Hm|done..].
Qed.

Lemma triple_process_producer_topic E srv obj rk st :
  triple (bind_failure E) accumulates
    (λ w, sorcery_open srv w ∧ producer_live obj rk w)
    (process_producer_topic E obj st)
    (λ _ w, sorcery_open srv w ∧ producer_live obj rk w).
Proof.
  intros w (Hs & kvs & Hobj & Hrk). unfold sorcery_open in *.
  pose proof (process_producer_topic_spec E obj st w _ _ _ _ Hobj Hrk) as Hx.
  destruct (process_producer_topic E obj st w) as [[] w'|]; [|done].
  destruct Hx as (t & rkt & tcfg & r1 & r2 & logs1 & logs2
                  & Hh & Hl1 & Hl2 & Ht & Hrkt & Htne & Hm & Hs').
  split; [split; [congruence|]|].
  - exists kvs. rewrite Hm. rewrite !lookup_insert_ne by addr_ne. done.
  - exists (visit_topic obj st :: ao2_alloc_ev (Some t)
            :: rd_kafka_topic_conf_new_ev (Some tcfg)
            :: rd_kafka_topic_conf_set_opaque_ev tcfg (Some t)
            :: ao2_ref_ev t 1
            :: rd_kafka_topic_new_ev rk (topic_name st) tcfg (Some rkt)
            :: rd_kafka_produce_ev rkt RD_KAFKA_PARTITION_UA RD_KAFKA_MSG_F_COPY "test" 4 r1
            :: logs1 ++ [rd_kafka_flush_ev rk 10000 r2] ++ logs2 ++ [ao2_ref_ev t (-1)]).
    assert (Hh' : handles (mem w') = {[rkt]} ∪ handles (mem w)).
    { rewrite Hm. rewrite handles_insert_other; [apply handles_insert_handle|done|].
      apply not_handle_fresh. by rewrite lookup_insert_ne. }
    split_and!.
    + exact Hh.
    + counts. done.
    + rewrite Hh'. set_solver.
    + rewrite Hh'. rewrite size_union, size_singleton.
      * counts. cbn. lia.
      * apply disjoint_singleton_l. by apply not_handle_fresh.
    + conf_counts. done.
    + conf_counts. done.
    + conf_counts. done.
Qed.

Lemma triple_release_producer F srv obj rk :
  triple F accumulates
    (λ w, sorcery_open srv w ∧ producer_live obj rk w)
    (ao2_ref obj (-1))
    (λ _, sorcery_open srv).
Proof.
  intros w (Hs & kvs & Hobj & Hrk).
  rewrite (release_producer w obj rk _ _ Hobj Hrk).
  split; [done|].
  eapply accumulates_frame; [reflexivity| |done..].
  cbn [mem]. rewrite !handles_delete_other; [done|by eapply not_handle_other|].
  rewrite handles_delete_other by (by eapply not_handle_other).
  by eapply not_handle_other.
Qed.

Lemma sorcery_open_log srv m s h e :
  sorcery_open srv {| mem := m; kafka_sorcery := s; history := h |} →
  sorcery_open srv {| mem := m; kafka_sorcery := s; history := h ++ [e] |}.
Proof. done. Qed.

Lemma triple_process_producer E srv c p :
  triple (bind_failure E) accumulates (sorcery_open srv) (process_producer E c p)
    (λ _, sorcery_open srv).
Proof.
  unfold process_producer, ast_debug3.
  seq; [apply triple_log, sorcery_open_log|].
  seq found; [apply triple_retrieve|].
  destruct found as [found|].
  - destruct (decide (length found ≠ 0%nat)); [|by finish].
    seq obj; [apply triple_new_kafka_producer|].
    destruct obj as [obj|]; [|finish; by intros w [? _]].
    eapply triple_conseq with
      (P := λ w, ∃ rk, sorcery_open srv w ∧ producer_live obj rk w)
      (Q := λ _, sorcery_open srv); [|done|].
    { intros w (Hs & rk & Hl). eauto. }
    apply triple_exists. intros rk.
    seq; [apply (triple_for_each _ _ accumulates_refl accumulates_trans);
          intros st _; apply triple_process_producer_topic|].
    seq; [apply triple_release_producer|].
    by finish.
  - seq; [apply triple_log, sorcery_open_log|]. by finish.
Qed.

Lemma triple_process_consumer E F srv c k :
  triple F accumulates (sorcery_open srv) (process_consumer E c k)
    (λ _, sorcery_open srv).
Proof.
  intros w Hw. pose proof (process_consumer_counts E c k w srv Hw) as Hspec.
  destruct (process_consumer E c k w) as [r w'|w']; [|done].
  destruct Hspec as (Hm & Hs & evs & Hh & _ & Hcr & Hp & Hf & Hc & Hd & Hconf & _).
  split; [done|].
  eapply accumulates_frame; [exact Hh|by rewrite Hm|done|done|done|done|].
  rewrite Hcr. lia.
Qed.

Lemma triple_process_cluster E srv c :
  triple (bind_failure E) accumulates (sorcery_open srv) (process_cluster E c)
    (λ _, sorcery_open srv).
Proof.
  unfold process_cluster, ast_debug3. cbv zeta.
  seq; [apply triple_log, sorcery_open_log|].
  seq found; [apply triple_retrieve|].
  seq.
  - destruct found as [found|]; [|apply triple_log, sorcery_open_log].
    apply (triple_for_each _ _ accumulates_refl accumulates_trans).
    intros p _. seq; [apply triple_process_producer|]. by finish.
  - seq found'; [apply triple_retrieve|].
    destruct found' as [found'|]; [|apply triple_log, sorcery_open_log].
    apply (triple_for_each _ _ accumulates_refl accumulates_trans).
    intros k _. seq; [apply triple_process_consumer|]. by finish.
Qed.

Lemma triple_process_all_clusters E srv :
  triple (bind_failure E) accumulates (sorcery_open srv) (process_all_clusters E)
    (λ _, sorcery_open srv).
Proof.
  unfold process_all_clusters.
  seq found; [apply triple_retrieve|].
  destruct found as [found|]; [|by finish].
  apply (triple_for_each _ _ accumulates_refl accumulates_trans).
  intros c _. apply triple_process_cluster.
Qed.


(** ** load_module, step by step *)

Lemma accumulates_same w m s h evs :
  mem w = m → history w ++ evs = h →
  topic_creations evs = 0%nat → topic_destructions evs = 0%nat →
  produces evs = 0%nat → flushes evs = 0%nat →
  conf_creations evs = (conf_destructions evs + creations evs)%nat →
  accumulates w {| mem := m; kafka_sorcery := s; history := h |}.
Proof. intros <- <- Hc Hd Hp Hf Hconf. by eapply accumulates_frame. Qed.

Lemma setting_up_sorcery w0 m s s' h :
  setting_up w0 {| mem := m; kafka_sorcery := s; history := h |} →
  setting_up w0 {| mem := m; kafka_sorcery := s'; history := h |}.
Proof. done. Qed.

Lemma setting_up_step w0 m s h e :
  is_setup e = true → is_open e = false → is_unref e = false →
  setting_up w0 {| mem := m; kafka_sorcery := s; history := h |} →
  setting_up w0 {| mem := m; kafka_sorcery := s; history := h ++ [e] |}.
Proof.
  intros He Ho Hu (Hm & evs & Hh & Hf & Hopen & Hunref). cbn [mem history] in *.
  split; [done|]. exists (evs ++ [e]). split_and!.
  - by rewrite Hh, app_assoc.
  - apply Forall_app. split; [done|]. by repeat constructor.
  - rewrite count_app, count_cons, Ho, Hopen. done.
  - rewrite count_app, count_cons, Hu, Hunref. done.
Qed.

Ltac setup_steps :=
  repeat (apply setting_up_step; [done|done|done|]);
  eapply setting_up_sorcery; eassumption.
Ltac quiet_step :=
  first [ eapply accumulates_same; [done|solve [history]|done..]
        | eapply (accumulates_same _ _ _ _ []); [done|apply app_nil_r|done..] ].

Section LoadModule.

Context (E : env) (w0 : world).

Lemma triple_sorcery_object_register tys fs obs type :
  triple (bind_failure E) accumulates (registering w0 tys fs obs)
    (sorcery_object_register E type)
    (λ failed w,
       if failed then failing_setup w0 w
       else registering w0 (tys ++ [type])
              (fs ++ [mk_field type "type" EmptyString OPT_NOOP_T]) obs w).
Proof.
  intros [m s h] ([objs Hs] & Hup). cbn [kafka_sorcery] in Hs. subst s.
  unfold sorcery_object_register. hide_formats. run.
  repeat step; show_formats.
  all: split; [|quiet_step].
  all: first [ split; [by eexists|] | split; [eexists; reflexivity|] ].
  all: setup_steps.
Qed.

Lemma triple_field_register tys fs obs type name default opt :
  triple (bind_failure E) accumulates (registering w0 tys fs obs)
    (ast_sorcery_object_field_register type name default opt)
    (λ _, registering w0 tys (fs ++ [mk_field type name default opt]) obs).
Proof.
  intros [m s h] ([objs Hs] & Hup). cbn [kafka_sorcery] in Hs. subst s.
  run. split; [|quiet_step].
  split; [eexists; reflexivity|]. setup_steps.
Qed.

Lemma triple_observer_add tys fs obs type :
  triple (bind_failure E) accumulates (registering w0 tys fs obs)
    (ast_sorcery_observer_add E type)
    (λ failed w,
       if failed then failing_setup w0 w else registering w0 tys fs (obs ++ [type]) w).
Proof.
  intros [m s h] ([objs Hs] & Hup). cbn [kafka_sorcery] in Hs. subst s.
  run. repeat step.
  all: split; [|quiet_step].
  all: first [ split; [by eexists|] | split; [eexists; reflexivity|] ].
  all: setup_steps.
Qed.

Lemma triple_decline :
  triple (bind_failure E) accumulates (failing_setup w0) decline (load_result w0).
Proof.
  intros [m s h] ([srv Hs] & Hm & evs & Hh & Hf & Hopen & Hunref).
  cbn [mem kafka_sorcery history] in *. subst s.
  run. split; [|quiet_step]. left. split; [done|].
  unfold declined_cleanly. cbn [mem kafka_sorcery].
  rewrite (since_app w0 _ (evs ++ [ast_sorcery_unref_ev]))
    by (cbn [history]; by rewrite Hh, app_assoc).
  split_and!; [done|done| |].
  - apply Forall_app. split; [done|]. by repeat constructor.
  - rewrite !count_app, Hopen, Hunref. done.
Qed.

Lemma triple_failing_log level fmt args :
  triple (bind_failure E) accumulates (failing_setup w0) (ast_log level fmt args)
    (λ _, failing_setup w0).
Proof.
  intros [m s h] [Hs Hup]. run. split; [|quiet_step].
  split; [done|]. by apply setting_up_step.
Qed.

Lemma triple_open :
  triple (bind_failure E) accumulates (λ w, mem w = mem w0 ∧ history w = history w0)
    (ast_sorcery_open E)
    (λ opened w,
       mem w = mem w0
       ∧ match opened with
         | None => history w = history w0 ++ [ast_sorcery_open_ev false]
         | Some srv =>
             history w = history w0 ++ [ast_sorcery_open_ev true]
             ∧ srv = {| object_types := []; object_fields := [];
                        observed_types := []; loaded := no_objects |}
         end).
Proof.
  intros [m s h] [Hm Hh]. cbn [mem history] in *. run.
  destruct (ast_sorcery_open_ok E h).
  all: split; [by rewrite Hh|quiet_step].
Qed.

Lemma triple_load tys fs obs :
  triple (bind_failure E) accumulates (has_schema tys fs obs) (ast_sorcery_load E)
    (λ _, has_schema tys fs obs).
Proof.
  intros w [objs Hs]. pose proof (ast_sorcery_load_spec E w _ Hs) as Hspec.
  destruct (ast_sorcery_load E w) as [[] w'|w']; [|done].
  destruct Hspec as (Hm & [objs' Hs'] & evs & Hh & Hf).
  split; [by exists objs'|].
  pose proof (count_reload_events is_creation evs) as Hcr.
  pose proof (count_reload_events is_conf_creation evs) as Hcc.
  pose proof (count_reload_events is_conf_destruction evs) as Hcd.
  eapply accumulates_frame; [exact Hh|by rewrite Hm|..].
  5:{ unfold conf_creations, conf_destructions, creations.
      rewrite Hcr, Hcc, Hcd; first [done | by intros []]. }
  all: apply count_reload_events; try done; by intros [].
Qed.

Lemma triple_pass tys fs obs :
  triple (bind_failure E) accumulates (has_schema tys fs obs) (process_all_clusters E)
    (λ _, has_schema tys fs obs).
Proof.
  apply triple_exists. intros objs.
  eapply triple_conseq; [| |apply triple_process_all_clusters]; [done|].
  intros ? w Hw. by exists objs.
Qed.

Lemma triple_cli_register (P : world → Prop) :
  (∀ m s h e, P {| mem := m; kafka_sorcery := s; history := h |} →
              P {| mem := m; kafka_sorcery := s; history := h ++ [e] |}) →
  triple (bind_failure E) accumulates P (emit ast_cli_register_multiple_ev) (λ _, P).
Proof. intros HP [m s h] Hw. cbn. split; [by apply HP|quiet_step]. Qed.

Lemma load_module_triple :
  triple (bind_failure E) accumulates (λ w, mem w = mem w0 ∧ history w = history w0)
    (load_module E) (load_result w0).
Proof.
  unfold load_module.
  seq opened; [apply triple_open|].
  destruct opened as [srv|].
  - eapply triple_conseq with (P := λ w, mem w = mem w0
        ∧ history w = history w0 ++ [ast_sorcery_open_ev true]
        ∧ srv = {| object_types := []; object_fields := [];
                   observed_types := []; loaded := no_objects |})
      (Q := (load_result w0)); [by intros w (? & ? & ?)|done|].
    seq.
    { instantiate (1 := λ _, registering w0 [] [] []).
      intros [m s h] (Hm & Hh & ->). cbn [mem history] in *. run.
      split; [|quiet_step]. split; [by eexists|].
      split; [done|]. exists [ast_sorcery_open_ev true]. cbn [history].
      split_and!; [done|by repeat constructor|done|done]. }
    seq failed; [apply triple_sorcery_object_register|].
    destruct failed; [apply triple_decline|].
    do 8 (seq; [apply triple_field_register|]).
    seq failed; [apply triple_sorcery_object_register|].
    destruct failed; [apply triple_decline|].
    do 3 (seq; [apply triple_field_register|]).
    seq failed; [apply triple_sorcery_object_register|].
    destruct failed; [apply triple_decline|].
    seq; [apply triple_field_register|].
    seq failed; [apply triple_observer_add|].
    destruct failed; [seq; [apply triple_failing_log|apply triple_decline]|].
    seq failed; [apply triple_sorcery_object_register|].
    destruct failed; [apply triple_decline|].
    seq; [apply triple_field_register|].
    eapply triple_conseq with (Q := (load_result w0));
      [intros w [Hs _]; exact Hs|done|].
    seq; [apply triple_load|].
    seq; [apply triple_pass|].
    seq; [apply triple_cli_register|].
    { by intros m s h e [objs Hs]; exists objs. }
    finish. intros w Hs. right. split; [done|exact Hs].
  - seq.
    { instantiate (1 := λ _ w, kafka_sorcery w = None ∧ mem w = mem w0
                                ∧ history w = history w0 ++ [ast_sorcery_open_ev false]).
      intros [m s h] (Hm & Hh). cbn [mem history] in *. run.
      split; [done|quiet_step]. }
    seq.
    { instantiate (1 := λ _ w, kafka_sorcery w = None ∧ mem w = mem w0
        ∧ ∃ e, is_setup e = true ∧ is_open e = false ∧ is_unref e = false
               ∧ history w = history w0 ++ [ast_sorcery_open_ev false; e]).
      intros [m s h] (Hs & Hm & Hh). cbn [mem kafka_sorcery history] in *. run.
      split; [|quiet_step]. split_and!; [done|done|].
      eexists. split_and!; [| | |by rewrite Hh, <- app_assoc]; done. }
    finish. intros w (Hs & Hm & e & He & Ho & Hu & Hh). left. split; [done|].
    unfold declined_cleanly. rewrite (since_app _ _ _ Hh).
    split_and!; [done|done|by repeat constructor|].
    rewrite !count_cons, Ho, Hu. done.
Qed.

End LoadModule.

(** ** What a pass and a load leave behind *)

Lemma accumulates_since w w' :
  accumulates w w' →
  (live_topic_handles w ⊆ live_topic_handles w'
   ∧ topic_destructions (since w w') = 0%nat
   ∧ size (live_topic_handles w')
     = (size (live_topic_handles w) + topic_creations (since w w'))%nat)
  ∧ (produces (since w w') = topic_creations (since w w')
     ∧ flushes (since w w') = topic_creations (since w w'))
  ∧ conf_creations (since w w')
    = (conf_destructions (since w w') + creations (since w w'))%nat.
Proof.
  intros (evs & Hh & Hd & Hs & Hn & Hp & Hf & Hc). apply since_app in Hh.
  by rewrite Hh.
Qed.

Lemma pass_accumulates E w srv :
  kafka_sorcery w = Some srv →
  match process_all_clusters E w with
  | Done _ w' => accumulates w w'
  | Fault _ => bind_failure E
  end.
Proof.
  intros Hs. pose proof (triple_process_all_clusters E srv w Hs) as Hspec.
  destruct (process_all_clusters E w) as [[] w'|w']; [|done]. by destruct Hspec.
Qed.

Lemma load_outcome E w :
  match load_module E w with
  | Done r w' =>
      accumulates w w'
      ∧ (r = AST_MODULE_LOAD_DECLINE ∧ declined_cleanly w w'
         ∨ r = AST_MODULE_LOAD_SUCCESS
           ∧ has_schema kafka_types kafka_fields [KAFKA_PRODUCER] w')
  | Fault _ => bind_failure E
  end.
Proof.
  pose proof (load_module_triple E w w (conj eq_refl eq_refl)) as Hspec.
  destruct (load_module E w) as [r w'|w']; [|done]. by destruct Hspec.
Qed.

(** X9.  A pass over the clusters that runs to its end destroys no topic
    handle: every topic handle that was live before it is live after it,
    and so is every one it created, although the connections they were
    created on have been destroyed by then.  The same holds of a whole
    [load_module]. *)
Theorem pass_keeps_every_topic_handle E w srv w0 :
  kafka_sorcery w = Some srv →
  match process_all_clusters E w with
  | Done _ w' =>
      live_topic_handles w ⊆ live_topic_handles w'
      ∧ topic_destructions (since w w') = 0%nat
      ∧ size (live_topic_handles w')
        = (size (live_topic_handles w) + topic_creations (since w w'))%nat
  | Fault _ => bind_failure E
  end
  ∧ match load_module E w0 with
    | Done _ w' =>
        live_topic_handles w0 ⊆ live_topic_handles w'
        ∧ topic_destructions (since w0 w') = 0%nat
        ∧ size (live_topic_handles w')
          = (size (live_topic_handles w0) + topic_creations (since w0 w'))%nat
    | Fault _ => bind_failure E
    end.
Proof.
  intros Hs. split.
  - pose proof (pass_accumulates E w srv Hs) as Hspec.
    destruct (process_all_clusters E w) as [[] w'|w']; [|done].
    by apply accumulates_since in Hspec as (? & _).
  - pose proof (load_outcome E w0) as Hspec.
    destruct (load_module E w0) as [r w'|w']; [|done].
    destruct Hspec as [Hacc _]. by apply accumulates_since in Hacc as (? & _).
Qed.

Lemma pass_keeps_every_topic_handle_witness :
  let E := all_succeed scenario in
  let w := loaded_world E in
  let w' := world_of (process_all_clusters E w) in
  kafka_sorcery w = Some (sorcery_of w)
  ∧ size (live_topic_handles w) = 1%nat
  ∧ size (live_topic_handles w') = 2%nat
  ∧ live_clients w' = ∅
  ∧ match process_all_clusters E w with
    | Done _ w' =>
        live_topic_handles w ⊆ live_topic_handles w'
        ∧ topic_destructions (since w w') = 0%nat
        ∧ size (live_topic_handles w')
          = (size (live_topic_handles w) + topic_creations (since w w'))%nat
    | Fault _ => bind_failure E
    end
  ∧ match load_module E initial_world with
    | Done _ w' =>
        live_topic_handles initial_world ⊆ live_topic_handles w'
        ∧ topic_destructions (since initial_world w') = 0%nat
        ∧ size (live_topic_handles w')
          = (size (live_topic_handles initial_world)
             + topic_creations (since initial_world w'))%nat
    | Fault _ => bind_failure E
    end.
Proof.
  intros E w w'. do 4 (split; [by vm_compute|]).
  apply (pass_keeps_every_topic_handle E w (sorcery_of w) initial_world).
  by vm_compute.
Defined.

(** X10.  In a pass that runs to its end, and in a whole [load_module], one
    message is produced and one flush is made for every topic handle that
    is created: loading the module sends a message to every topic it
    binds. *)
Theorem one_message_per_topic_handle E w srv w0 :
  kafka_sorcery w = Some srv →
  match process_all_clusters E w with
  | Done _ w' =>
      produces (since w w') = topic_creations (since w w')
      ∧ flushes (since w w') = topic_creations (since w w')
  | Fault _ => bind_failure E
  end
  ∧ match load_module E w0 with
    | Done _ w' =>
        produces (since w0 w') = topic_creations (since w0 w')
        ∧ flushes (since w0 w') = topic_creations (since w0 w')
    | Fault _ => bind_failure E
    end.
Proof.
  intros Hs. split.
  - pose proof (pass_accumulates E w srv Hs) as Hspec.
    destruct (process_all_clusters E w) as [[] w'|w']; [|done].
    by apply accumulates_since in Hspec as (_ & ? & _).
  - pose proof (load_outcome E w0) as Hspec.
    destruct (load_module E w0) as [r w'|w']; [|done].
    destruct Hspec as [Hacc _]. by apply accumulates_since in Hacc as (_ & ? & _).
Qed.

Lemma one_message_per_topic_handle_witness :
  let E := all_succeed scenario in
  let w := loaded_world E in
  kafka_sorcery w = Some (sorcery_of w)
  ∧ produces (since initial_world w) = 1%nat
  ∧ match process_all_clusters E w with
    | Done _ w' =>
        produces (since w w') = topic_creations (since w w')
        ∧ flushes (since w w') = topic_creations (since w w')
    | Fault _ => bind_failure E
    end
  ∧ match load_module E initial_world with
    | Done _ w' =>
        produces (since initial_world w') = topic_creations (since initial_world w')
        ∧ flushes (since initial_world w') = topic_creations (since initial_world w')
    | Fault _ => bind_failure E
    end.
Proof.
  intros E w. do 2 (split; [by vm_compute|]).
  apply (one_message_per_topic_handle E w (sorcery_of w) initial_world).
  by vm_compute.
Defined.

(** X11.  No cluster configuration is left behind by a pass that runs to its
    end, or by a whole [load_module]: every configuration that
    [rd_kafka_conf_new] gave was either destroyed again or went into a
    connection that was created. *)
Theorem no_configuration_left_behind E w srv w0 :
  kafka_sorcery w = Some srv →
  match process_all_clusters E w with
  | Done _ w' =>
      conf_creations (since w w')
      = (conf_destructions (since w w') + creations (since w w'))%nat
  | Fault _ => bind_failure E
  end
  ∧ match load_module E w0 with
    | Done _ w' =>
        conf_creations (since w0 w')
        = (conf_destructions (since w0 w') + creations (since w0 w'))%nat
    | Fault _ => bind_failure E
    end.
Proof.
  intros Hs. split.
  - pose proof (pass_accumulates E w srv Hs) as Hspec.
    destruct (process_all_clusters E w) as [[] w'|w']; [|done].
    by apply accumulates_since in Hspec as (_ & _ & ?).
  - pose proof (load_outcome E w0) as Hspec.
    destruct (load_module E w0) as [r w'|w']; [|done].
    destruct Hspec as [Hacc _]. by apply accumulates_since in Hacc as (_ & _ & ?).
Qed.

Lemma no_configuration_left_behind_witness :
  let E := strict two_clusters in
  let w := loaded_world E in
  kafka_sorcery w = Some (sorcery_of w)
  ∧ conf_creations (since initial_world w) = 4%nat
  ∧ match process_all_clusters E w with
    | Done _ w' =>
        conf_creations (since w w')
        = (conf_destructions (since w w') + creations (since w w'))%nat
    | Fault _ => bind_failure E
    end
  ∧ match load_module E initial_world with
    | Done _ w' =>
        conf_creations (since initial_world w')
        = (conf_destructions (since initial_world w')
           + creations (since initial_world w'))%nat
    | Fault _ => bind_failure E
    end.
Proof.
  intros E w. do 2 (split; [by vm_compute|]).
  apply (no_configuration_left_behind E w (sorcery_of w) initial_world).
  by vm_compute.
Defined.

(** ** The two outcomes of load_module *)

Lemma count_setup f evs :
  (∀ e, is_setup e = true → f e = false) →
  Forall (λ e, is_setup e = true) evs → count f evs = 0%nat.
Proof.
  intros Hf. induction 1 as [|e l He _ IH]; [done|].
  by rewrite count_cons, IH, Hf.
Qed.

(** X13.  A [load_module] that declines has only set up the sorcery: it called
    nothing of librdkafka, loaded no object, registered no CLI command,
    and left the memory as it was; [kafka_sorcery] is NULL, and the
    sorcery, if it was opened, was released once. *)
Theorem declined_load_is_clean E w :
  match load_module E w with
  | Done r w' =>
      r = AST_MODULE_LOAD_SUCCESS
      ∨ (mem w' = mem w
         ∧ kafka_sorcery w' = None
         ∧ Forall (λ e, is_setup e = true) (since w w')
         ∧ count is_open (since w w') = count is_unref (since w w')
         ∧ attempts (since w w') = 0%nat
         ∧ conf_creations (since w w') = 0%nat
         ∧ settings_passed (since w w') = [])
  | Fault _ => bind_failure E
  end.
Proof.
  pose proof (load_outcome E w) as Hspec.
  destruct (load_module E w) as [r w'|w']; [|done].
  destruct Hspec as [_ [[_ (Hm & Hs & Hf & Hc)]|[? _]]]; [right|by left].
  split_and!; [done..| | |].
  - by apply count_setup; [intros []|].
  - by apply count_setup; [intros []|].
  - clear Hc. induction Hf as [|e l He _ IH]; [done|].
    destruct e; try discriminate He; exact IH.
Qed.

(** X14.  A [load_module] that succeeds leaves the sorcery with the four object
    types in the order cluster, topic, producer, consumer, with the
    seventeen fields of [kafka_fields] and their defaults, and with
    producer as the one observed type: loading the objects and the pass
    over the clusters change none of this. *)
Theorem successful_load_registers_schema E w :
  match load_module E w with
  | Done r w' =>
      r = AST_MODULE_LOAD_DECLINE
      ∨ ∃ srv, kafka_sorcery w' = Some srv
               ∧ object_types srv = kafka_types
               ∧ object_fields srv = kafka_fields
               ∧ observed_types srv = [KAFKA_PRODUCER]
  | Fault _ => bind_failure E
  end.
Proof.
  pose proof (load_outcome E w) as Hspec.
  destruct (load_module E w) as [r w'|w']; [|done].
  destruct Hspec as [_ [[? _]|[_ [objs Hs]]]]; [by left|right].
  eexists. split; [exact Hs|done].
Qed.

(** ** kafka_producer_topic_destructor *)

(** X4.  After a bind that gave a topic handle, two releases of the handle
    record undo it: the first leaves the record with one reference, the
    second runs the destructor, which destroys the topic handle, and frees
    the record; the memory is then as it was before the bind. *)
Theorem topic_bind_release_round_trip E producer st w n rk ty kvs t w1 :
  mem w !! producer = Some (Ao2 n (kafka_producer (Some rk))) →
  mem w !! rk = Some (RdKafka ty kvs) →
  new_kafka_producer_topic E producer st w = Done (Some t) w1 →
  ∃ w2 w3 rkt,
    ao2_ref t (-1) w1 = Done tt w2
    ∧ refcount_of w2 t = Some 1
    ∧ since w1 w2 = [ao2_ref_ev t (-1)]
    ∧ ao2_ref t (-1) w2 = Done tt w3
    ∧ mem w3 = mem w
    ∧ since w2 w3 =
        [ao2_ref_ev t (-1);
         ast_log_ev LOG_DEBUG3 "Destroy rd_kafka_topic_t object %p on producer topic %p\n"
           [APtr (Some rkt); APtr (Some t)];
         rd_kafka_topic_destroy_ev rkt;
         ao2_destroy_ev t].
Proof.
  intros Hp Hrk Hnew.
  pose proof (new_kafka_producer_topic_spec E producer st w n rk ty kvs Hp Hrk) as Hspec.
  rewrite Hnew in Hspec. clear Hnew.
  destruct Hspec as (rkt & cfg & Hh & Ht & Hrkt & Hne & Hm & Hs).
  destruct w1 as [m1 s1 h1]. cbn [mem kafka_sorcery history] in *. subst m1.
  eexists _, _, rkt. split.
  { run. repeat step; try lia. reflexivity. }
  split; [unfold refcount_of; cbn [mem]; by simplify_map_eq|].
  split; [unfold since; cbn [history]; apply drop_app_length|].
  split.
  { run. repeat step; try lia. reflexivity. }
  split; [cbn [mem]; mem_eq|].
  unfold since. cbn [history]. generalize (h1 ++ [ao2_ref_ev t (-1)]). intros h2.
  rewrite <- !app_assoc. apply drop_app_length.
Qed.

Lemma topic_bind_release_round_trip_witness :
  let E := all_succeed scenario in
  let w := world_of (new_kafka_producer E cluster_C1 producer_P1 initial_world) in
  let w1 := world_of (new_kafka_producer_topic E 1%nat topic_T1 w) in
  new_kafka_producer_topic E 1%nat topic_T1 w = Done (Some 3%nat) w1
  ∧ ∃ w2 w3 rkt,
      ao2_ref 3%nat (-1) w1 = Done tt w2
      ∧ refcount_of w2 3%nat = Some 1
      ∧ since w1 w2 = [ao2_ref_ev 3%nat (-1)]
      ∧ ao2_ref 3%nat (-1) w2 = Done tt w3
      ∧ mem w3 = mem w
      ∧ since w2 w3 =
          [ao2_ref_ev 3%nat (-1);
           ast_log_ev LOG_DEBUG3
             "Destroy rd_kafka_topic_t object %p on producer topic %p\n"
             [APtr (Some rkt); APtr (Some 3%nat)];
           rd_kafka_topic_destroy_ev rkt;
           ao2_destroy_ev 3%nat].
Proof.
  intros E w w1. split; [by vm_compute|].
  apply (topic_bind_release_round_trip E 1%nat topic_T1 w 1 2%nat RD_KAFKA_PRODUCER
           (cluster_settings cluster_C1) 3%nat w1); by vm_compute.
Defined.

(** ** The alloc callbacks of the sorcery objects *)

(** X16.  Each of the four alloc callbacks gives an object exactly when
    [ast_sorcery_generic_alloc] gives one and [ast_string_field_init]
    succeeds on it.  When the generic allocation fails nothing else is
    done; when the string fields cannot be set up the object is released
    again, so that its destructor runs and frees the string fields.  The
    module's memory and [kafka_sorcery] are not touched. *)
Theorem alloc_callback_releases_on_failure E type alloc name w :
  (type, alloc) ∈ alloc_callbacks E →
  let ok1 := ast_sorcery_generic_alloc_ok E (history w) in
  let ok2 := ast_string_field_init_ok E
               (history w ++ [ast_sorcery_generic_alloc_ev true]) in
  ∃ w', alloc name w = Done (ok1 && ok2) w'
        ∧ mem w' = mem w
        ∧ kafka_sorcery w' = kafka_sorcery w
        ∧ since w w' =
            ast_sorcery_generic_alloc_ev ok1 ::
            (if ok1 then
               ast_string_field_init_ev ok2 ::
               (if ok2 then
                  [ast_log_ev LOG_DEBUG3 ("Allocated Kafka " +:+ type +:+ " %s (%p)\n")
                     [AStr name; AObj type name]]
                else
                  [ast_log_ev LOG_DEBUG3 ("Destroyed Kafka " +:+ type +:+ " %s (%p)\n")
                     [AStr EmptyString; AObj type EmptyString];
                   ast_string_field_free_memory_ev])
             else []).
Proof.
  intros Hin ok1 ok2. destruct w as [m s h]. cbn [mem kafka_sorcery history] in *.
  unfold alloc_callbacks in Hin.
  repeat (apply elem_of_cons in Hin as [[= -> ->]|Hin]);
    [| | | |by apply elem_of_nil in Hin].
  all: unfold sorcery_kafka_cluster_alloc, sorcery_kafka_topic_alloc,
         sorcery_kafka_producer_alloc, sorcery_kafka_consumer_alloc,
         sorcery_kafka_cluster_destructor, sorcery_kafka_topic_destructor,
         sorcery_kafka_producer_destructor, sorcery_kafka_consumer_destructor,
         ast_sorcery_generic_alloc, ast_string_field_init.
  all: run; fold ok1.
  all: destruct ok1; run; [fold ok2; destruct ok2; run|].
  all: eexists; (split; [reflexivity|]); split_and!; [done|done|].
  all: unfold since; cbn [history]; rewrite <- ?app_assoc; apply drop_app_length.
Qed.

Lemma alloc_callback_releases_on_failure_witness :
  let E := all_succeed scenario in
  let w := initial_world in
  let ok1 := ast_sorcery_generic_alloc_ok E (history w) in
  let ok2 := ast_string_field_init_ok E
               (history w ++ [ast_sorcery_generic_alloc_ev true]) in
  (KAFKA_TOPIC, sorcery_kafka_topic_alloc E) ∈ alloc_callbacks E
  ∧ ∃ w', sorcery_kafka_topic_alloc E "T1" w = Done (ok1 && ok2) w'
          ∧ mem w' = mem w
          ∧ kafka_sorcery w' = kafka_sorcery w
          ∧ since w w' =
              ast_sorcery_generic_alloc_ev ok1 ::
              (if ok1 then
                 ast_string_field_init_ev ok2 ::
                 (if ok2 then
                    [ast_log_ev LOG_DEBUG3
                       ("Allocated Kafka " +:+ KAFKA_TOPIC +:+ " %s (%p)\n")
                       [AStr "T1"; AObj KAFKA_TOPIC "T1"]]
                  else
                    [ast_log_ev LOG_DEBUG3
                       ("Destroyed Kafka " +:+ KAFKA_TOPIC +:+ " %s (%p)\n")
                       [AStr EmptyString; AObj KAFKA_TOPIC EmptyString];
                     ast_string_field_free_memory_ev])
               else []).
Proof.
  intros E w ok1 ok2.
  assert (Hin : (KAFKA_TOPIC, sorcery_kafka_topic_alloc E) ∈ alloc_callbacks E).
  { unfold alloc_callbacks. apply list_elem_of_further, list_elem_of_here. }
  split; [exact Hin|].
  exact (alloc_callback_releases_on_failure E KAFKA_TOPIC (sorcery_kafka_topic_alloc E)
           "T1" w Hin).
Defined.

(** ** Counting the connections of a pass *)

Lemma tally_refl w : tally 0 0 w w.
Proof. exists []. by rewrite app_nil_r. Qed.

Lemma tally_trans a b a' b' w1 w2 w3 :
  tally a b w1 w2 → tally a' b' w2 w3 → tally (a + a') (b + b') w1 w3.
Proof.
  intros (evs1 & Hh1 & <- & <-) (evs2 & Hh2 & <- & <-).
  exists (evs1 ++ evs2). unfold creations, destructions. rewrite !count_app.
  split; [by rewrite Hh2, Hh1, app_assoc|done].
Qed.

Lemma tally_quiet w w1 w2 : tally 0 0 w w1 → tally 0 0 w1 w2 → tally 0 0 w w2.
Proof. apply (tally_trans 0 0 0 0). Qed.

Lemma triple_bind_tally {A B} F a b a' b' (P : world → Prop) (m : M A)
    (Q : A → world → Prop) (k : A → M B) (Q' : B → world → Prop) :
  triple F (tally a b) P m Q →
  (∀ x, triple F (tally a' b') (Q x) (k x) Q') →
  triple F (tally (a + a') (b + b')) P (bind m k) Q'.
Proof.
  intros Hm Hk w Hw. unfold bind. specialize (Hm w Hw).
  destruct (m w) as [x w1|w1]; [|done]. destruct Hm as [Hx HR1].
  specialize (Hk x w1 Hx). destruct (k x w1) as [y w2|w2]; [|done].
  destruct Hk as [Hy HR2]. split; [done|]. by eapply tally_trans.
Qed.

Lemma triple_tally_cast {A} F a b a' b' (P : world → Prop) (m : M A) Q :
  a = a' → b = b' → triple F (tally a b) P m Q → triple F (tally a' b') P m Q.
Proof. by intros -> ->. Qed.

Lemma triple_pure {A} F R (φ : Prop) (P : world → Prop) (m : M A) Q :
  (φ → triple F R P m Q) → triple F R (λ w, φ ∧ P w) m Q.
Proof. intros H w [Hφ Hw]. by apply H. Qed.

Lemma triple_for_each_tally {A} F (f : A → nat) (Inv : world → Prop)
    (body : A → M unit) (l : list A) :
  (∀ x, x ∈ l → triple F (tally (f x) (f x)) Inv (body x) (λ _, Inv)) →
  triple F (tally (sum_list_with f l) (sum_list_with f l)) Inv
    (for_each body l) (λ _, Inv).
Proof.
  induction l as [|x l IH]; intros Hbody; cbn [for_each sum_list_with].
  - apply triple_ret; [apply tally_refl|done].
  - eapply triple_bind_tally; [apply Hbody; by left|].
    intros ?. apply IH. intros y Hy. apply Hbody. by right.
Qed.

Lemma sum_list_with_filter {A} (P : A → Prop) `{!∀ x, Decision (P x)}
    (b : A → bool) (l : list A) :
  sum_list_with (λ x, if b x then 1 else 0)%nat (filter P l)
  = length (filter (λ x, P x ∧ b x = true) l).
Proof.
  induction l as [|x l IH]; [done|].
  rewrite !filter_cons. destruct (decide (P x)) as [HP|HP].
  - cbn [sum_list_with]. rewrite IH. destruct (b x) eqn:Hb.
    + by rewrite decide_True.
    + rewrite decide_False; [done|]. by intros [_ ?].
  - rewrite decide_False; [done|]. by intros [? _].
Qed.

(** What the sorcery finds, in the words of the configuration. *)
Lemma producers_found objs c :
  base.filter (λ x, matches producer_field (Some ("cluster", cluster_id c)) x = true)
    (producers objs)
  = filter (λ p, producer_cluster_id p = cluster_id c) (producers objs).
Proof.
  apply list_filter_iff. intros p. unfold matches, producer_field.
  rewrite decide_True by done. rewrite bool_decide_eq_true.
  split; [by intros [=]|by intros ->].
Qed.

Lemma topics_found objs p :
  length (base.filter (λ x, matches topic_field (Some ("producer", producer_id p)) x = true)
            (topics objs)) ≠ 0%nat
  ↔ has_topics objs p = true.
Proof.
  unfold has_topics. rewrite bool_decide_eq_true, Exists_exists.
  assert (Hm : ∀ t, matches topic_field (Some ("producer", producer_id p)) t = true
                    ↔ topic_producer_id t = producer_id p).
  { intros t. unfold matches, topic_field. rewrite decide_False by done.
    rewrite decide_True by done. rewrite bool_decide_eq_true.
    split; [by intros [=]|by intros ->]. }
  split.
  - intros Hlen. destruct (base.filter _ _) as [|t l] eqn:Hf; [done|].
    assert (Ht : t ∈ t :: l) by left. rewrite <- Hf in Ht.
    apply list_elem_of_filter in Ht as [Ht Hin]. exists t. split; [done|by apply Hm].
  - intros (t & Hin & Ht) Hlen. apply length_zero_iff_nil in Hlen.
    assert (t ∈ base.filter
              (λ x, matches topic_field (Some ("producer", producer_id p)) x = true)
              (topics objs)) as Hf by (apply list_elem_of_filter; split; [by apply Hm|done]).
    rewrite Hlen in Hf. by apply elem_of_nil in Hf.
Qed.

Lemma always_succeeds_binds E : always_succeeds E → ¬ bind_failure E.
Proof.
  intros (Ha & _ & _ & _ & Htc & Htn & _) (h & [Hf|[Hf|(name & Hf)]]); congruence.
Qed.

Ltac conf_set_ok Hs :=
  match goal with
  | |- context [rd_kafka_conf_set_res ?E ?h ?n ?v] =>
      let r := fresh "r" in
      let errstr := fresh "errstr" in
      let Hq := fresh "Hq" in
      pose proof (Hs h n v) as Hq;
      destruct (rd_kafka_conf_set_res E h n v) as [r errstr]; cbn in Hq; subst r
  end.

Lemma new_kafka_producer_succeeds E c p w :
  always_succeeds E → ∃ obj w', new_kafka_producer E c p w = Done (Some obj) w'.
Proof.
  intros (Ha & Hc & Hs & Hn & _). destruct w as [m s h].
  unfold new_kafka_producer, build_rdkafka_cluster_config. hide_formats. run.
  repeat (first [ rewrite Ha | rewrite Hc | rewrite Hn | conf_set_ok Hs
                | rewrite decide_True by done
                | rewrite decide_False by (let H := fresh in intros H; by apply H)
                | lookup | name_fresh | branch ];
          run).
  all: show_formats; try lia; try congruence; eauto.
Qed.

Lemma triple_log_tally F (P : world → Prop) level fmt args :
  (∀ m s h e, P {| mem := m; kafka_sorcery := s; history := h |} →
              P {| mem := m; kafka_sorcery := s; history := h ++ [e] |}) →
  triple F (tally 0 0) P (ast_log level fmt args) (λ _, P).
Proof.
  intros HP [m s h] Hw. cbn. split; [by apply HP|]. by eexists.
Qed.

Section NothingFails.

Context (E : env) (srv : ast_sorcery).
Context (HE : always_succeeds E).

Lemma triple_retrieve_found {A} type (objects : kafka_objects → list A) field filter :
  triple False (tally 0 0) (sorcery_open srv)
    (ast_sorcery_retrieve_by_fields E type objects field filter)
    (λ found w,
       found = Some (base.filter (λ x, matches field filter x = true)
                       (objects (loaded srv)))
       ∧ sorcery_open srv w).
Proof.
  destruct HE as (_ & _ & _ & _ & _ & _ & Hr).
  intros [m s h] Hw. unfold sorcery_open in *. cbn [kafka_sorcery] in Hw. subst s.
  unfold ast_sorcery_retrieve_by_fields. run. rewrite Hr.
  split; [done|]. by eexists.
Qed.

Lemma triple_new_kafka_producer_created c p :
  triple False (tally 1 0) (sorcery_open srv) (new_kafka_producer E c p)
    (λ r w, ∃ obj rk, r = Some obj ∧ sorcery_open srv w ∧ producer_live obj rk w).
Proof.
  intros w Hw. unfold sorcery_open in *.
  destruct (new_kafka_producer_succeeds E c p w HE) as (obj & w' & Hrun).
  pose proof (new_kafka_producer_spec E c p w) as Hspec.
  rewrite Hrun in Hspec |- *. clear Hrun.
  destruct Hspec as (rk & cfg & Hh & Hobj & Hrk & Hne & Hm & Hs).
  split.
  - exists obj, rk. split_and!; [done|congruence|].
    exists (cluster_settings c). rewrite Hm. split.
    + apply lookup_insert_eq.
    + rewrite lookup_insert_ne by done. apply lookup_insert_eq.
  - eexists. split; [exact Hh|]. counts. done.
Qed.

Lemma triple_process_producer_topic_quiet obj rk st :
  triple False (tally 0 0)
    (λ w, sorcery_open srv w ∧ producer_live obj rk w)
    (process_producer_topic E obj st)
    (λ _ w, sorcery_open srv w ∧ producer_live obj rk w).
Proof.
  intros w (Hs & kvs & Hobj & Hrk). unfold sorcery_open in *.
  pose proof (process_producer_topic_spec E obj st w _ _ _ _ Hobj Hrk) as Hx.
  destruct (process_producer_topic E obj st w) as [[] w'|].
  2: by apply (always_succeeds_binds E HE).
  destruct Hx as (t & rkt & tcfg & r1 & r2 & logs1 & logs2
                  & Hh & Hl1 & Hl2 & Ht & Hrkt & Htne & Hm & Hs').
  split; [split; [congruence|]|].
  - exists kvs. rewrite Hm. rewrite !lookup_insert_ne by addr_ne. done.
  - eexists. split; [exact Hh|]. counts. done.
Qed.

Lemma triple_release_producer_destroys obj rk :
  triple False (tally 0 1)
    (λ w, sorcery_open srv w ∧ producer_live obj rk w)
    (ao2_ref obj (-1))
    (λ _, sorcery_open srv).
Proof.
  intros w (Hs & kvs & Hobj & Hrk).
  rewrite (release_producer w obj rk _ _ Hobj Hrk).
  split; [done|]. by eexists.
Qed.

Lemma triple_process_consumer_quiet c k :
  triple False (tally 0 0) (sorcery_open srv) (process_consumer E c k)
    (λ _, sorcery_open srv).
Proof.
  intros w Hw. pose proof (process_consumer_counts E c k w srv Hw) as Hcount.
  pose proof (process_consumer_spec E c k w srv Hw) as Hspec.
  destruct (process_consumer E c k w) as [r w'|w']; [|done].
  destruct Hcount as (_ & Hs & evs & Hh & _ & Hcr & _).
  destruct Hspec as (_ & _ & evs' & Hh' & [Hbal _] & _).
  rewrite Hh in Hh'. apply app_inv_head in Hh'. subst evs'.
  split; [done|]. exists evs. split_and!; [done|done|congruence].
Qed.

Lemma triple_process_producer_count c p :
  triple False
    (tally (if has_topics (loaded srv) p then 1 else 0)
           (if has_topics (loaded srv) p then 1 else 0))
    (sorcery_open srv) (process_producer E c p) (λ _, sorcery_open srv).
Proof.
  unfold process_producer, ast_debug3.
  pose proof (topics_found (loaded srv) p) as Hfound.
  eapply (triple_tally_cast _ (0 + (0 + _)) (0 + (0 + _))); [reflexivity..|].
  eapply triple_bind_tally; [apply triple_log_tally; by intros|intros ?].
  eapply triple_bind_tally; [apply triple_retrieve_found|intros found].
  apply triple_pure. intros ->.
  destruct (decide (length _ ≠ 0%nat)) as [Hlen|Hlen].
  - apply Hfound in Hlen. rewrite Hlen.
    eapply (triple_tally_cast _ (1 + (0 + (0 + 0))) (0 + (0 + (1 + 0))));
      [reflexivity..|].
    eapply triple_bind_tally; [apply triple_new_kafka_producer_created|intros r].
    apply triple_exists. intros obj. apply triple_exists. intros rk.
    apply triple_pure. intros ->.
    eapply triple_bind_tally.
    { apply (triple_for_each _ _ tally_refl tally_quiet).
      intros st _. apply triple_process_producer_topic_quiet. }
    intros ?.
    eapply triple_bind_tally; [apply triple_release_producer_destroys|intros ?].
    by apply triple_ret; [apply tally_refl|].
  - assert (has_topics (loaded srv) p = false) as ->.
    { apply not_true_is_false. intros Hb. apply Hfound in Hb. contradiction. }
    by apply triple_ret; [apply tally_refl|].
Qed.

Lemma triple_process_cluster_count c :
  triple False
    (tally (connections_for (loaded srv) c) (connections_for (loaded srv) c))
    (sorcery_open srv) (process_cluster E c) (λ _, sorcery_open srv).
Proof.
  unfold process_cluster, ast_debug3, connections_for. cbv zeta.
  rewrite <- sum_list_with_filter, <- producers_found.
  match goal with |- triple _ (tally ?n _) _ _ _ => set (total := n) end.
  apply (triple_tally_cast _ (0 + (0 + (total + (0 + 0)))) (0 + (0 + (total + (0 + 0)))));
    [lia..|].
  eapply triple_bind_tally; [apply triple_log_tally; by intros|intros ?].
  eapply triple_bind_tally; [apply triple_retrieve_found|intros found].
  apply triple_pure. intros ->.
  eapply triple_bind_tally.
  { apply triple_for_each_tally. intros p _.
    eapply triple_tally_cast; [apply Nat.add_0_r..|].
    eapply triple_bind_tally; [apply triple_process_producer_count|intros ?].
    by apply triple_ret; [apply tally_refl|]. }
  intros ?.
  eapply triple_bind_tally; [apply triple_retrieve_found|intros found].
  apply triple_pure. intros ->.
  apply (triple_for_each _ _ tally_refl tally_quiet).
  intros k _.
  eapply (triple_tally_cast _ (0 + 0) (0 + 0)); [reflexivity..|].
  eapply triple_bind_tally; [apply triple_process_consumer_quiet|intros ?].
  by apply triple_ret; [apply tally_refl|].
Qed.

Lemma triple_process_all_clusters_count :
  triple False
    (tally (connections_per_pass (loaded srv)) (connections_per_pass (loaded srv)))
    (sorcery_open srv) (process_all_clusters E) (λ _, sorcery_open srv).
Proof.
  unfold process_all_clusters, connections_per_pass.
  eapply (triple_tally_cast _ (0 + _) (0 + _)); [reflexivity..|].
  eapply triple_bind_tally; [apply triple_retrieve_found|intros found].
  apply triple_pure. intros ->.
  assert (Hall : base.filter (λ x, matches cluster_field None x = true)
                   (clusters (loaded srv)) = clusters (loaded srv)).
  { induction (clusters (loaded srv)) as [|c l IH]; [done|].
    rewrite filter_cons_True by done. by rewrite IH. }
  rewrite Hall. apply triple_for_each_tally. intros c _.
  apply triple_process_cluster_count.
Qed.

End NothingFails.

Lemma all_succeed_always_succeeds file : always_succeeds (all_succeed file).
Proof. by repeat split. Qed.

(** ** C6: running the pass again *)

(** C6 fails.  A second pass over the unchanged configuration of the
    scenario creates a connection again, and destroys it again. *)
Lemma second_pass_creates_again :
  let E := all_succeed scenario in
  let w1 := loaded_world E in
  let w2 := world_of (process_all_clusters E w1) in
  kafka_conf E (history w1) = kafka_conf E []
  ∧ value_of (process_all_clusters E w1) = Some tt
  ∧ creations (since w1 w2) = 1%nat
  ∧ destructions (since w1 w2) = 1%nat
  ∧ creations (since w1 w2) ≠ 0%nat.
Proof. intros E w1 w2. split_and!; by vm_compute. Qed.

(** C6, amended.  With the sorcery open: [reload_module] returns 0, leaves
    the memory as it is and creates and destroys no connection (it runs no
    pass at all).  A pass ([process_all_clusters]) that completes leaves the
    set of live connections as it found it and destroys exactly as many
    connections as it creates.  When no call of astobj2, librdkafka or the
    sorcery fails, a pass runs to its end and creates, and destroys again,
    exactly one connection for every loaded producer that has a loaded
    topic, once for each loaded cluster the producer belongs to; the pass
    leaves the sorcery as it is, and a second pass straight after it
    creates and destroys the same number of connections again. *)
Theorem each_pass_creates_its_connections_again E w srv :
  kafka_sorcery w = Some srv →
  (∃ w', reload_module E w = Done 0 w'
         ∧ mem w' = mem w
         ∧ creations (since w w') = 0%nat
         ∧ destructions (since w w') = 0%nat)
  ∧ match process_all_clusters E w with
    | Done _ w' =>
        live_clients w' = live_clients w
        ∧ creations (since w w') = destructions (since w w')
    | Fault _ => bind_failure E
    end
  ∧ (always_succeeds E →
     ∃ w1 w2,
       process_all_clusters E w = Done tt w1
       ∧ kafka_sorcery w1 = Some srv
       ∧ creations (since w w1) = connections_per_pass (loaded srv)
       ∧ destructions (since w w1) = connections_per_pass (loaded srv)
       ∧ process_all_clusters E w1 = Done tt w2
       ∧ creations (since w1 w2) = connections_per_pass (loaded srv)
       ∧ destructions (since w1 w2) = connections_per_pass (loaded srv)).
Proof.
  intros Hs. split_and!.
  - destruct (reload_module_spec E w srv Hs) as (w' & Hr & Hm & _ & Hf).
    exists w'. apply reload_events_create_nothing in Hf. naive_solver.
  - pose proof (process_all_clusters_spec E w srv Hs) as Hspec.
    destruct (process_all_clusters E w) as [[] w'|w']; [|done].
    destruct Hspec as ((_ & Hl) & evs & Hh & [Hbal _] & _).
    by rewrite (since_app _ _ _ Hh).
  - intros HE.
    pose proof (triple_process_all_clusters_count E srv HE w Hs) as H1.
    destruct (process_all_clusters E w) as [[] w1|w1] eqn:Hrun1; [|done].
    destruct H1 as (Hs1 & evs1 & Hh1 & Hc1 & Hd1).
    pose proof (triple_process_all_clusters_count E srv HE w1 Hs1) as H2.
    destruct (process_all_clusters E w1) as [[] w2|w2] eqn:Hrun2; [|done].
    destruct H2 as (Hs2 & evs2 & Hh2 & Hc2 & Hd2).
    exists w1, w2.
    rewrite (since_app _ _ _ Hh1), (since_app _ _ _ Hh2).
    unfold sorcery_open in *. by split_and!.
Qed.

Lemma each_pass_creates_its_connections_again_witness :
  let E := all_succeed scenario in
  let w := loaded_world E in
  let srv := sorcery_of w in
  kafka_sorcery w = Some srv
  ∧ always_succeeds E
  ∧ connections_per_pass (loaded srv) = 1%nat
  ∧ (∃ w', reload_module E w = Done 0 w'
           ∧ mem w' = mem w
           ∧ creations (since w w') = 0%nat
           ∧ destructions (since w w') = 0%nat)
  ∧ match process_all_clusters E w with
    | Done _ w' =>
        live_clients w' = live_clients w
        ∧ creations (since w w') = destructions (since w w')
    | Fault _ => bind_failure E
    end
  ∧ ∃ w1 w2,
      process_all_clusters E w = Done tt w1
      ∧ kafka_sorcery w1 = Some srv
      ∧ creations (since w w1) = connections_per_pass (loaded srv)
      ∧ destructions (since w w1) = connections_per_pass (loaded srv)
      ∧ process_all_clusters E w1 = Done tt w2
      ∧ creations (since w1 w2) = connections_per_pass (loaded srv)
      ∧ destructions (since w1 w2) = connections_per_pass (loaded srv).
Proof.
  intros E w srv.
  assert (Hs : kafka_sorcery w = Some srv) by (by vm_compute).
  destruct (each_pass_creates_its_connections_again E w srv Hs) as (H1 & H2 & H3).
  split_and!; [exact Hs|apply all_succeed_always_succeeds|by vm_compute
              |exact H1|exact H2|].
  apply H3, all_succeed_always_succeeds.
Defined.
